(** * GIF-Automator: a shallow embedding of [main.py]

    The program downloads a video, cuts it into fixed-length GIF clips with
    an external transcoder and then replays a scripted sequence of mouse and
    keyboard actions that uploads the clips.  This development embeds the
    functions of [main.py] and proves (or refutes) the properties that
    its specification states about them.

    Conventions of the embedding.

    - A Python [str] is a list of Unicode code points ([N]).
    - A Python [int] is a [Z]; a Python [float] is an IEEE 754 binary64
      value, [spec_float] with precision 53 and maximal exponent 1024.
    - Effects are recorded on a trace of events, threaded through a small
      state and exception monad.  The outside world (what the user types,
      what the external tools print, which automation step raises) is a
      record of oracles, [world].
    - Library functions that are not part of the repository and whose
      full behaviour the properties do not depend on ([float] on strings,
      [os.path.join], [os.path.exists]) are fields of [world]. *)

From Stdlib Require Import List ZArith NArith PArith Bool Ascii String Lia.
From Stdlib Require Import QArith Qabs Qround.
From Stdlib Require Import Floats.SpecFloat.
From Stdlib Require Import Numbers.DecimalString Numbers.DecimalPos Numbers.DecimalZ.
From Stdlib Require Import FinFun.
Import ListNotations.

Set Implicit Arguments.
Local Open Scope Z_scope.

(* ================================================================= *)
(** ** Python strings *)

Definition char : Type := N.
Definition str : Type := list char.

(** A literal: the code points of an ASCII string. *)
Fixpoint u (s : string) : str :=
  match s with
  | EmptyString => []
  | String a s' => N_of_ascii a :: u s'
  end.

Definition char_eqb (a b : char) : bool := N.eqb a b.

Definition str_eqb (a b : str) : bool :=
  if list_eq_dec N.eq_dec a b then true else false.

(** [not s] on a string: the empty string is falsy. *)
Definition is_empty (s : str) : bool :=
  match s with [] => true | _ :: _ => false end.

(** [s.replace(old, new)] for a one-character [old]. *)
Definition replace_char (old : char) (new : str) (s : str) : str :=
  flat_map (fun c => if char_eqb c old then new else [c]) s.

(** [str.isspace] on one character: the code points CPython's
    [_PyUnicode_IsWhitespace] accepts. *)
Definition isspace (c : char) : bool :=
  ((9 <=? c) && (c <=? 13) || (28 <=? c) && (c <=? 32)
   || (c =? 133) || (c =? 160) || (c =? 5760)
   || (8192 <=? c) && (c <=? 8202)
   || (c =? 8232) || (c =? 8233) || (c =? 8239) || (c =? 8287)
   || (c =? 12288))%N.

Fixpoint lstrip_by (p : char -> bool) (s : str) : str :=
  match s with
  | [] => []
  | c :: s' => if p c then lstrip_by p s' else s
  end.

Definition rstrip_by (p : char -> bool) (s : str) : str :=
  rev (lstrip_by p (rev s)).

Definition strip_by (p : char -> bool) (s : str) : str :=
  rstrip_by p (lstrip_by p s).

(** [s.strip()] *)
Definition strip (s : str) : str := strip_by isspace s.

(** [s.strip(chars)] *)
Definition strip_chars (chars : str) (s : str) : str :=
  strip_by (fun c => existsb (char_eqb c) chars) s.

(** [s.split(sep)] for a one-character separator: never the empty list. *)
Fixpoint split_char (sep : char) (s : str) : list str :=
  match s with
  | [] => [[]]
  | c :: s' =>
      if char_eqb c sep then [] :: split_char sep s'
      else match split_char sep s' with
           | [] => [[c]]
           | w :: ws => (c :: w) :: ws
           end
  end.

(** [str(n)] for an [int]. *)
Definition str_of_int (n : Z) : str :=
  u (NilZero.string_of_int (Z.to_int n)).

(** [range(start, stop, step)] and [range(n)]. *)
Definition py_range3 (start stop step : Z) : list Z :=
  let n :=
    if 0 <? step then (stop - start + step - 1) / step
    else if step <? 0 then (start - stop - step - 1) / (- step)
    else 0 in
  map (fun k => start + Z.of_nat k * step) (seq 0 (Z.to_nat n)).

Definition py_range (n : Z) : list Z := py_range3 0 n 1.

(* ================================================================= *)
(** ** [sanitize_filename] *)

(** The nine characters that Windows refuses in a file name: less-than,
    greater-than, colon, double quote (code point 34), slash, backslash,
    bar, question mark, star. *)
Definition invalid_chars : str := u "<>:" ++ [34%N] ++ u "/\|?*".

Definition sanitize_filename (name : str) : str :=
  (* for char in invalid_chars: name = name.replace(char, '') *)
  let name := fold_left (fun name ch => replace_char ch [] name)
                        invalid_chars name in
  (* if len(name) > 100: name = name[:100] *)
  let name := if (100 <? List.length name)%nat then firstn 100 name else name in
  (* name = name.strip().strip('.') *)
  strip_chars (u ".") (strip name).

(* ================================================================= *)
(** ** Python floats and the clip count *)

(** binary64 *)
Definition prec : Z := 53.
Definition emax : Z := 1024.

(** The conversion of an [int] operand to [float], round to nearest even. *)
Definition float_of_int (n : Z) : spec_float :=
  binary_normalize prec emax n 0 false.

(** Exceptions, by class.  All but [SystemExit] derive from [Exception]. *)
Inductive exn_class :=
| FailSafeException      (* pyautogui.FailSafeException *)
| DownloadError          (* yt_dlp.utils.DownloadError *)
| ValueError
| OverflowError
| ZeroDivisionError
| AttributeError
| OtherException
| SystemExit.

Record exn := Exn { exn_cls : exn_class; exn_msg : str }.

Definition is_failsafe (e : exn) : bool :=
  match exn_cls e with FailSafeException => true | _ => false end.

(** [isinstance(e, Exception)] *)
Definition is_Exception (e : exn) : bool :=
  match exn_cls e with SystemExit => false | _ => true end.

Inductive result (A : Type) :=
| Ok (a : A)
| Raised (e : exn).
Arguments Ok {A} a.
Arguments Raised {A} e.

(** [a / b] for a [float] [a] and an [int] [b]. *)
Definition float_truediv (a : spec_float) (b : Z) : result spec_float :=
  match float_of_int b with
  | S754_infinity _ =>
      Raised (Exn OverflowError (u "int too large to convert to float"))
  | S754_zero _ =>
      Raised (Exn ZeroDivisionError (u "float division by zero"))
  | fb => Ok (SFdiv prec emax a fb)
  end.

(** [math.ceil(x)] for a [float]: an exact [int]. *)
Definition math_ceil (x : spec_float) : result Z :=
  match x with
  | S754_zero _ => Ok 0
  | S754_infinity _ =>
      Raised (Exn OverflowError (u "cannot convert float infinity to integer"))
  | S754_nan =>
      Raised (Exn ValueError (u "cannot convert float NaN to integer"))
  | S754_finite s m e =>
      let v := if s then Z.neg m else Z.pos m in
      Ok (if 0 <=? e then v * 2 ^ e else - ((- v) / 2 ^ (- e)))
  end.

(** [math.ceil(duration / clip_length)] *)
Definition num_clips (duration : spec_float) (clip_length : Z) : result Z :=
  match float_truediv duration clip_length with
  | Ok q => math_ceil q
  | Raised e => Raised e
  end.

(** The rational number a float stands for (0 for the non-finite ones). *)
Definition float_val (x : spec_float) : Q :=
  match x with
  | S754_finite s m e =>
      let v := if s then Z.neg m else Z.pos m in
      if 0 <=? e then inject_Z (v * 2 ^ e) else Qmake v (Z.to_pos (2 ^ (- e)))
  | _ => 0%Q
  end.

Definition is_finite (x : spec_float) : bool :=
  match x with
  | S754_zero _ | S754_finite _ _ _ => true
  | _ => false
  end.

(** [x <= 0.0] *)
Definition float_le0 (x : spec_float) : bool :=
  SFleb x (S754_zero false).

(** A float that is a zero or a finite number of sign [s]. *)
Definition zero_or_finite (s : bool) (x : spec_float) : Prop :=
  x = S754_zero s \/ exists m e, x = S754_finite s m e.

Definition float_sign (x : spec_float) : bool :=
  match x with
  | S754_zero s | S754_infinity s | S754_finite s _ _ => s
  | S754_nan => false
  end.

(** A well-formed binary64 value, as every float of Python is. *)
Definition valid64 (x : spec_float) : bool := valid_binary prec emax x.

(** The signed mantissa of a finite float. *)
Definition signed (s : bool) (m : Z) : Z := if s then - m else m.

(** The ceiling of the fraction [a / d] of two integers. *)
Definition ceil_div (a d : Z) : Z := - ((- a) / d).

(** Where a remainder [R] of a division by [Y] lies between 0 and [Y]:
    the location that rounding to nearest looks at. *)
Definition location_of (R Y : Z) : location :=
  if R =? 0 then loc_Exact else loc_Inexact (Z.compare (2 * R) Y).

(** A shift record stands for the fraction [X / Y]: its mantissa is the
    integer part and its two bits are the location of the rest. *)
Definition shr_represents (mrs : shr_record) (X Y : Z) : Prop :=
  shr_m mrs = X / Y /\ loc_of_shr_record mrs = location_of (X mod Y) Y.

(* ================================================================= *)
(** ** Events, the world and the monad *)

(** The [print] calls, one constructor for each, with the values
    they interpolate. *)
Inductive console :=
| Attempting (url : str)
| DownloadComplete
| DownloadFailed (e : exn)
| UnexpectedError (e : exn)
| CreatedDir (output_dir : str)
| UsingDir (output_dir : str)
| CouldNotReadDuration
| VideoLength (duration : spec_float)
| Creating (num_clips clip_length : Z)
| Saved (output_path : str)
| TagsGenerated (tags : list str)
| TagError (e : exn)
| Banner
| Rule
| NoUrl
| DownloadFailedExiting
| DownloadedVideo (path : str)
| VideoTitle (title : option str)
| ConvertingHeader
| CreatingGifsIn (dir : str)
| ConversionCompleted
| VideoDownloadedTo (path : str)
| GifsSavedTo (dir : str)
| StartingUploaderHeader
| Cooldown
| StartingIn (i : Z)
| AutoStarting.

Inductive event :=
| Console (m : console)             (* print(...) *)
| Input (prompt : str)              (* input(prompt) *)
| Makedirs (path : str)             (* os.makedirs(path) *)
| Download (url : str)              (* ydl.extract_info(url, download=True) *)
| Probe (argv : list str)           (* subprocess.run([ffprobe ...]) *)
| Transcode (argv : list str)       (* subprocess.run(command) *)
| StatusSet (message : str)         (* self.status.set(message); self.root.update() *)
| BrowserOpen (url : str)           (* webbrowser.open(url) *)
| Sleep (ms : Z)                    (* time.sleep, in milliseconds *)
| Click (x y : Z)                   (* pyautogui.click(x, y) *)
| TypeText (text : str)             (* pyautogui.write(text) *)
| Press (key : str)                 (* pyautogui.press(key) *)
| Hotkey (k1 k2 : str)              (* pyautogui.hotkey(k1, k2) *)
| ClipboardCopy (text : str)        (* pyperclip.copy(text) *)
| Generate (prompt : str).          (* self.model.generate_content(prompt) *)

(** What [ydl.extract_info] and [ydl.prepare_filename] yield. *)
Inductive ydl_result :=
| YdlOk (downloaded_file : str) (title : option str)
| YdlDownloadError (msg : str)
| YdlError (msg : str).

Record world := {
  (* the line typed at the URL prompt *)
  stdin_line : str;
  (* yt-dlp on a URL *)
  ydl : str -> ydl_result;
  (* os.path.exists *)
  path_exists : str -> bool;
  (* os.path.join, on two components *)
  os_path_join : str -> str -> str;
  (* what ffprobe prints for a video file *)
  ffprobe_stdout : str -> str;
  (* float(s): None stands for ValueError *)
  py_float : str -> option spec_float;
  (* whether setup_gemini succeeds *)
  genai_ok : bool;
  (* response.text of generate_content(prompt) *)
  response_text : str -> str;
  (* the n-th action of the automation raises *)
  fault : nat -> option exn
}.

Record state := { trace : list event; tick : nat }.

Definition init : state := {| trace := []; tick := 0 |}.

Definition M (A : Type) : Type := state -> state * result A.

Definition ret {A} (a : A) : M A := fun s => (s, Ok a).

Definition bind {A B} (c : M A) (k : A -> M B) : M B :=
  fun s => match c s with
           | (s', Ok a) => k a s'
           | (s', Raised e) => (s', Raised e)
           end.

Notation "x <- c ;; k" := (bind c (fun x => k))
  (at level 61, c at next level, right associativity).
Notation "c ;; k" := (bind c (fun _ => k))
  (at level 61, right associativity).

Definition raise {A} (e : exn) : M A := fun s => (s, Raised e).

Definition lift {A} (r : result A) : M A :=
  match r with Ok a => ret a | Raised e => raise e end.

(** [try: body / except Exception as e: handler e]; what is no
    [Exception] passes through. *)
Definition try_except {A} (body : M A) (handler : exn -> M A) : M A :=
  fun s => match body s with
           | (s', Ok a) => (s', Ok a)
           | (s', Raised e) =>
               if is_Exception e then handler e s' else (s', Raised e)
           end.

(** An effect of the download and conversion stages: it happens. *)
Definition emit (ev : event) : M unit :=
  fun s => ({| trace := trace s ++ [ev]; tick := tick s |}, Ok tt).

(** An action of the automation (a call into the window toolkit, the
    input automation, the clipboard, the browser, the text model, or a
    [print] in between): the world decides whether it raises, by its
    position among the actions attempted so far.  An action that raises
    leaves no event. *)
Definition perform (w : world) (ev : event) : M unit :=
  fun s => match fault w (tick s) with
           | Some e => ({| trace := trace s; tick := S (tick s) |}, Raised e)
           | None => ({| trace := trace s ++ [ev]; tick := S (tick s) |}, Ok tt)
           end.

Fixpoint for_each {A} (l : list A) (body : A -> M unit) : M unit :=
  match l with
  | [] => ret tt
  | x :: l' => body x ;; for_each l' body
  end.

Definition print (m : console) : M unit := emit (Console m).

(** [exit()] *)
Definition exit {A} : M A := raise (Exn SystemExit []).

(* ================================================================= *)
(** ** [video_to_gifs] *)

Definition ffprobe_command (video_path : str) : list str :=
  [u "ffprobe"; u "-v"; u "error"; u "-show_entries"; u "format=duration";
   u "-of"; u "default=noprint_wrappers=1:nokey=1"; video_path].

Definition ffmpeg_command (start clip_length : Z) (video_path : str)
  (fps : Z) (output_path : str) : list str :=
  [u "ffmpeg"; u "-y";
   u "-ss"; str_of_int start;
   u "-t"; str_of_int clip_length;
   u "-i"; video_path;
   u "-vf"; u "fps=" ++ str_of_int fps ++ u ",scale=480:-1:flags=lanczos";
   output_path].

Definition video_to_gifs (w : world) (video_path output_dir : str)
  (clip_length fps : Z) : M unit :=
  (if negb (path_exists w output_dir)
   then emit (Makedirs output_dir) ;; print (CreatedDir output_dir)
   else print (UsingDir output_dir)) ;;
  emit (Probe (ffprobe_command video_path)) ;;
  let stdout := ffprobe_stdout w video_path in
  match py_float w (strip stdout) with
  | None => print CouldNotReadDuration   (* except ValueError: ...; return *)
  | Some duration =>
      print (VideoLength duration) ;;
      num_clips <- lift (num_clips duration clip_length) ;;
      print (Creating num_clips clip_length) ;;
      for_each (py_range num_clips) (fun i =>
        let start := i * clip_length in
        let output_path :=
          os_path_join w output_dir
            (u "output_" ++ str_of_int (i + 1) ++ u ".gif") in
        let command :=
          ffmpeg_command start clip_length video_path fps output_path in
        emit (Transcode command) ;;
        print (Saved output_path))
  end.

(** The transcoder invocations recorded on a trace. *)
Definition transcodes (t : list event) : list (list str) :=
  flat_map (fun ev => match ev with Transcode c => [c] | _ => [] end) t.

(** The events of one iteration of the loop, and of the first statement. *)
Definition clip_events (w : world) (video_path output_dir : str)
  (clip_length fps : Z) (i : Z) : list event :=
  let output_path :=
    os_path_join w output_dir (u "output_" ++ str_of_int (i + 1) ++ u ".gif") in
  [Transcode (ffmpeg_command (i * clip_length) clip_length video_path fps
                output_path);
   Console (Saved output_path)].

Definition ensure_dir_events (w : world) (output_dir : str) : list event :=
  if negb (path_exists w output_dir)
  then [Makedirs output_dir; Console (CreatedDir output_dir)]
  else [Console (UsingDir output_dir)].

(** A state with more events on its trace. *)
Definition extend (s : state) (t : list event) : state :=
  {| trace := trace s ++ t; tick := tick s |}.

(* ================================================================= *)
(** ** [download_video_from_url] *)

Definition download_dir : str := u "D:\downloads".

Definition download_video_from_url (w : world) (url : str)
  : M (option str * option str) :=
  (if negb (path_exists w download_dir)
   then emit (Makedirs download_dir) else ret tt) ;;
  print (Attempting url) ;;
  emit (Download url) ;;
  match ydl w url with
  | YdlOk downloaded_file title =>
      (* video_title = info.get('title', 'Unknown_Title') *)
      let video_title :=
        match title with Some t => t | None => u "Unknown_Title" end in
      print DownloadComplete ;;
      ret (Some downloaded_file, Some video_title)
  | YdlDownloadError msg =>
      print (DownloadFailed (Exn DownloadError msg)) ;;
      ret (None, None)
  | YdlError msg =>
      print (UnexpectedError (Exn OtherException msg)) ;;
      ret (None, None)
  end.

(** The events of a call, and what it returns. *)
Definition download_events (w : world) (url : str) : list event :=
  (if negb (path_exists w download_dir) then [Makedirs download_dir] else [])
  ++ [Console (Attempting url); Download url]
  ++ match ydl w url with
     | YdlOk _ _ => [Console DownloadComplete]
     | YdlDownloadError msg => [Console (DownloadFailed (Exn DownloadError msg))]
     | YdlError msg => [Console (UnexpectedError (Exn OtherException msg))]
     end.

Definition download_returns (w : world) (url : str)
  : option str * option str :=
  match ydl w url with
  | YdlOk downloaded_file title =>
      (Some downloaded_file,
       Some (match title with Some t => t | None => u "Unknown_Title" end))
  | _ => (None, None)
  end.

(* ================================================================= *)
(** ** [GiphyUploader] *)

(** The object after [__init__]: the fields the automation reads.  The
    widgets are not modelled; [setup_gemini] sets [gemini_available] to
    whether its [try] block ran through, which the world decides. *)
Record GiphyUploader := {
  video_title : str;
  gemini_available : bool;
  auto_start : bool
}.

Definition GiphyUploader_init (w : world) (video_title : str)
  (auto_start : bool) : GiphyUploader :=
  {| video_title := video_title;
     gemini_available := genai_ok w;
     auto_start := auto_start |}.

Definition update_status (w : world) (message : str) : M unit :=
  perform w (StatusSet message).

Definition click_at_position (w : world) (x y : Z) (description : str)
  : M unit :=
  update_status w (u "Step: " ++ description) ;;
  perform w (Click x y) ;;
  perform w (Sleep 1000).

(** The body of the three loops that paste a list of tags. *)
Definition paste_tag (w : world) (tag : str) : M unit :=
  perform w (ClipboardCopy tag) ;;
  perform w (Hotkey (u "ctrl") (u "v")) ;;
  perform w (Sleep 200) ;;
  perform w (Press (u "enter")) ;;
  perform w (Sleep 300).

Definition tag_prompt (topic : str) : str :=
  u "Generate 14 short, SEO-friendly hashtags for " ++ topic ++
  u ". First always include the name I have given. Only output the tags separated by commas. Include 1 tag for hero and another tag for heroine, and one dedicated tag which is most popular or viral.".

(** From [response.text] to the list [tags] that is pasted. *)
Definition response_tags (response_text : str) : list str :=
  let text_response := strip response_text in
  (* [tag.strip() for tag in text_response.replace(newline, '').split(',')
      if tag.strip()] *)
  let tags :=
    map strip
      (filter (fun tag => negb (is_empty (strip tag)))
         (split_char 44%N (replace_char 10%N [] text_response))) in
  match tags with
  | [] => [u "#gif"; u "#animation"; u "#fun"; u "#trending"; u "#viral"; u "#meme"]
  | _ => tags
  end.

(** The tag list in the words of the specification: the response split
    on commas, every entry trimmed, the empty entries dropped. *)
Definition spec_parse_tags (response_text : str) : list str :=
  filter (fun tag => negb (is_empty tag))
    (map strip (split_char 44%N response_text)).

Definition generate_and_paste_tags (w : world) (self : GiphyUploader)
  (topic : str) : M unit :=
  if negb (gemini_available self) then
    update_status w (u "Gemini AI not available - using default tags") ;;
    let default_tags :=
      [u "#gif"; u "#animation"; u "#funny"; u "#meme"; u "#trending"; u "#viral"] in
    for_each default_tags (paste_tag w)
  else
    try_except
      (update_status w (u "Generating tags with AI...") ;;
       let prompt := tag_prompt topic in
       perform w (Generate prompt) ;;
       let tags := response_tags (response_text w prompt) in
       perform w (Console (TagsGenerated tags)) ;;
       perform w (Sleep 1000) ;;
       for_each tags (paste_tag w) ;;
       update_status w (u "Tags successfully added!"))
      (fun e =>
         perform w (Console (TagError e)) ;;
         update_status w (u "Error generating tags - using defaults") ;;
         let default_tags :=
           [u "#gif"; u "#animation"; u "#fun"; u "#meme"; u "#trending"; u "#viral"] in
         for_each default_tags (paste_tag w)).

(** The tags a run pastes: what it copies to the clipboard. *)
Definition emitted_tags (t : list event) : list str :=
  flat_map (fun ev => match ev with ClipboardCopy tag => [tag] | _ => [] end) t.

Definition gif_base : str := u "C:\Users\harip\ALL TEST".

(** [gif_directory], as [start_process] computes it from the object. *)
Definition gif_directory (w : world) (self : GiphyUploader) : str :=
  let folder_name :=
    sanitize_filename (replace_char 32%N (u "_") (video_title self) ++ u "_gifs") in
  os_path_join w gif_base folder_name.

Definition start_process (w : world) (self : GiphyUploader) : M unit :=
  update_status w (u "Starting GIPHY upload process...") ;;
  try_except
    ((* Step 0 *)
     update_status w (u "Opening GIPHY website...") ;;
     let url := u "https://giphy.com/" in
     perform w (BrowserOpen url) ;;
     perform w (Sleep 5000) ;;
     (* Steps 1 to 3 *)
     click_at_position w 1229 191 (u "Clicking on upload button") ;;
     click_at_position w 705 714 (u "Clicking on file selection area") ;;
     click_at_position w 445 167 (u "Clicking on path input") ;;
     let gif_directory := gif_directory w self in
     update_status w (u "Pasting file path: " ++ gif_directory) ;;
     perform w (TypeText gif_directory) ;;
     perform w (Press (u "enter")) ;;
     perform w (Sleep 2000) ;;
     (* Step 4 *)
     click_at_position w 765 165 (u "Clicking on name field") ;;
     update_status w (u "Entering name: " ++ video_title self) ;;
     perform w (TypeText (video_title self)) ;;
     perform w (Sleep 5000) ;;
     (* Step 5 *)
     click_at_position w 376 234 (u "Clicking on file area to focus") ;;
     perform w (Hotkey (u "ctrl") (u "a")) ;;
     perform w (Sleep 1000) ;;
     (* Step 6 *)
     click_at_position w 770 628 (u "Confirming selection - Clicking Open") ;;
     (* Step 7 *)
     update_status w (u "Waiting for GIF to upload and process (45 seconds)...") ;;
     for_each (py_range3 45 0 (-5)) (fun i =>
       update_status w
         (u "Processing... " ++ str_of_int i ++ u " seconds remaining") ;;
       perform w (Sleep 5000)) ;;
     (* Step 8 *)
     click_at_position w 1211 603 (u "Opening tags section") ;;
     perform w (Sleep 2000) ;;
     generate_and_paste_tags w self (video_title self) ;;
     (* Step 9 *)
     click_at_position w 1257 1035 (u "Final upload") ;;
     update_status w (u "Upload process completed successfully!"))
    (fun e =>
       if is_failsafe e
       then update_status w (u "Process was aborted by moving mouse to corner")
       else update_status w (u "An error occurred: " ++ exn_msg e)).

(** A straight run of actions. *)
Definition script (w : world) (l : list event) : M unit :=
  for_each l (perform w).

(** The actions of [start_process] as lists of events, for the
    statements about its runs: of one click, of one pasted tag, of the
    steps before and after the tags, and of the two halves of the [try]
    statement of [generate_and_paste_tags]. *)
Definition click_events (x y : Z) (description : str) : list event :=
  [StatusSet (u "Step: " ++ description); Click x y; Sleep 1000].

Definition paste_events (tag : str) : list event :=
  [ClipboardCopy tag; Hotkey (u "ctrl") (u "v"); Sleep 200;
   Press (u "enter"); Sleep 300].

Definition steps_before_tags (w : world) (self : GiphyUploader) : list event :=
  [StatusSet (u "Opening GIPHY website...");
   BrowserOpen (u "https://giphy.com/"); Sleep 5000]
  ++ click_events 1229 191 (u "Clicking on upload button")
  ++ click_events 705 714 (u "Clicking on file selection area")
  ++ click_events 445 167 (u "Clicking on path input")
  ++ [StatusSet (u "Pasting file path: " ++ gif_directory w self);
      TypeText (gif_directory w self); Press (u "enter"); Sleep 2000]
  ++ click_events 765 165 (u "Clicking on name field")
  ++ [StatusSet (u "Entering name: " ++ video_title self);
      TypeText (video_title self); Sleep 5000]
  ++ click_events 376 234 (u "Clicking on file area to focus")
  ++ [Hotkey (u "ctrl") (u "a"); Sleep 1000]
  ++ click_events 770 628 (u "Confirming selection - Clicking Open")
  ++ [StatusSet (u "Waiting for GIF to upload and process (45 seconds)...")]
  ++ flat_map (fun i =>
       [StatusSet (u "Processing... " ++ str_of_int i ++ u " seconds remaining");
        Sleep 5000]) (py_range3 45 0 (-5))
  ++ click_events 1211 603 (u "Opening tags section")
  ++ [Sleep 2000].

Definition steps_after_tags : list event :=
  click_events 1257 1035 (u "Final upload")
  ++ [StatusSet (u "Upload process completed successfully!")].

Definition tags_try_events (w : world) (topic : str) : list event :=
  let tags := response_tags (response_text w (tag_prompt topic)) in
  [StatusSet (u "Generating tags with AI..."); Generate (tag_prompt topic);
   Console (TagsGenerated tags); Sleep 1000]
  ++ flat_map paste_events tags
  ++ [StatusSet (u "Tags successfully added!")].

Definition tags_except_events (e : exn) : list event :=
  [Console (TagError e);
   StatusSet (u "Error generating tags - using defaults")]
  ++ flat_map paste_events
       [u "#gif"; u "#animation"; u "#fun"; u "#meme"; u "#trending"; u "#viral"].

Definition tags_unavailable_events : list event :=
  [StatusSet (u "Gemini AI not available - using default tags")]
  ++ flat_map paste_events
       [u "#gif"; u "#animation"; u "#funny"; u "#meme"; u "#trending"; u "#viral"].

(** The events of the tags when nothing raises. *)
Definition tags_events (w : world) (self : GiphyUploader) : list event :=
  if gemini_available self
  then tags_try_events w (video_title self)
  else tags_unavailable_events.

(** The events of the [try] block of [start_process] when nothing raises. *)
Definition nominal (w : world) (self : GiphyUploader) : list event :=
  steps_before_tags w self ++ tags_events w self ++ steps_after_tags.

(** The positions, among the actions of [start_process], of the actions
    inside the [try] block of [generate_and_paste_tags]. *)
Definition in_tags_try (w : world) (self : GiphyUploader) (k : nat) : bool :=
  gemini_available self
  && (List.length (steps_before_tags w self) <? k)%nat
  && (k <=? List.length (steps_before_tags w self)
            + List.length (tags_try_events w (video_title self)))%nat.

(** What the status display shows when [start_process] catches [e]. *)
Definition report (e : exn) : str :=
  if is_failsafe e
  then u "Process was aborted by moving mouse to corner"
  else u "An error occurred: " ++ exn_msg e.

(** Exactly one action raises: the one at position [k], with [e]. *)
Definition single_fault (w : world) (k : nat) (e : exn) : Prop :=
  forall j, fault w j = if (j =? k)%nat then Some e else None.

(** [run]: the main loop dispatches the start scheduled by [__init__].
    Tk reports an exception of a callback and goes on. *)
Definition GiphyUploader_run (w : world) (self : GiphyUploader) : M unit :=
  if auto_start self
  then try_except (start_process w self) (fun _ => ret tt)
  else ret tt.

(* ================================================================= *)
(** ** The main program *)

(** [final_output_dir], as the main program computes it from the title. *)
Definition final_output_dir (w : world) (video_title : str) : str :=
  let folder_name :=
    sanitize_filename (replace_char 32%N (u "_") video_title ++ u "_gifs") in
  os_path_join w gif_base folder_name.

Definition main (w : world) : M unit :=
  print Banner ;;
  print Rule ;;
  emit (Input (u "Paste the video URL and press Enter: ")) ;;
  let video_link := strip (stdin_line w) in
  if is_empty video_link then
    print NoUrl ;; exit
  else
    r <- download_video_from_url w video_link ;;
    let '(downloaded_video_path, video_title) := r in
    (* if not downloaded_video_path or
          not os.path.exists(downloaded_video_path) *)
    match downloaded_video_path with
    | None => print DownloadFailedExiting ;; exit
    | Some downloaded_video_path =>
        if is_empty downloaded_video_path
           || negb (path_exists w downloaded_video_path)
        then print DownloadFailedExiting ;; exit
        else
          print (DownloadedVideo downloaded_video_path) ;;
          print (VideoTitle video_title) ;;
          print Rule ;; print ConvertingHeader ;; print Rule ;;
          match video_title with
          | None =>
              raise (Exn AttributeError
                       (u "'NoneType' object has no attribute 'replace'"))
          | Some video_title =>
              let final_output_dir := final_output_dir w video_title in
              print (CreatingGifsIn final_output_dir) ;;
              video_to_gifs w downloaded_video_path final_output_dir 3 15 ;;
              print ConversionCompleted ;;
              print (VideoDownloadedTo downloaded_video_path) ;;
              print (GifsSavedTo final_output_dir) ;;
              print Rule ;; print StartingUploaderHeader ;; print Rule ;;
              print Cooldown ;;
              for_each (py_range3 10 0 (-1)) (fun i =>
                print (StartingIn i) ;; emit (Sleep 1000)) ;;
              print AutoStarting ;;
              let app := GiphyUploader_init w video_title true in
              GiphyUploader_run w app
          end
    end.

(** The events of the segmenter: creating a directory other than the
    download directory, probing, transcoding. *)
Definition segmenter_event (ev : event) : bool :=
  match ev with
  | Makedirs p => negb (str_eqb p download_dir)
  | Probe _ | Transcode _ => true
  | _ => false
  end.

(** The download stage fails: the fetcher returns no file, or a path that
    is empty or is not on disk. *)
Definition download_fails (w : world) (url : str) : bool :=
  match ydl w url with
  | YdlOk downloaded_file _ =>
      is_empty downloaded_file || negb (path_exists w downloaded_file)
  | YdlDownloadError _ | YdlError _ => true
  end.

(* ================================================================= *)
(** ** A concrete world *)

(** A reader of the plain decimal notation that the probe prints (a sign,
    digits, a fraction), rounded to the nearest binary64 value.  It is
    the [float] of the example worlds. *)
Definition digit_val (c : char) : option Z :=
  if ((48 <=? c) && (c <=? 57))%N then Some (Z.of_N c - 48) else None.

Fixpoint read_digits (acc : Z) (s : str) : option Z :=
  match s with
  | [] => Some acc
  | c :: s' =>
      match digit_val c with
      | Some d => read_digits (10 * acc + d) s'
      | None => None
      end
  end.

Definition decimal_float (s : str) : option spec_float :=
  let '(neg, body) :=
    match s with
    | 45%N :: r => (true, r)
    | 43%N :: r => (false, r)
    | _ => (false, s)
    end in
  let parts :=
    match split_char 46%N body with
    | [ip] => Some (ip, [])
    | [ip; fp] => Some (ip, fp)
    | _ => None
    end in
  match parts with
  | Some (ip, fp) =>
      if is_empty (ip ++ fp) then None
      else
        match read_digits 0 (ip ++ fp) with
        | Some 0 => Some (S754_zero neg)
        | Some mant =>
            let '(mz, ez, lz) :=
              SFdiv_core_binary prec emax mant 0
                (10 ^ Z.of_nat (List.length fp)) 0 in
            Some (binary_round_aux prec emax neg mz ez lz)
        | None => None
        end
  | None => None
  end.

(** A world in which the download succeeds and nothing raises, up to
    what its parameters say. *)
Definition example_world (stdout : str) (exists_ : str -> bool)
  (genai : bool) (response : str) (fault_at : nat -> option exn) : world :=
  {| stdin_line := u " https://example.org/watch?v=1 ";
     ydl := fun _ =>
       YdlOk (u "D:\downloads\Demo [1].mp4") (Some (u "Demo"));
     path_exists := exists_;
     os_path_join := fun a b => a ++ u "\" ++ b;
     ffprobe_stdout := fun _ => stdout;
     py_float := decimal_float;
     genai_ok := genai;
     response_text := fun _ => response;
     fault := fault_at |}.

Definition quiet_world (stdout : str) : world :=
  example_world stdout (fun _ => false) true (u "#demo, #gif")
    (fun _ => None).

(** The world of the examples in which exactly the action at position
    [k] raises [e]. *)
Definition one_fault_world (genai : bool) (k : nat) (e : exn) : world :=
  example_world (u "10") (fun _ => true) genai (u "#demo, #gif")
    (fun j => if (j =? k)%nat then Some e else None).

Definition quota_error : exn := Exn OtherException (u "quota exceeded").

(** What the specification says of an exception [e] raised by the action
    at position [k] of [start_process]: it is caught and reported, the
    call returns, and nothing but the report follows the actions done
    before. *)
Definition aborts_at (w : world) (self : GiphyUploader) (k : nat) (e : exn)
  : Prop :=
  exists s',
    start_process w self init = (s', Ok tt)
    /\ trace s'
       = StatusSet (u "Starting GIPHY upload process...")
         :: firstn (k - 1) (nominal w self) ++ [StatusSet (report e)].

(* ================================================================= *)
(** ** The folder of the clips *)

(** [folder_name], as the main program and [start_process] both compute
    it: [sanitize_filename(video_title.replace(" ", "_") + "_gifs")]. *)
Definition folder_name (video_title : str) : str :=
  sanitize_filename (replace_char 32%N (u "_") video_title ++ u "_gifs").

(** A character that [name.strip().strip('.')] takes off an end. *)
Definition stripped_char (c : char) : bool := isspace c || char_eqb c 46%N.

(* ================================================================= *)
(** ** What a run of the automation amounts to *)

(** The time a trace spends in [time.sleep], in milliseconds. *)
Definition slept (t : list event) : Z :=
  fold_right (fun ev acc => match ev with Sleep ms => ms + acc | _ => acc end)
    0 t.

(** The positions clicked, in their order. *)
Definition clicks (t : list event) : list (Z * Z) :=
  flat_map (fun ev => match ev with Click x y => [(x, y)] | _ => [] end) t.

(** The texts typed with [pyautogui.write], in their order. *)
Definition typed (t : list event) : list str :=
  flat_map (fun ev => match ev with TypeText s => [s] | _ => [] end) t.


(* ================================================================= *)
(** ** The events of the main program *)

(** [info.get('title', 'Unknown_Title')] *)
Definition title_of (title : option str) : str :=
  match title with Some t => t | None => u "Unknown_Title" end.

(** What the main program prints and reads before the download. *)
Definition main_intro_events : list event :=
  [Console Banner; Console Rule;
   Input (u "Paste the video URL and press Enter: ")].

(** What it prints between the download and the conversion. *)
Definition main_convert_events (w : world) (downloaded_video_path : str)
  (video_title : str) : list event :=
  [Console (DownloadedVideo downloaded_video_path);
   Console (VideoTitle (Some video_title));
   Console Rule; Console ConvertingHeader; Console Rule;
   Console (CreatingGifsIn (final_output_dir w video_title))].

(** What it prints, and how it waits, between the conversion and the
    automation. *)
Definition main_cooldown_events (w : world) (downloaded_video_path : str)
  (video_title : str) : list event :=
  [Console ConversionCompleted;
   Console (VideoDownloadedTo downloaded_video_path);
   Console (GifsSavedTo (final_output_dir w video_title));
   Console Rule; Console StartingUploaderHeader; Console Rule;
   Console Cooldown]
  ++ flat_map (fun i => [Console (StartingIn i); Sleep 1000])
       (py_range3 10 0 (-1))
  ++ [Console AutoStarting].

(* ================================================================= *)
(** ** More concrete worlds *)

(** A world like [w] with another line typed at the prompt. *)
Definition with_stdin (w : world) (line : str) : world :=
  {| stdin_line := line; ydl := ydl w; path_exists := path_exists w;
     os_path_join := os_path_join w; ffprobe_stdout := ffprobe_stdout w;
     py_float := py_float w; genai_ok := genai_ok w;
     response_text := response_text w; fault := fault w |}.

(** A world like [w] whose [float] also reads [nan] and [inf], as Python's
    does. *)
Definition with_special_floats (w : world) : world :=
  {| stdin_line := stdin_line w; ydl := ydl w; path_exists := path_exists w;
     os_path_join := os_path_join w; ffprobe_stdout := ffprobe_stdout w;
     py_float := fun s =>
       if str_eqb s (u "nan") then Some S754_nan
       else if str_eqb s (u "inf") then Some (S754_infinity false)
       else py_float w s;
     genai_ok := genai_ok w;
     response_text := response_text w; fault := fault w |}.

(** The world of a run that goes through: the file is on disk, the
    directory of the clips is not there yet, nothing raises. *)
Definition sunny_world (stdout : str) : world :=
  example_world stdout (fun p => str_eqb p (u "D:\downloads\Demo [1].mp4"))
    true (u "#demo, #gif") (fun _ => None).

(** Exactly two actions raise: the one at position [k1], with [e1], and
    the one at position [k2], with [e2]. *)
Definition double_fault (w : world) (k1 : nat) (e1 : exn) (k2 : nat) (e2 : exn)
  : Prop :=
  forall j, fault w j = if (j =? k1)%nat then Some e1
                        else if (j =? k2)%nat then Some e2 else None.

(** The world of the examples in which the actions at the positions [k1]
    and [k2] raise. *)
Definition two_fault_world (k1 : nat) (e1 : exn) (k2 : nat) (e2 : exn) : world :=
  example_world (u "10") (fun _ => true) true (u "#demo, #gif")
    (fun j => if (j =? k1)%nat then Some e1
              else if (j =? k2)%nat then Some e2 else None).

(* ================================================================= *)
(** ** [setup_gemini] *)

(** [p in m] on strings: [p] occurs in [m] as a substring. *)
Fixpoint starts_with (p s : str) : bool :=
  match p, s with
  | [], _ => true
  | _ :: _, [] => false
  | a :: p', b :: s' => char_eqb a b && starts_with p' s'
  end.

Fixpoint contains (p s : str) : bool :=
  starts_with p s
  || match s with
     | [] => false
     | _ :: s' => contains p s'
     end.

(** The text-model library, as [setup_gemini] meets it: what
    [genai.configure] raises, if it does; the names of
    [list(genai.list_models())], or what listing them raises; what
    [genai.GenerativeModel(model_name=...)] raises, if it does. *)
Record genai_api := {
  api_configure : option exn;
  api_list_models : result (list str);
  api_GenerativeModel : str -> option exn
}.

(** The [print] calls of [setup_gemini]. *)
Inductive setup_console :=
| AvailableModels (names : list str)
| CouldNotListModels (e : exn)
| NoPreferredModel
| UsingModel (model_name : str)
| SetupFailed (e : exn).

Definition preferred : list str :=
  [u "gemini-2.0-flash-exp"; u "gemini-1.5-flash-002"; u "gemini-1.5-pro-002"].

(** The inner function: no [Exception] leaves it. *)
Definition get_available_models (api : genai_api)
  : list setup_console * result (list str) :=
  match api_list_models api with
  | Ok names => ([AvailableModels names], Ok names)
  | Raised e =>
      if is_Exception e then ([CouldNotListModels e], Ok [])
      else ([], Raised e)
  end.

(** [for p in preferred: if any(p in m for m in available): ...; break] *)
Definition first_preferred (available : list str) : option str :=
  find (fun p => existsb (contains p) available) preferred.

(** The model name after [if not model_name: ...], with what is printed
    on the way. *)
Definition pick_model (available : list str) : list setup_console * str :=
  match first_preferred available with
  | Some model_name =>
      if is_empty model_name
      then ([NoPreferredModel], u "gemini-1.5-flash-002")
      else ([], model_name)
  | None => ([NoPreferredModel], u "gemini-1.5-flash-002")
  end.

(** The [try] block: what it prints, and the model name that
    [self.model] is built with. *)
Definition setup_gemini_try (api : genai_api)
  : list setup_console * result str :=
  match api_configure api with
  | Some e => ([], Raised e)
  | None =>
      match get_available_models api with
      | (out, Raised e) => (out, Raised e)
      | (out, Ok available) =>
          let '(out', model_name) := pick_model available in
          let out := out ++ out' ++ [UsingModel model_name] in
          match api_GenerativeModel api model_name with
          | Some e => (out, Raised e)
          | None => (out, Ok model_name)
          end
      end
  end.

(** [setup_gemini]: what it prints, and the two fields it leaves in the
    object, the name that [self.model] was built with (if it was) and
    [self.gemini_available]. *)
Definition setup_gemini (api : genai_api)
  : list setup_console * result (option str * bool) :=
  match setup_gemini_try api with
  | (out, Ok model_name) => (out, Ok (Some model_name, true))
  | (out, Raised e) =>
      if is_Exception e then (out ++ [SetupFailed e], Ok (None, false))
      else (out, Raised e)
  end.

(* ================================================================= *)
(** ** [get_input_with_timeout] *)

(** [x < n] for a [float] [x] and an [int] [n]: Python compares the two
    values exactly. *)
Definition float_lt_int (x : spec_float) (n : Z) : bool :=
  match x with
  | S754_nan => false
  | S754_infinity s => s
  | _ => negb (Qle_bool (inject_Z n) (float_val x))
  end.

(** The terminal, as [get_input_with_timeout] meets it: the successive
    values of [time.time()]; whether a line is waiting at the successive
    tests ([msvcrt.kbhit()] on Windows, [select.select] elsewhere), or what
    the test raises; what [input()] returns or raises; what the successive
    calls of [time.sleep(0.1)] raise, if they do. *)
Record terminal := {
  clock : nat -> spec_float;
  key_ready : nat -> result bool;
  input_line : result str;
  sleep_raises : nat -> option exn
}.

(** The [print] calls of [get_input_with_timeout]. *)
Inductive prompt_console :=
| Prompt (prompt : str)
| YouHave (timeout : Z) (default : str)
| TypeOrWait
| UsingDefault (default : str).

(** The [while] loop, from its test number [k]: the value of
    [user_input] when it ends, or what leaves it.  The recursion is on a
    bound [fuel] of the number of tests, and [None] says that the bound
    was reached. *)
Fixpoint wait_for_line (t : terminal) (start_time : spec_float) (timeout : Z)
  (fuel k : nat) : option (result str) :=
  match fuel with
  | O => None
  | S fuel' =>
      if float_lt_int (SFsub prec emax (clock t (S k)) start_time) timeout
      then
        match key_ready t k with
        | Raised e => Some (Raised e)
        | Ok true => Some (input_line t)          (* user_input = input(); break *)
        | Ok false =>
            match sleep_raises t k with
            | Some e => Some (Raised e)
            | None => wait_for_line t start_time timeout fuel' (S k)
            end
        end
      else Some (Ok [])
  end.

(** [get_input_with_timeout], for an [int] [timeout] as its default is:
    what it prints and what it returns, when the loop ends within
    [fuel] tests. *)
Definition get_input_with_timeout (t : terminal) (prompt : str) (timeout : Z)
  (default : str) (fuel : nat) : option (list prompt_console * str) :=
  let start_time := clock t 0 in
  match wait_for_line t start_time timeout fuel 0 with
  | None => None
  | Some r =>
      (* except: pass *)
      let user_input := match r with Ok line => line | Raised _ => [] end in
      let out := [Prompt prompt; YouHave timeout default; TypeOrWait] in
      if is_empty user_input
      then Some (out ++ [UsingDefault default], default)
      else Some (out, strip user_input)
  end.

(** A terminal whose clock advances by one second at each reading, with
    a line waiting from the test number [ready_at] on. *)
Definition ticking_terminal (ready_at : nat) (typed_line : result str)
  : terminal :=
  {| clock := fun k => float_of_int (Z.of_nat k);
     key_ready := fun k => Ok (ready_at <=? k)%nat;
     input_line := typed_line;
     sleep_raises := fun _ => None |}.

(** A terminal on which the test for a waiting line raises. *)
Definition broken_terminal (e : exn) : terminal :=
  {| clock := fun k => float_of_int (Z.of_nat k);
     key_ready := fun _ => Raised e;
     input_line := Ok [];
     sleep_raises := fun _ => None |}.

(* ================================================================= *)
(** ** The command line of the transcoder, read back *)

(** The text of a string of code points. *)
Fixpoint to_string (s : str) : string :=
  match s with
  | [] => EmptyString
  | c :: s' => String (ascii_of_N c) (to_string s')
  end.

(** The integer that a decimal notation stands for, the notation of
    [str] among them. *)
Definition int_of_str (s : str) : option Z :=
  option_map Z.of_int (NilZero.int_of_string (to_string s)).

(** The value that a command line gives to an option: the argument
    after the first occurrence of [flag]. *)
Fixpoint option_value (flag : str) (argv : list str) : option str :=
  match argv with
  | [] => None
  | a :: rest =>
      if str_eqb a flag then hd_error rest else option_value flag rest
  end.

(** The start offset ([-ss]) and the duration ([-t]) that a transcoder
    command asks for, in seconds. *)
Definition start_offset (command : list str) : option Z :=
  match option_value (u "-ss") command with
  | Some v => int_of_str v
  | None => None
  end.

Definition requested_duration (command : list str) : option Z :=
  match option_value (u "-t") command with
  | Some v => int_of_str v
  | None => None
  end.

(* ================================================================= *)
(** * Properties *)

(* ================================================================= *)
(** ** Strings *)

Section StripFacts.

Variable p : char -> bool.

Lemma lstrip_by_suffix (s : str) :
  exists w, s = w ++ lstrip_by p s /\ forallb p w = true.
Proof.
  induction s as [|c s IH]; simpl.
  - exists []. split; reflexivity.
  - destruct (p c) eqn:E.
    + destruct IH as [w [Hw Hp]]. exists (c :: w). simpl.
      rewrite E, Hp. split; [congruence | reflexivity].
    + exists []. split; reflexivity.
Qed.

Lemma lstrip_by_head (s : str) (c : char) (r : str) :
  lstrip_by p s = c :: r -> p c = false.
Proof.
  induction s as [|a s IH]; simpl; [discriminate|].
  destruct (p a) eqn:E; [exact IH|].
  intros H. injection H as -> _. exact E.
Qed.

Lemma lstrip_by_app_kept (s t : str) (c : char) (r : str) :
  lstrip_by p s = c :: r -> lstrip_by p (s ++ t) = (c :: r) ++ t.
Proof.
  induction s as [|a s IH]; simpl; [discriminate|].
  destruct (p a) eqn:E; [exact IH|].
  intros H. injection H as -> <-. reflexivity.
Qed.

Lemma lstrip_by_all (w s : str) :
  forallb p w = true -> lstrip_by p (w ++ s) = lstrip_by p s.
Proof.
  induction w as [|a w IH]; simpl; [reflexivity|].
  intros H. apply andb_prop in H as [Ha Hw]. rewrite Ha. auto.
Qed.

Lemma rstrip_by_prefix (s : str) :
  exists w, s = rstrip_by p s ++ w /\ forallb p w = true.
Proof.
  unfold rstrip_by.
  destruct (lstrip_by_suffix (rev s)) as [w [Hw Hp]].
  exists (rev w). split.
  - rewrite <- (rev_involutive s) at 1. rewrite Hw at 1.
    now rewrite rev_app_distr.
  - rewrite forallb_forall in *. intros x Hx. apply Hp.
    now apply in_rev.
Qed.

Lemma rstrip_by_last (s r : str) (c : char) :
  rstrip_by p s = r ++ [c] -> p c = false.
Proof.
  unfold rstrip_by. intros H.
  apply (f_equal (@rev char)) in H.
  rewrite rev_involutive, rev_app_distr in H. simpl in H.
  exact (lstrip_by_head _ H).
Qed.

Lemma rstrip_by_all (s w : str) :
  forallb p w = true -> rstrip_by p (s ++ w) = rstrip_by p s.
Proof.
  intros H. unfold rstrip_by. rewrite rev_app_distr.
  rewrite lstrip_by_all; [reflexivity|].
  rewrite forallb_forall in *. intros x Hx. apply H. now apply in_rev.
Qed.

(** Stripping the right end leaves a first character that the left
    strip has kept. *)
Lemma rstrip_by_head (s : str) (c : char) (r : str) :
  rstrip_by p s = c :: r -> exists r', s = c :: r'.
Proof.
  intros H. destruct (rstrip_by_prefix s) as [w [Hw _]].
  rewrite H in Hw. simpl in Hw. eauto.
Qed.

Lemma strip_by_decompose (s : str) :
  exists w1 w2, s = w1 ++ strip_by p s ++ w2
                /\ forallb p w1 = true /\ forallb p w2 = true.
Proof.
  unfold strip_by.
  destruct (lstrip_by_suffix s) as [w1 [H1 P1]].
  destruct (rstrip_by_prefix (lstrip_by p s)) as [w2 [H2 P2]].
  exists w1, w2. repeat split; try assumption.
  rewrite <- H2. exact H1.
Qed.

Lemma strip_by_head (s : str) (c : char) (r : str) :
  strip_by p s = c :: r -> p c = false.
Proof.
  unfold strip_by. intros H.
  destruct (rstrip_by_head _ H) as [r' Hr'].
  exact (lstrip_by_head _ Hr').
Qed.

Lemma strip_by_last (s r : str) (c : char) :
  strip_by p s = r ++ [c] -> p c = false.
Proof. unfold strip_by. apply rstrip_by_last. Qed.

Lemma strip_by_incl (s : str) (x : char) :
  In x (strip_by p s) -> In x s.
Proof.
  destruct (strip_by_decompose s) as [w1 [w2 [H _]]].
  intros Hx. rewrite H. apply in_or_app. right. apply in_or_app. now left.
Qed.

Lemma strip_by_length (s : str) :
  (List.length (strip_by p s) <= List.length s)%nat.
Proof.
  destruct (strip_by_decompose s) as [w1 [w2 [H _]]].
  rewrite H at 2. rewrite !length_app. lia.
Qed.

(** Stripping is insensitive to what it would strip anyway. *)
Lemma strip_by_pad (w1 s w2 : str) :
  forallb p w1 = true -> forallb p w2 = true ->
  strip_by p (w1 ++ s ++ w2) = strip_by p s.
Proof.
  intros H1 H2. unfold strip_by. rewrite lstrip_by_all by assumption.
  destruct (lstrip_by p s) as [|c r] eqn:E.
  - (* all of s is stripped: so is all of s ++ w2 *)
    destruct (lstrip_by_suffix s) as [w [Hw Pw]]. rewrite E, app_nil_r in Hw.
    subst w. rewrite <- (app_nil_r (s ++ w2)).
    rewrite lstrip_by_all; [reflexivity|].
    rewrite forallb_app, Pw, H2. reflexivity.
  - rewrite (lstrip_by_app_kept _ w2 E). now apply rstrip_by_all.
Qed.

End StripFacts.

(* ================================================================= *)
(** ** [sanitize_filename] *)

Lemma replace_char_nil_in (c x : char) (s : str) :
  In x (replace_char c [] s) <-> In x s /\ x <> c.
Proof.
  unfold replace_char, char_eqb. rewrite in_flat_map. split.
  - intros [y [Hy Hx]]. destruct (N.eqb_spec y c) as [->|Hne].
    + destruct Hx.
    + destruct Hx as [<-|[]]. split; assumption.
  - intros [Hx Hne]. exists x. split; [assumption|].
    destruct (N.eqb_spec x c); [contradiction | now left].
Qed.

Lemma replace_char_nil_length (c : char) (s : str) :
  (List.length (replace_char c [] s) <= List.length s)%nat.
Proof.
  induction s as [|a s IH]; simpl; [lia|].
  destruct (char_eqb a c); simpl; lia.
Qed.

Lemma firstn_incl (n : nat) (s : str) (x : char) :
  In x (firstn n s) -> In x s.
Proof.
  intros H. rewrite <- (firstn_skipn n s). apply in_or_app. now left.
Qed.

Lemma remove_all_in (cs : str) (x : char) (name : str) :
  In x (fold_left (fun name ch => replace_char ch [] name) cs name)
  <-> In x name /\ ~ In x cs.
Proof.
  revert name. induction cs as [|c cs IH]; intros name; simpl.
  - tauto.
  - rewrite IH, replace_char_nil_in. intuition congruence.
Qed.

(** Every occurrence of each of the nine characters is removed. *)
Lemma sanitize_filename_no_invalid (name : str) (c : char) :
  In c invalid_chars -> ~ In c (sanitize_filename name).
Proof.
  intros Hc Hin. unfold sanitize_filename, strip_chars, strip in Hin.
  apply strip_by_incl, strip_by_incl in Hin.
  assert (In c (fold_left (fun name ch => replace_char ch [] name)
                  invalid_chars name)) as H.
  { destruct (100 <? _)%nat in Hin; [now apply firstn_incl in Hin | assumption]. }
  apply remove_all_in in H. tauto.
Qed.

(** The result has at most 100 characters. *)
Lemma sanitize_filename_length (name : str) :
  (List.length (sanitize_filename name) <= 100)%nat.
Proof.
  unfold sanitize_filename, strip_chars, strip.
  eapply Nat.le_trans; [apply strip_by_length|].
  eapply Nat.le_trans; [apply strip_by_length|].
  destruct (Nat.ltb_spec 100
    (List.length (fold_left (fun name ch => replace_char ch [] name)
                    invalid_chars name))) as [H|H].
  - rewrite length_firstn. lia.
  - exact H.
Qed.

(** The result neither starts nor ends with a dot. *)
Lemma sanitize_filename_no_dot_ends (name : str) :
  (forall r, sanitize_filename name <> 46%N :: r)
  /\ (forall r, sanitize_filename name <> r ++ [46%N]).
Proof.
  unfold sanitize_filename, strip_chars. split; intros r H.
  - apply strip_by_head in H. discriminate.
  - apply strip_by_last in H. discriminate.
Qed.

Example sanitize_ABC : sanitize_filename (u "A:B*C") = u "ABC".
Proof. reflexivity. Qed.

(** C2 (code at the failing input).  [sanitize_filename] strips white
    space first and dots second, so a space that a stripped dot uncovers
    stays: on the input [". a"] the result is [" a"], which starts with
    a space.  The same happens at the right end. *)
Theorem sanitize_filename_leaves_space :
  sanitize_filename (u ". a") = u " a"
  /\ hd_error (sanitize_filename (u ". a")) = Some 32%N
  /\ sanitize_filename (u "a .") = u "a ".
Proof. repeat split; reflexivity. Qed.

(* ================================================================= *)
(** ** The tag list of a response *)

Lemma split_char_cons (sep : char) (s : str) :
  exists w ws, split_char sep s = w :: ws.
Proof.
  destruct s as [|c s]; simpl; [eauto|].
  destruct (char_eqb c sep); [eauto|].
  destruct (split_char sep s); eauto.
Qed.

(** A prefix without separator joins the first field. *)
Lemma split_char_app_l (sep : char) (a s : str) :
  ~ In sep a ->
  exists w ws, split_char sep s = w :: ws
               /\ split_char sep (a ++ s) = (a ++ w) :: ws.
Proof.
  intros Ha. induction a as [|c a IH]; simpl.
  - destruct (split_char_cons sep s) as [w [ws E]]. eauto.
  - destruct IH as [w [ws [E1 E2]]]; [intros H; apply Ha; now right|].
    unfold char_eqb at 1. destruct (N.eqb_spec c sep) as [->|Hne].
    + exfalso. apply Ha. now left.
    + rewrite E2. eauto.
Qed.

(** A suffix without separator joins the last field. *)
Lemma split_char_app_r (sep : char) (s b : str) :
  ~ In sep b ->
  exists init lst, split_char sep s = init ++ [lst]
                   /\ split_char sep (s ++ b) = init ++ [lst ++ b].
Proof.
  intros Hb. induction s as [|c s IH].
  - exists [], []. split; [reflexivity|]. simpl.
    destruct (@split_char_app_l sep b [] Hb) as [w [ws [E1 E2]]].
    simpl in E1. injection E1 as <- <-.
    rewrite !app_nil_r in E2. exact E2.
  - destruct IH as [init [lst [E1 E2]]]. simpl.
    destruct (char_eqb c sep).
    + exists ([] :: init), lst. rewrite E1, E2. split; reflexivity.
    + rewrite E1, E2. destruct init as [|i init]; simpl.
      * exists [], (c :: lst). split; reflexivity.
      * exists ((c :: i) :: init), lst. split; reflexivity.
Qed.

Lemma isspace_no_comma (w : str) :
  forallb isspace w = true -> ~ In 44%N w.
Proof.
  intros H Hin. rewrite forallb_forall in H. apply H in Hin. discriminate.
Qed.

Lemma replace_char_app (c : char) (new a b : str) :
  replace_char c new (a ++ b) = replace_char c new a ++ replace_char c new b.
Proof. unfold replace_char. apply flat_map_app. Qed.

Lemma replace_char_nil_forallb (c : char) (p : char -> bool) (w : str) :
  forallb p w = true -> forallb p (replace_char c [] w) = true.
Proof.
  intros H. rewrite forallb_forall in *. intros x Hx.
  apply replace_char_nil_in in Hx. apply H, Hx.
Qed.

(** Trimming the fields forgets white space around the whole text. *)
Lemma map_strip_split_pad (w1 s w2 : str) :
  forallb isspace w1 = true -> forallb isspace w2 = true ->
  map strip (split_char 44%N (w1 ++ s ++ w2))
  = map strip (split_char 44%N s).
Proof.
  intros H1 H2.
  destruct (@split_char_app_r 44%N s w2 (isspace_no_comma _ H2))
    as [init [lst [E1 E2]]].
  destruct (@split_char_app_l 44%N w1 (s ++ w2) (isspace_no_comma _ H1))
    as [w [ws [E3 E4]]].
  rewrite E4, E1. rewrite E2 in E3. simpl.
  destruct init as [|i init]; simpl in *.
  - injection E3 as <- <-. simpl. f_equal.
    unfold strip. now apply strip_by_pad.
  - injection E3 as <- <-. rewrite !map_app. simpl. f_equal.
    + unfold strip. rewrite <- (app_nil_r i) at 1.
      now apply (strip_by_pad isspace w1 i []).
    + f_equal. f_equal. unfold strip.
      now apply (strip_by_pad isspace [] lst w2).
Qed.

Lemma filter_map_comm {A B} (f : A -> B) (q : B -> bool) (l : list A) :
  map f (filter (fun x => q (f x)) l) = filter q (map f l).
Proof.
  induction l as [|x l IH]; simpl; [reflexivity|].
  destruct (q (f x)); simpl; congruence.
Qed.

Lemma map_strip_split_outer_strip (r : str) :
  map strip (split_char 44%N (replace_char 10%N [] (strip r)))
  = map strip (split_char 44%N (replace_char 10%N [] r)).
Proof.
  destruct (strip_by_decompose isspace r) as [w1 [w2 [H [P1 P2]]]].
  fold (strip r) in H. remember (strip r) as t eqn:Et.
  rewrite H, !replace_char_app. symmetry.
  apply map_strip_split_pad; now apply replace_char_nil_forallb.
Qed.

(** C9 (counterexample).  A newline inside an entry is removed by the
    code and kept by the procedure the specification words: on the
    response [a], newline, [b] the code yields the one tag [ab]. *)
Lemma response_tags_differs_from_spec :
  response_tags (u "a" ++ [10%N] ++ u "b") = [u "ab"]
  /\ spec_parse_tags (u "a" ++ [10%N] ++ u "b") = [u "a" ++ [10%N] ++ u "b"]
  /\ response_tags (u "a" ++ [10%N] ++ u "b")
     <> spec_parse_tags (u "a" ++ [10%N] ++ u "b").
Proof. repeat split; try reflexivity. discriminate. Qed.

(** C9 (as amended).  The pasted tag list is the list the specification
    describes (split on commas, trim every entry, drop the empty entries),
    taken of the response with its newline characters removed; and when
    that list is empty, a fixed list of six tags stands in for it. *)
Theorem response_tags_spec (r : str) :
  response_tags r =
  match spec_parse_tags (replace_char 10%N [] r) with
  | [] => [u "#gif"; u "#animation"; u "#fun"; u "#trending"; u "#viral"; u "#meme"]
  | tags => tags
  end.
Proof.
  unfold response_tags, spec_parse_tags.
  rewrite (filter_map_comm strip (fun t => negb (is_empty t))).
  rewrite map_strip_split_outer_strip.
  now destruct (filter _ _).
Qed.

Example response_tags_example :
  response_tags (u " #cat, #dog ,,  #funny cat " ++ [10%N])
  = [u "#cat"; u "#dog"; u "#funny cat"].
Proof. reflexivity. Qed.

(* ================================================================= *)
(** ** Runs of the conversion stage *)

Lemma extend_nil (s : state) : extend s [] = s.
Proof. destruct s. unfold extend. simpl. now rewrite app_nil_r. Qed.

Lemma extend_extend (s : state) (a b : list event) :
  extend (extend s a) b = extend s (a ++ b).
Proof. unfold extend. simpl. now rewrite app_assoc. Qed.

Lemma emit_run (ev : event) (s : state) :
  emit ev s = (extend s [ev], Ok tt).
Proof. reflexivity. Qed.

Lemma bind_ok {A B} (c : M A) (k : A -> M B) (s s' : state) (a : A) :
  c s = (s', Ok a) -> bind c k s = k a s'.
Proof. unfold bind. now intros ->. Qed.

Lemma bind_raised {A B} (c : M A) (k : A -> M B) (s s' : state) (e : exn) :
  c s = (s', Raised e) -> bind c k s = (s', Raised e).
Proof. unfold bind. now intros ->. Qed.

Lemma for_each_emit {A} (body : A -> M unit) (evs : A -> list event)
  (l : list A) :
  (forall x s, body x s = (extend s (evs x), Ok tt)) ->
  forall s, for_each l body s = (extend s (flat_map evs l), Ok tt).
Proof.
  intros Hb. induction l as [|x l IH]; intros s; simpl.
  - unfold ret. now rewrite extend_nil.
  - rewrite (bind_ok _ _ _ (Hb x s)), IH, extend_extend. reflexivity.
Qed.

Lemma ensure_dir_run (w : world) (output_dir : str) (s : state) :
  (if negb (path_exists w output_dir)
   then emit (Makedirs output_dir) ;; print (CreatedDir output_dir)
   else print (UsingDir output_dir)) s
  = (extend s (ensure_dir_events w output_dir), Ok tt).
Proof.
  unfold ensure_dir_events.
  destruct (negb _); unfold bind, print, emit, extend; simpl;
    rewrite <- ?app_assoc; reflexivity.
Qed.

(** What a call of [video_to_gifs] does, case by case. *)
Lemma video_to_gifs_run (w : world) (video_path output_dir : str)
  (clip_length fps : Z) (s : state) :
  video_to_gifs w video_path output_dir clip_length fps s =
  let pre := ensure_dir_events w output_dir
             ++ [Probe (ffprobe_command video_path)] in
  match py_float w (strip (ffprobe_stdout w video_path)) with
  | None => (extend s (pre ++ [Console CouldNotReadDuration]), Ok tt)
  | Some duration =>
      match num_clips duration clip_length with
      | Ok n =>
          (extend s (pre ++ [Console (VideoLength duration);
                             Console (Creating n clip_length)]
                         ++ flat_map (clip_events w video_path output_dir
                                        clip_length fps) (py_range n)),
           Ok tt)
      | Raised e =>
          (extend s (pre ++ [Console (VideoLength duration)]), Raised e)
      end
  end.
Proof.
  unfold video_to_gifs.
  rewrite (bind_ok _ _ _ (ensure_dir_run w output_dir s)).
  rewrite (bind_ok _ _ _ (emit_run _ _)), extend_extend.
  cbv zeta.
  destruct (py_float w _) as [duration|].
  - unfold print at 1. rewrite (bind_ok _ _ _ (emit_run _ _)), extend_extend.
    destruct (num_clips duration clip_length) as [n|e]; simpl lift.
    + unfold ret at 1. unfold bind at 1.
      unfold print at 1. rewrite (bind_ok _ _ _ (emit_run _ _)), extend_extend.
      rewrite (for_each_emit _
                 (clip_events w video_path output_dir clip_length fps)).
      * rewrite extend_extend, <- !app_assoc. reflexivity.
      * intros i s0. unfold clip_events, bind, print, emit, extend; simpl.
        rewrite <- app_assoc. reflexivity.
    + unfold raise, bind. rewrite <- app_assoc. reflexivity.
  - unfold print. rewrite emit_run, extend_extend. reflexivity.
Qed.

Lemma transcodes_app (a b : list event) :
  transcodes (a ++ b) = transcodes a ++ transcodes b.
Proof. unfold transcodes. apply flat_map_app. Qed.

Lemma transcodes_ensure_dir (w : world) (output_dir : str) :
  transcodes (ensure_dir_events w output_dir) = [].
Proof. unfold ensure_dir_events. now destruct (negb _). Qed.

Lemma transcodes_clips (w : world) (video_path output_dir : str)
  (clip_length fps : Z) (l : list Z) :
  transcodes (flat_map (clip_events w video_path output_dir clip_length fps) l)
  = map (fun i =>
           ffmpeg_command (i * clip_length) clip_length video_path fps
             (os_path_join w output_dir
                (u "output_" ++ str_of_int (i + 1) ++ u ".gif"))) l.
Proof.
  induction l as [|i l IH]; [reflexivity|].
  cbn [flat_map map]. rewrite transcodes_app, IH. reflexivity.
Qed.

Example decimal_float_examples :
  decimal_float (u "abc") = None
  /\ decimal_float (u "10.000000")
     = Some (S754_finite false 5629499534213120 (-49))
  /\ decimal_float (u "0.0") = Some (S754_zero false)
  /\ decimal_float (u "-5")
     = Some (S754_finite true 5629499534213120 (-50))
  /\ decimal_float (u "0.1")
     = Some (S754_finite false 7205759403792794 (-56)).
Proof. repeat split; vm_compute; reflexivity. Qed.

Example num_clips_10_3 :
  num_clips (S754_finite false 5629499534213120 (-49)) 3 = Ok 4.
Proof. vm_compute. reflexivity. Qed.

Lemma py_range_spec (n : Z) :
  py_range n = map Z.of_nat (seq 0 (Z.to_nat n)).
Proof.
  unfold py_range, py_range3. simpl (0 <? 1).
  replace ((n - 0 + 1 - 1) / 1) with n by (rewrite Z.div_1_r; lia).
  apply map_ext. intros k. lia.
Qed.

Lemma py_range_nonpos (n : Z) : n <= 0 -> py_range n = [].
Proof.
  intros H. rewrite py_range_spec.
  replace (Z.to_nat n) with 0%nat by lia. reflexivity.
Qed.

Lemma py_range_in (n i : Z) : In i (py_range n) <-> 0 <= i < n.
Proof.
  rewrite py_range_spec, in_map_iff. split.
  - intros [k [<- Hk]]. apply in_seq in Hk. lia.
  - intros H. exists (Z.to_nat i). split; [lia|]. apply in_seq. lia.
Qed.

(** Two clips of the same length at different multiples of it share no
    instant. *)
Lemma clip_intervals_disjoint (L i j : Z) (x : Q) :
  i <> j ->
  ~ ((inject_Z (i * L) <= x /\ x < inject_Z (i * L + L))
     /\ (inject_Z (j * L) <= x /\ x < inject_Z (j * L + L)))%Q.
Proof.
  intros Hij [[Hi1 Hi2] [Hj1 Hj2]].
  pose proof (Qle_lt_trans _ _ _ Hi1 Hj2) as A.
  pose proof (Qle_lt_trans _ _ _ Hj1 Hi2) as B.
  pose proof (Qle_lt_trans _ _ _ Hi1 Hi2) as C.
  rewrite <- Zlt_Qlt in A, B, C. nia.
Qed.

(** C6.  When the output of the probe does not read as a float, the
    segmenter logs the error and returns; no transcoder invocation is
    on the trace of the call. *)
Theorem video_to_gifs_unparsable (w : world) (video_path output_dir : str)
  (clip_length fps : Z) (s : state) :
  py_float w (strip (ffprobe_stdout w video_path)) = None ->
  exists t,
    video_to_gifs w video_path output_dir clip_length fps s
    = (extend s (t ++ [Console CouldNotReadDuration]), Ok tt)
    /\ transcodes (t ++ [Console CouldNotReadDuration]) = [].
Proof.
  intros H. rewrite video_to_gifs_run, H. cbv zeta.
  eexists. split; [reflexivity|].
  rewrite !transcodes_app, transcodes_ensure_dir. reflexivity.
Qed.

Lemma video_to_gifs_unparsable_witness :
  let w := quiet_world (u "abc") in
  py_float w (strip (ffprobe_stdout w (u "v.mp4"))) = None
  /\ exists t,
       video_to_gifs w (u "v.mp4") (u "out") 3 15 init
       = (extend init (t ++ [Console CouldNotReadDuration]), Ok tt)
       /\ transcodes (t ++ [Console CouldNotReadDuration]) = [].
Proof.
  split; [reflexivity|].
  apply (@video_to_gifs_unparsable (quiet_world (u "abc"))). reflexivity.
Defined.

(* ================================================================= *)
(** ** The main program *)

Lemma bind_emit {B} (ev : event) (k : unit -> M B) (s : state) :
  bind (emit ev) k s = k tt (extend s [ev]).
Proof. reflexivity. Qed.

Lemma bind_print {B} (m : console) (k : unit -> M B) (s : state) :
  bind (print m) k s = k tt (extend s [Console m]).
Proof. reflexivity. Qed.

Lemma download_run (w : world) (url : str) (s : state) :
  download_video_from_url w url s
  = (extend s (download_events w url), Ok (download_returns w url)).
Proof.
  unfold download_video_from_url, download_events, download_returns.
  destruct (negb (path_exists w download_dir));
    destruct (ydl w url) as [f title|msg|msg];
    unfold bind, print, emit, ret, extend; cbn [trace tick app];
    rewrite <- ?app_assoc; reflexivity.
Qed.

Lemma str_eqb_refl (a : str) : str_eqb a a = true.
Proof. unfold str_eqb. now destruct (list_eq_dec N.eq_dec a a). Qed.

Lemma download_events_no_segmenter (w : world) (url : str) :
  existsb segmenter_event (download_events w url) = false.
Proof.
  unfold download_events. rewrite !existsb_app.
  destruct (negb (path_exists w download_dir)); cbn [existsb segmenter_event];
    rewrite ?str_eqb_refl; now destruct (ydl w url).
Qed.

(** C7.  When the download stage fails, the run ends by [exit()] and no
    event of the segmenter is on its trace: no directory other than the
    download directory is created, nothing is probed or transcoded. *)
Theorem main_download_failure (w : world) :
  download_fails w (strip (stdin_line w)) = true ->
  exists t,
    main w init = (extend init t, Raised (Exn SystemExit []))
    /\ existsb segmenter_event t = false.
Proof.
  unfold download_fails, main. intros H.
  rewrite !bind_print, bind_emit. cbv zeta.
  destruct (is_empty (strip (stdin_line w))).
  - rewrite bind_print. unfold exit, raise.
    rewrite !extend_extend. eexists. split; [reflexivity|]. reflexivity.
  - rewrite (bind_ok _ _ _ (download_run w _ _)). unfold download_returns.
    assert (forall s0, (print DownloadFailedExiting ;; @exit unit) s0
                       = (extend s0 [Console DownloadFailedExiting],
                          Raised (Exn SystemExit []))) as Hexit
      by reflexivity.
    assert (existsb segmenter_event
              ([Console Banner] ++ [Console Rule]
               ++ [Input (u "Paste the video URL and press Enter: ")]
               ++ download_events w (strip (stdin_line w))
               ++ [Console DownloadFailedExiting]) = false) as Hno.
    { rewrite !existsb_app, download_events_no_segmenter. reflexivity. }
    destruct (ydl w (strip (stdin_line w))) as [f title|msg|msg].
    + rewrite H, Hexit, !extend_extend.
      eexists. split; [reflexivity|]. exact Hno.
    + rewrite Hexit, !extend_extend.
      eexists. split; [reflexivity|]. exact Hno.
    + rewrite Hexit, !extend_extend.
      eexists. split; [reflexivity|]. exact Hno.
Qed.

Lemma main_download_failure_witness :
  download_fails (quiet_world (u "10")) (strip (stdin_line (quiet_world (u "10"))))
  = true
  /\ exists t,
       main (quiet_world (u "10")) init
       = (extend init t, Raised (Exn SystemExit []))
       /\ existsb segmenter_event t = false.
Proof.
  split; [reflexivity|].
  apply (@main_download_failure (quiet_world (u "10"))). reflexivity.
Defined.

(** C4.  The directory that the main program hands to the segmenter and
    the directory that [start_process] types into the file dialog, computed
    there anew from the title stored in the object, are the same path. *)
Theorem gif_directory_agrees (w : world) (title : str) (auto : bool) :
  gif_directory w (GiphyUploader_init w title auto) = final_output_dir w title.
Proof.
  unfold gif_directory, final_output_dir, GiphyUploader_init.
  cbn [video_title]. reflexivity.
Qed.

(* ================================================================= *)
(** ** Runs of the automation *)

Section Scripts.

Variable w : world.

Lemma bind_assoc {A B C} (c : M A) (k : A -> M B) (k' : B -> M C) (s : state) :
  bind (bind c k) k' s = bind c (fun a => bind (k a) k') s.
Proof. unfold bind. destruct (c s) as [s' [a|e]]; reflexivity. Qed.

Lemma bind_ret_r (c : M unit) (s : state) :
  bind c (fun _ => ret tt) s = c s.
Proof. unfold bind, ret. destruct (c s) as [s' [[]|e]]; reflexivity. Qed.

Lemma bind_congr {A B} (c c' : M A) (k k' : A -> M B) :
  (forall s, c s = c' s) -> (forall a s, k a s = k' a s) ->
  forall s, bind c k s = bind c' k' s.
Proof.
  intros Hc Hk s. unfold bind. rewrite Hc.
  destruct (c' s) as [s' [a|e]]; [apply Hk | reflexivity].
Qed.

Lemma try_except_congr {A} (c c' : M A) (h h' : exn -> M A) :
  (forall s, c s = c' s) -> (forall e s, h e s = h' e s) ->
  forall s, try_except c h s = try_except c' h' s.
Proof.
  intros Hc Hh s. unfold try_except. rewrite Hc.
  destruct (c' s) as [s' [a|e]]; [reflexivity|].
  destruct (is_Exception e); [apply Hh | reflexivity].
Qed.

Lemma script_bind_app {B} (a b : list event) (k : unit -> M B) (s : state) :
  bind (script w (a ++ b)) k s
  = bind (script w a) (fun _ => bind (script w b) k) s.
Proof.
  revert s. induction a as [|ev a IH]; intros s.
  - reflexivity.
  - cbn [app script for_each]. rewrite !bind_assoc.
    apply bind_congr; [reflexivity|]. intros _ s'. apply IH.
Qed.

Lemma script_app (a b : list event) (s : state) :
  script w (a ++ b) s = bind (script w a) (fun _ => script w b) s.
Proof.
  rewrite <- (bind_ret_r (script w (a ++ b))), script_bind_app.
  apply bind_congr; [reflexivity|]. intros _ s'. apply bind_ret_r.
Qed.

Lemma perform_script (ev : event) (s : state) :
  perform w ev s = script w [ev] s.
Proof. cbn [script for_each]. now rewrite bind_ret_r. Qed.

Lemma click_script (x y : Z) (d : str) (s : state) :
  click_at_position w x y d s = script w (click_events x y d) s.
Proof.
  unfold click_at_position, click_events, update_status.
  cbn [script for_each].
  apply bind_congr; [reflexivity|]. intros _ s1.
  apply bind_congr; [reflexivity|]. intros _ s2.
  now rewrite bind_ret_r.
Qed.

Lemma paste_script (tag : str) (s : state) :
  paste_tag w tag s = script w (paste_events tag) s.
Proof.
  unfold paste_tag, paste_events. cbn [script for_each].
  repeat (apply bind_congr; [reflexivity|]; intros _ ?s).
  now rewrite bind_ret_r.
Qed.

Lemma for_each_script {A} (body : A -> M unit) (evs : A -> list event)
  (l : list A) :
  (forall x s, body x s = script w (evs x) s) ->
  forall s, for_each l body s = script w (flat_map evs l) s.
Proof.
  intros Hb. induction l as [|x l IH]; intros s; [reflexivity|].
  cbn [for_each flat_map]. rewrite script_app.
  apply bind_congr; [apply Hb | intros _; apply IH].
Qed.

End Scripts.

Section UploaderRuns.

Variable w : world.

Lemma script_bind_cons {B} (ev : event) (l : list event) (k : unit -> M B)
  (s : state) :
  bind (script w (ev :: l)) k s
  = bind (perform w ev) (fun _ => bind (script w l) k) s.
Proof. cbn [script for_each]. apply bind_assoc. Qed.

Lemma script_bind_nil {B} (k : unit -> M B) (s : state) :
  bind (script w []) k s = k tt s.
Proof. reflexivity. Qed.

Lemma for_each_paste (tags : list str) (s : state) :
  for_each tags (paste_tag w) s = script w (flat_map paste_events tags) s.
Proof. apply for_each_script. intros. apply paste_script. Qed.

(** [generate_and_paste_tags] is a script, or a [try] statement of two. *)
Lemma generate_and_paste_tags_script (self : GiphyUploader) (topic : str)
  (s : state) :
  generate_and_paste_tags w self topic s =
  if gemini_available self
  then try_except (script w (tags_try_events w topic))
         (fun e => script w (tags_except_events e)) s
  else script w tags_unavailable_events s.
Proof.
  unfold generate_and_paste_tags.
  destruct (gemini_available self); cbn [negb].
  - apply try_except_congr.
    + intros s0. unfold tags_try_events, update_status. cbv zeta.
      rewrite script_app.
      do 4 (rewrite script_bind_cons;
            apply bind_congr; [reflexivity|]; intros _ ?s).
      rewrite script_bind_nil, script_app.
      apply bind_congr; [apply for_each_paste|].
      intros _ s5. apply perform_script.
    + intros e s0. unfold tags_except_events, update_status. cbv zeta.
      rewrite script_app.
      do 2 (rewrite script_bind_cons;
            apply bind_congr; [reflexivity|]; intros _ ?s).
      rewrite script_bind_nil. apply for_each_paste.
  - unfold tags_unavailable_events, update_status. cbv zeta.
    rewrite script_app, script_bind_cons.
    apply bind_congr; [reflexivity|]; intros _ ?s.
    rewrite script_bind_nil. apply for_each_paste.
Qed.

(** [start_process]: a first status update, then a [try] statement around
    the steps before the tags, the tags and the steps after them. *)
Lemma start_process_script (self : GiphyUploader) (s : state) :
  start_process w self s =
  bind (perform w (StatusSet (u "Starting GIPHY upload process...")))
    (fun _ =>
       try_except
         (bind (script w (steps_before_tags w self)) (fun _ =>
          bind (generate_and_paste_tags w self (video_title self)) (fun _ =>
          script w steps_after_tags)))
         (fun e => perform w (StatusSet (report e)))) s.
Proof.
  unfold start_process, update_status.
  apply bind_congr; [reflexivity|]. intros _ s0.
  apply try_except_congr.
  - intros s1. unfold steps_before_tags. cbv zeta.
    repeat first
      [ rewrite script_bind_app
      | apply bind_congr; [intros ?s; apply click_script | intros _ ?s]
      | apply bind_congr;
        [intros ?s; apply for_each_script; intros i ?s;
         cbn [script for_each]; apply bind_congr; [reflexivity|];
         intros _ ?s; symmetry; apply bind_ret_r
        | intros _ ?s]
      | rewrite script_bind_nil
      | rewrite script_bind_cons;
        apply bind_congr; [reflexivity | intros _ ?s] ].
    apply bind_congr; [reflexivity|]. intros _ ?s.
    unfold steps_after_tags. rewrite script_app.
    apply bind_congr; [apply click_script|]. intros _ ?s.
    apply perform_script.
  - intros e s1. unfold report. now destruct (is_failsafe e).
Qed.

End UploaderRuns.

Section Faults.

Variable w : world.

Local Open Scope nat_scope.

Lemma script_ok (l : list event) (s : state) :
  (forall j, tick s <= j < tick s + List.length l -> fault w j = None) ->
  script w l s
  = ({| trace := trace s ++ l; tick := tick s + List.length l |}, Ok tt).
Proof.
  revert s. induction l as [|ev l IH]; intros s H.
  - cbn. unfold ret. rewrite app_nil_r, Nat.add_0_r. now destruct s.
  - cbn [script for_each]. unfold bind, perform at 1.
    rewrite (H (tick s)) by (cbn [List.length]; lia).
    fold (script w l). rewrite IH.
    + cbn [trace tick List.length]. rewrite <- app_assoc.
      f_equal; f_equal; lia.
    + cbn [tick List.length] in *. intros j Hj. apply H. lia.
Qed.

Lemma script_raise (l : list event) (s : state) (k : nat) (e : exn) :
  k < List.length l ->
  (forall j, tick s <= j < tick s + k -> fault w j = None) ->
  fault w (tick s + k) = Some e ->
  script w l s
  = ({| trace := trace s ++ firstn k l; tick := S (tick s + k) |}, Raised e).
Proof.
  revert s k. induction l as [|ev l IH]; intros s k Hk Hnone Hf.
  - cbn in Hk. lia.
  - cbn [script for_each]. unfold bind, perform at 1. destruct k as [|k].
    + rewrite Nat.add_0_r in *. rewrite Hf. cbn. now rewrite app_nil_r.
    + rewrite (Hnone (tick s)) by lia.
      fold (script w l). rewrite (IH _ k).
      * cbn [trace tick firstn]. rewrite <- app_assoc.
        f_equal; f_equal; lia.
      * cbn [List.length] in Hk. lia.
      * cbn [tick]. intros j Hj. apply Hnone. lia.
      * cbn [tick]. rewrite <- Hf. f_equal. lia.
Qed.

Lemma tags_ok (self : GiphyUploader) (s : state) :
  (forall j, tick s <= j < tick s + List.length (tags_events w self) ->
             fault w j = None) ->
  generate_and_paste_tags w self (video_title self) s
  = ({| trace := trace s ++ tags_events w self;
        tick := tick s + List.length (tags_events w self) |}, Ok tt).
Proof.
  intros H. rewrite generate_and_paste_tags_script. unfold tags_events in *.
  destruct (gemini_available self).
  - unfold try_except. now rewrite script_ok.
  - now apply script_ok.
Qed.

(** An action of the [try] block of the tags raises: the handler pastes
    the default tags and the call returns. *)
Lemma tags_try_raise (self : GiphyUploader) (s : state) (k : nat) (e : exn) :
  gemini_available self = true ->
  is_Exception e = true ->
  k < List.length (tags_try_events w (video_title self)) ->
  (forall j, tick s <= j < tick s + k -> fault w j = None) ->
  fault w (tick s + k) = Some e ->
  (forall j, tick s + k < j -> fault w j = None) ->
  generate_and_paste_tags w self (video_title self) s
  = ({| trace := trace s
                 ++ firstn k (tags_try_events w (video_title self))
                 ++ tags_except_events e;
        tick := S (tick s + k) + List.length (tags_except_events e) |},
     Ok tt).
Proof.
  intros Ha He Hk Hnone Hf Hlater.
  rewrite generate_and_paste_tags_script, Ha. unfold try_except.
  rewrite (script_raise _ _ Hk Hnone Hf), He.
  rewrite script_ok.
  - cbn [trace tick]. now rewrite <- app_assoc.
  - cbn [tick]. intros j Hj. apply Hlater. lia.
Qed.

(** An action of the tags raises outside a [try] block. *)
Lemma tags_unavailable_raise (self : GiphyUploader) (s : state) (k : nat)
  (e : exn) :
  gemini_available self = false ->
  k < List.length tags_unavailable_events ->
  (forall j, tick s <= j < tick s + k -> fault w j = None) ->
  fault w (tick s + k) = Some e ->
  generate_and_paste_tags w self (video_title self) s
  = ({| trace := trace s ++ firstn k tags_unavailable_events;
        tick := S (tick s + k) |}, Raised e).
Proof.
  intros Ha Hk Hnone Hf.
  rewrite generate_and_paste_tags_script, Ha.
  now apply script_raise.
Qed.

End Faults.

Section StartProcess.

Variable w : world.
Variable self : GiphyUploader.

Local Open Scope nat_scope.

Lemma firstn_app_l {A} (n : nat) (a b : list A) :
  n <= List.length a -> firstn n (a ++ b) = firstn n a.
Proof.
  intros H. rewrite firstn_app.
  replace (n - List.length a) with 0 by lia. cbn. apply app_nil_r.
Qed.

Lemma firstn_app_r {A} (n : nat) (a b : list A) :
  List.length a <= n ->
  firstn n (a ++ b) = a ++ firstn (n - List.length a) b.
Proof.
  intros H. rewrite firstn_app. now rewrite firstn_all2.
Qed.

Lemma steps_after_tags_length : List.length steps_after_tags = 4.
Proof. reflexivity. Qed.

Lemma nominal_length :
  List.length (nominal w self)
  = List.length (steps_before_tags w self)
    + List.length (tags_events w self) + 4.
Proof. unfold nominal. rewrite !length_app, steps_after_tags_length. lia. Qed.

(** One exception in the [try] block of [start_process].  In a run of
    [start_process] in which exactly one
    action raises, an [Exception], and that action is in its [try] block:
    the call returns, so nothing propagates.  When the action is outside
    the [try] block of [generate_and_paste_tags], the trace is the actions
    done before it followed by the report on the status display, and
    nothing else: no later step runs.  When it is inside that block, the
    exception is caught there: the trace goes on with the report of the
    tag error, the six default tags and the steps after the tags, the
    final upload click among them. *)
Theorem start_process_one_exception (k : nat) (e : exn) :
  single_fault w k e ->
  is_Exception e = true ->
  1 <= k <= List.length (nominal w self) ->
  exists s',
    start_process w self init = (s', Ok tt)
    /\ trace s'
       = StatusSet (u "Starting GIPHY upload process...")
         :: firstn (k - 1) (nominal w self)
         ++ (if in_tags_try w self k
             then tags_except_events e ++ steps_after_tags
             else [StatusSet (report e)]).
Proof.
  intros Hsf He Hk. rewrite nominal_length in Hk.
  assert (forall j, j <> k -> fault w j = None) as Hnone.
  { intros j Hj. rewrite Hsf. destruct (Nat.eqb_spec j k); congruence. }
  assert (fault w k = Some e) as Hf.
  { rewrite Hsf. now rewrite Nat.eqb_refl. }
  set (P := List.length (steps_before_tags w self)) in *.
  set (T := List.length (tags_events w self)) in *.
  rewrite start_process_script.
  unfold bind at 1, perform at 1, init. cbn [tick trace app].
  rewrite (Hnone 0) by lia.
  set (s1 := {| trace := [StatusSet (u "Starting GIPHY upload process...")];
                tick := 1 |}).
  (* the handler of start_process reports and returns *)
  assert (forall s2, tick s2 <> k ->
            exists s', perform w (StatusSet (report e)) s2 = (s', Ok tt)
                       /\ trace s' = trace s2 ++ [StatusSet (report e)])
    as Hhandler.
  { intros s2 Hne. unfold perform. rewrite Hnone by assumption.
    eexists. split; reflexivity. }
  unfold try_except at 1.
  destruct (Nat.le_gt_cases k P) as [HkP|HkP].
  - (* a step before the tags raises *)
    assert (script w (steps_before_tags w self) s1
            = ({| trace := trace s1 ++ firstn (k - 1) (steps_before_tags w self);
                  tick := S (tick s1 + (k - 1)) |}, Raised e)) as R.
    { apply script_raise; cbn [tick s1].
      - fold P. lia.
      - intros j Hj. apply Hnone. lia.
      - rewrite <- Hf. f_equal. lia. }
    rewrite (bind_raised _ _ _ R), He.
    destruct (Hhandler {| trace := trace s1
                            ++ firstn (k - 1) (steps_before_tags w self);
                          tick := S (tick s1 + (k - 1)) |})
      as [s' [E Tr]]; [cbn [tick s1]; lia|].
    exists s'. split; [exact E|]. rewrite Tr. cbn [trace s1 app].
    assert (in_tags_try w self k = false) as ->.
    { unfold in_tags_try. fold P.
      replace (P <? k) with false by (symmetry; apply Nat.ltb_ge; lia).
      now rewrite andb_false_r. }
    unfold nominal. rewrite firstn_app_l by (fold P; lia).
    rewrite <- ?app_assoc. reflexivity.
  - assert (script w (steps_before_tags w self) s1
            = ({| trace := trace s1 ++ steps_before_tags w self;
                  tick := tick s1 + P |}, Ok tt)) as R1.
    { apply script_ok. cbn [tick s1]. fold P.
      intros j Hj. apply Hnone. lia. }
    rewrite (bind_ok _ _ _ R1). clear R1.
    set (s2 := {| trace := trace s1 ++ steps_before_tags w self;
                  tick := tick s1 + P |}).
    destruct (Nat.le_gt_cases k (P + T)) as [HkT|HkT].
    + (* an action of the tags raises *)
      destruct (gemini_available self) eqn:Ha.
      * assert (T = List.length (tags_try_events w (video_title self))) as ET.
        { unfold T, tags_events. now rewrite Ha. }
        assert (generate_and_paste_tags w self (video_title self) s2
                = ({| trace := trace s2
                        ++ firstn (k - P - 1)
                             (tags_try_events w (video_title self))
                        ++ tags_except_events e;
                      tick := S (tick s2 + (k - P - 1))
                              + List.length (tags_except_events e) |},
                   Ok tt)) as R2.
        { apply tags_try_raise; try assumption; cbn [tick s1 s2].
          - rewrite <- ET. lia.
          - intros j Hj. apply Hnone. lia.
          - rewrite <- Hf. f_equal. lia.
          - intros j Hj. apply Hnone. lia. }
        rewrite (bind_ok _ _ _ R2). clear R2.
        rewrite script_ok.
        2:{ cbn [tick s1 s2]. intros j Hj. apply Hnone. lia. }
        eexists. split; [reflexivity|]. cbn [trace s1 s2 app].
        assert (in_tags_try w self k = true) as ->.
        { unfold in_tags_try. fold P. rewrite Ha, <- ET.
          replace (P <? k) with true by (symmetry; apply Nat.ltb_lt; lia).
          replace (k <=? P + T) with true
            by (symmetry; apply Nat.leb_le; lia).
          reflexivity. }
        unfold nominal, tags_events. rewrite Ha.
        rewrite firstn_app_r by (fold P; lia). fold P.
        rewrite firstn_app_l by (rewrite <- ET; lia).
        replace (k - 1 - P) with (k - P - 1) by lia.
        rewrite <- ?app_assoc. reflexivity.
      * assert (T = List.length tags_unavailable_events) as ET.
        { unfold T, tags_events. now rewrite Ha. }
        assert (generate_and_paste_tags w self (video_title self) s2
                = ({| trace := trace s2
                        ++ firstn (k - P - 1) tags_unavailable_events;
                      tick := S (tick s2 + (k - P - 1)) |}, Raised e)) as R2.
        { apply tags_unavailable_raise; try assumption; cbn [tick s1 s2].
          - rewrite <- ET. lia.
          - intros j Hj. apply Hnone. lia.
          - rewrite <- Hf. f_equal. lia. }
        rewrite (bind_raised _ _ _ R2), He. clear R2.
        destruct (Hhandler {| trace := trace s2
                                ++ firstn (k - P - 1) tags_unavailable_events;
                              tick := S (tick s2 + (k - P - 1)) |})
          as [s' [E Tr]]; [cbn [tick s1 s2]; lia|].
        exists s'. split; [exact E|]. rewrite Tr. cbn [trace s1 s2 app].
        assert (in_tags_try w self k = false) as ->.
        { unfold in_tags_try. now rewrite Ha. }
        unfold nominal, tags_events. rewrite Ha.
        rewrite firstn_app_r by (fold P; lia). fold P.
        rewrite firstn_app_l by (rewrite <- ET; lia).
        replace (k - 1 - P) with (k - P - 1) by lia.
        rewrite <- ?app_assoc. reflexivity.
    + (* a step after the tags raises *)
      assert (generate_and_paste_tags w self (video_title self) s2
              = ({| trace := trace s2 ++ tags_events w self;
                    tick := tick s2 + T |}, Ok tt)) as R2.
      { apply tags_ok. cbn [tick s1 s2]. fold T.
        intros j Hj. apply Hnone. lia. }
      rewrite (bind_ok _ _ _ R2). clear R2.
      set (s3 := {| trace := trace s2 ++ tags_events w self;
                    tick := tick s2 + T |}).
      assert (script w steps_after_tags s3
              = ({| trace := trace s3 ++ firstn (k - P - T - 1) steps_after_tags;
                    tick := S (tick s3 + (k - P - T - 1)) |}, Raised e)) as R3.
      { apply script_raise; cbn [tick s1 s2 s3].
        - rewrite steps_after_tags_length. lia.
        - intros j Hj. apply Hnone. lia.
        - rewrite <- Hf. f_equal. lia. }
      rewrite R3, He. clear R3.
      destruct (Hhandler {| trace := trace s3
                              ++ firstn (k - P - T - 1) steps_after_tags;
                            tick := S (tick s3 + (k - P - T - 1)) |})
        as [s' [E Tr]]; [cbn [tick s1 s2 s3]; lia|].
      exists s'. split; [exact E|]. rewrite Tr. cbn [trace s1 s2 s3 app].
      assert (in_tags_try w self k = false) as ->.
      { unfold in_tags_try. fold P.
        destruct (gemini_available self) eqn:Ha; [|reflexivity].
        replace (List.length (tags_try_events w (video_title self)))
          with T by (unfold T, tags_events; now rewrite Ha).
        replace (k <=? P + T) with false
          by (symmetry; apply Nat.leb_gt; lia).
        now rewrite andb_false_r. }
      unfold nominal.
      rewrite firstn_app_r by (fold P; lia). fold P.
      rewrite firstn_app_r by (fold T; lia). fold T.
      replace (k - 1 - P - T) with (k - P - T - 1) by lia.
      rewrite <- ?app_assoc. reflexivity.
Qed.

End StartProcess.

Lemma start_process_one_exception_witness :
  let w := one_fault_world false 3 (Exn FailSafeException []) in
  let self := GiphyUploader_init w (u "Demo") true in
  single_fault w 3 (Exn FailSafeException [])
  /\ is_Exception (Exn FailSafeException []) = true
  /\ (1 <= 3 <= List.length (nominal w self))%nat
  /\ exists s',
       start_process w self init = (s', Ok tt)
       /\ trace s'
          = StatusSet (u "Starting GIPHY upload process...")
            :: firstn (3 - 1) (nominal w self)
            ++ (if in_tags_try w self 3
                then tags_except_events (Exn FailSafeException [])
                     ++ steps_after_tags
                else [StatusSet (report (Exn FailSafeException []))]).
Proof.
  assert (single_fault (one_fault_world false 3 (Exn FailSafeException []))
            3 (Exn FailSafeException [])) as H1
    by (intros j; reflexivity).
  assert (is_Exception (Exn FailSafeException []) = true) as H2
    by reflexivity.
  assert (1 <= 3 <= List.length
            (nominal (one_fault_world false 3 (Exn FailSafeException []))
               (GiphyUploader_init
                  (one_fault_world false 3 (Exn FailSafeException []))
                  (u "Demo") true)))%nat as H3
    by (vm_compute; split; repeat constructor).
  split; [exact H1|]. split; [exact H2|]. split; [exact H3|].
  exact (@start_process_one_exception _ _ 3 _ H1 H2 H3).
Defined.

(** The text model raises (the action at position
    55, [generate_content], in a world where nothing else raises).  The
    exception is caught inside [generate_and_paste_tags], the default tags
    are pasted and the steps that remain run: the call does not stop at
    the failing step, and the final upload click is among the events
    after it. *)
Lemma start_process_goes_on_after_tag_failure :
  let w := one_fault_world true 55 quota_error in
  let self := GiphyUploader_init w (u "Demo") true in
  single_fault w 55 quota_error
  /\ is_Exception quota_error = true
  /\ ~ aborts_at w self 55 quota_error
  /\ exists s',
       start_process w self init = (s', Ok tt)
       /\ In (Click 1257 1035) (skipn 55 (trace s')).
Proof.
  cbv zeta. split; [intros j; reflexivity|]. split; [reflexivity|].
  assert (exists s',
            start_process (one_fault_world true 55 quota_error)
              (GiphyUploader_init (one_fault_world true 55 quota_error)
                 (u "Demo") true) init = (s', Ok tt)
            /\ In (Click 1257 1035) (skipn 55 (trace s'))) as H.
  { eexists. split; [vm_compute; reflexivity|].
    vm_compute. do 33 right. left. reflexivity. }
  split; [|exact H].
  intros [s1 [E1 T1]]. destruct H as [s2 [E2 I2]].
  rewrite E1 in E2. injection E2 as <-.
  rewrite T1 in I2. vm_compute in I2.
  repeat (destruct I2 as [I2|I2]; [discriminate I2|]). exact I2.
Qed.

(* ================================================================= *)
(** ** The default tags *)

Lemma emitted_tags_app (a b : list event) :
  emitted_tags (a ++ b) = emitted_tags a ++ emitted_tags b.
Proof. unfold emitted_tags. apply flat_map_app. Qed.

Lemma tags_try_events_length (w : world) (topic : str) :
  (5 <= List.length (tags_try_events w topic))%nat.
Proof.
  unfold tags_try_events. cbv zeta. rewrite !length_app.
  cbn [List.length]. lia.
Qed.

(** C3 (code at the failing inputs).  The two fall-back paths of
    [generate_and_paste_tags] paste two different lists.  When the text
    model is unavailable and nothing raises, the tags pasted are [#gif],
    [#animation], [#funny], [#meme], [#trending], [#viral]; when the
    model is available and [generate_content] raises, the third tag is
    [#fun] instead. *)
Theorem fallback_tags_differ (w1 w2 : world) (self1 self2 : GiphyUploader)
  (e : exn) :
  gemini_available self1 = false ->
  (forall j, fault w1 j = None) ->
  gemini_available self2 = true ->
  single_fault w2 1 e ->
  is_Exception e = true ->
  let unavailable :=
    emitted_tags
      (trace (fst (generate_and_paste_tags w1 self1 (video_title self1) init))) in
  let raised :=
    emitted_tags
      (trace (fst (generate_and_paste_tags w2 self2 (video_title self2) init))) in
  unavailable
  = [u "#gif"; u "#animation"; u "#funny"; u "#meme"; u "#trending"; u "#viral"]
  /\ raised
     = [u "#gif"; u "#animation"; u "#fun"; u "#meme"; u "#trending"; u "#viral"]
  /\ unavailable <> raised.
Proof.
  intros Ha1 Hq Ha2 Hsf He. cbv zeta.
  assert (generate_and_paste_tags w1 self1 (video_title self1) init
          = ({| trace := trace init ++ tags_unavailable_events;
                tick := tick init + List.length tags_unavailable_events |},
             Ok tt)) as R1.
  { rewrite generate_and_paste_tags_script, Ha1. apply script_ok.
    intros j _. apply Hq. }
  assert (generate_and_paste_tags w2 self2 (video_title self2) init
          = ({| trace := trace init
                  ++ firstn 1 (tags_try_events w2 (video_title self2))
                  ++ tags_except_events e;
                tick := S (tick init + 1)
                        + List.length (tags_except_events e) |}, Ok tt)) as R2.
  { apply tags_try_raise; try assumption.
    - pose proof (tags_try_events_length w2 (video_title self2)). lia.
    - intros j Hj. rewrite Hsf. cbn [tick init] in Hj.
      destruct (Nat.eqb_spec j 1); [lia | reflexivity].
    - rewrite Hsf. reflexivity.
    - intros j Hj. rewrite Hsf. cbn [tick init] in Hj.
      destruct (Nat.eqb_spec j 1); [lia | reflexivity]. }
  rewrite R1, R2. cbn [fst trace init app].
  rewrite !emitted_tags_app.
  split; [reflexivity|]. split; [reflexivity|]. discriminate.
Qed.

Lemma fallback_tags_differ_witness :
  let w1 := example_world (u "10") (fun _ => true) false [] (fun _ => None) in
  let w2 := one_fault_world true 1 quota_error in
  let self1 := GiphyUploader_init w1 (u "Demo") true in
  let self2 := GiphyUploader_init w2 (u "Demo") true in
  gemini_available self1 = false
  /\ (forall j, fault w1 j = None)
  /\ gemini_available self2 = true
  /\ single_fault w2 1 quota_error
  /\ is_Exception quota_error = true
  /\ emitted_tags
       (trace (fst (generate_and_paste_tags w1 self1 (video_title self1) init)))
     <> emitted_tags
          (trace (fst (generate_and_paste_tags w2 self2 (video_title self2) init))).
Proof.
  cbv zeta.
  split; [reflexivity|]. split; [intros j; reflexivity|].
  split; [reflexivity|]. split; [intros j; reflexivity|].
  split; [reflexivity|].
  exact (proj2 (proj2
    (@fallback_tags_differ
       (example_world (u "10") (fun _ => true) false [] (fun _ => None))
       (one_fault_world true 1 quota_error)
       (GiphyUploader_init
          (example_world (u "10") (fun _ => true) false [] (fun _ => None))
          (u "Demo") true)
       (GiphyUploader_init (one_fault_world true 1 quota_error) (u "Demo") true)
       quota_error eq_refl (fun j => eq_refl) eq_refl (fun j => eq_refl)
       eq_refl))).
Defined.

(* ================================================================= *)
(** ** binary64: sizes, shifts and rounding *)

Unset Implicit Arguments.

Section Digits.

Lemma digits2_pos_size (m : positive) : digits2_pos m = Pos.size m.
Proof. induction m; simpl; congruence. Qed.

Lemma digits2_pos_bounds (m : positive) :
  2 ^ (Z.pos (digits2_pos m) - 1) <= Z.pos m < 2 ^ Z.pos (digits2_pos m).
Proof.
  induction m as [m IH|m IH|]; cbn [digits2_pos].
  - rewrite Pos2Z.inj_succ.
    replace (Z.succ (Z.pos (digits2_pos m)) - 1)
      with (Z.succ (Z.pos (digits2_pos m) - 1)) by lia.
    rewrite !Z.pow_succ_r by lia. lia.
  - rewrite Pos2Z.inj_succ.
    replace (Z.succ (Z.pos (digits2_pos m)) - 1)
      with (Z.succ (Z.pos (digits2_pos m) - 1)) by lia.
    rewrite !Z.pow_succ_r by lia. lia.
  - cbn. lia.
Qed.

Lemma Zdigits2_nonneg (m : Z) : 0 <= Zdigits2 m.
Proof. destruct m; cbn; lia. Qed.

(** A number below [2 ^ k] has at most [k] digits. *)
Lemma Zdigits2_le (m k : Z) : 0 <= m -> 0 <= k -> m < 2 ^ k -> Zdigits2 m <= k.
Proof.
  intros Hm Hk H. destruct m as [|p|p]; cbn [Zdigits2]; [lia| |lia].
  pose proof (digits2_pos_bounds p) as [Hlo _].
  assert (2 ^ (Z.pos (digits2_pos p) - 1) < 2 ^ k) as Hlt by lia.
  apply Z.pow_lt_mono_r_iff in Hlt; lia.
Qed.

Lemma Zdigits2_lt_pow (m : Z) : 0 <= m -> m < 2 ^ Zdigits2 m.
Proof.
  intros Hm. destruct m as [|p|p]; cbn [Zdigits2]; [cbn; lia| |lia].
  apply digits2_pos_bounds.
Qed.

Lemma Zdigits2_ge_pow (m : Z) : 0 < m -> 2 ^ (Zdigits2 m - 1) <= m.
Proof.
  intros Hm. destruct m as [|p|p]; cbn [Zdigits2]; [lia| |lia].
  apply digits2_pos_bounds.
Qed.

Lemma pos_iter_xO (m d : positive) :
  Z.pos (Pos.iter xO m d) = Z.pos m * 2 ^ Z.pos d.
Proof.
  revert m. induction d as [|d IH] using Pos.peano_ind; intros m.
  - cbn. lia.
  - rewrite Pos.iter_succ, Pos2Z.inj_succ, Z.pow_succ_r by lia.
    rewrite Pos2Z.inj_xO, IH. lia.
Qed.

Lemma digits2_pos_iter_xO (m d : positive) :
  digits2_pos (Pos.iter xO m d) = (digits2_pos m + d)%positive.
Proof.
  induction d as [|d IH] using Pos.peano_ind.
  - cbn. lia.
  - rewrite Pos.iter_succ. cbn [digits2_pos]. rewrite IH. lia.
Qed.

End Digits.

Section Shifts.

Lemma shr_1_m (mrs : shr_record) :
  0 <= shr_m mrs -> shr_m (shr_1 mrs) = shr_m mrs / 2.
Proof.
  destruct mrs as [m r s]. cbn [shr_m]. intros Hm.
  destruct m as [|[p|p|]|p]; cbn [shr_1 shr_m]; try lia.
  - reflexivity.
  - rewrite Pos2Z.inj_xI. apply Z.div_unique with 1; lia.
  - rewrite Pos2Z.inj_xO. apply Z.div_unique with 0; lia.
  - reflexivity.
Qed.

Lemma iter_pos_shr_1_m (n : positive) (mrs : shr_record) :
  0 <= shr_m mrs ->
  shr_m (iter_pos shr_1 n mrs) = shr_m mrs / 2 ^ Z.pos n.
Proof.
  revert mrs. induction n as [n IH|n IH|]; intros mrs Hm; cbn [iter_pos].
  - assert (0 <= shr_m (shr_1 mrs)) as H1
      by (rewrite shr_1_m by assumption; apply Z.div_pos; lia).
    assert (0 <= shr_m (iter_pos shr_1 n (shr_1 mrs))) as H2
      by (rewrite IH by assumption; apply Z.div_pos; lia).
    rewrite IH, IH, shr_1_m by assumption.
    rewrite !Z.div_div by lia. f_equal.
    change (Z.pos n~1) with (2 * Z.pos n + 1).
    replace (2 * Z.pos n + 1) with (1 + Z.pos n + Z.pos n) by lia.
    rewrite !Z.pow_add_r by lia. change (2 ^ 1) with 2. ring.
  - assert (0 <= shr_m (iter_pos shr_1 n mrs)) as H2
      by (rewrite IH by assumption; apply Z.div_pos; lia).
    rewrite IH, IH by assumption.
    rewrite !Z.div_div by lia. f_equal.
    change (Z.pos n~0) with (2 * Z.pos n).
    replace (2 * Z.pos n) with (Z.pos n + Z.pos n) by lia.
    rewrite !Z.pow_add_r by lia. ring.
  - rewrite shr_1_m by assumption. reflexivity.
Qed.

(** [shr_fexp] divides the mantissa by a power of two and moves the
    exponent up to the one the format wants. *)
Lemma shr_fexp_spec (m e : Z) (l : location) :
  0 <= m ->
  exists mrs,
    shr_fexp prec emax m e l
    = (mrs, Z.max e (fexp prec emax (Zdigits2 m + e)))
    /\ shr_m mrs = m / 2 ^ (Z.max e (fexp prec emax (Zdigits2 m + e)) - e).
Proof.
  intros Hm. unfold shr_fexp, shr.
  assert (shr_m (shr_record_of_loc m l) = m) as Hrec
    by (destruct l as [|[| |]]; reflexivity).
  destruct (fexp prec emax (Zdigits2 m + e) - e) as [|n|n] eqn:E.
  - exists (shr_record_of_loc m l). split.
    + f_equal. lia.
    + rewrite Hrec. replace (Z.max _ _ - e) with 0 by lia.
      now rewrite Z.div_1_r.
  - exists (iter_pos shr_1 n (shr_record_of_loc m l)). split.
    + f_equal. lia.
    + rewrite iter_pos_shr_1_m by (rewrite Hrec; assumption).
      rewrite Hrec. do 2 f_equal. lia.
  - exists (shr_record_of_loc m l). split.
    + f_equal. lia.
    + rewrite Hrec. replace (Z.max _ _ - e) with 0 by lia.
      now rewrite Z.div_1_r.
Qed.

Lemma round_nearest_even_bounds (m : Z) (l : location) :
  m <= round_nearest_even m l <= m + 1.
Proof.
  destruct l as [|[| |]]; cbn [round_nearest_even]; try lia.
  destruct (Z.even m); lia.
Qed.

End Shifts.

Section Rounding.

Lemma fexp_le (x : Z) : x <= 1024 -> fexp prec emax x <= 971.
Proof. unfold fexp, emin, prec, emax. lia. Qed.

Lemma div_pow2_lt (a n k : Z) :
  0 <= a -> 0 <= n -> 0 <= k -> a < 2 ^ (n + k) -> a / 2 ^ n < 2 ^ k.
Proof.
  intros Ha Hn Hk H. apply Z.div_lt_upper_bound; [lia|].
  now rewrite <- Z.pow_add_r.
Qed.

(** Rounding a number below [2 ^ 1023] never overflows. *)
Lemma binary_round_aux_finite (s : bool) (mx ex : Z) (lx : location) :
  0 <= mx -> ex <= 971 -> Zdigits2 mx + ex <= 1023 ->
  zero_or_finite s (binary_round_aux prec emax s mx ex lx).
Proof.
  intros Hm Hex Hd. unfold binary_round_aux.
  destruct (shr_fexp_spec mx ex lx Hm) as [mrs1 [E1 M1]]. rewrite E1.
  set (e1 := Z.max ex (fexp prec emax (Zdigits2 mx + ex))) in *.
  assert (ex <= e1 <= 971) as He1.
  { unfold e1. pose proof (fexp_le (Zdigits2 mx + ex)). lia. }
  assert (0 <= shr_m mrs1 < 2 ^ (1023 - e1)) as Hm1.
  { rewrite M1. split; [apply Z.div_pos; lia|].
    apply div_pow2_lt; try lia.
    replace (e1 - ex + (1023 - e1)) with (1023 - ex) by lia.
    pose proof (Zdigits2_lt_pow mx Hm) as Hlt.
    pose proof (Zdigits2_nonneg mx).
    assert (2 ^ Zdigits2 mx <= 2 ^ (1023 - ex))
      by (apply Z.pow_le_mono_r; lia).
    lia. }
  set (m2 := round_nearest_even (shr_m mrs1) (loc_of_shr_record mrs1)).
  pose proof (round_nearest_even_bounds (shr_m mrs1) (loc_of_shr_record mrs1))
    as Hr. fold m2 in Hr.
  assert (0 <= m2) as Hm2 by lia.
  destruct (shr_fexp_spec m2 e1 loc_Exact Hm2) as [mrs2 [E2 M2]]. rewrite E2.
  assert (0 <= shr_m mrs2) as Hm3 by (rewrite M2; apply Z.div_pos; lia).
  destruct (shr_m mrs2) as [|p|p]; [now left| |lia].
  right. exists p. eexists.
  assert (Zdigits2 m2 + e1 <= 1024) as Hd2.
  { assert (Zdigits2 m2 <= 1024 - e1); [|lia].
    apply Zdigits2_le; try lia.
    replace (1024 - e1) with (Z.succ (1023 - e1)) by lia.
    rewrite Z.pow_succ_r by lia. lia. }
  pose proof (fexp_le _ Hd2).
  replace (Z.max e1 (fexp prec emax (Zdigits2 m2 + e1)) <=? emax - prec)
    with true; [reflexivity|].
  symmetry. apply Z.leb_le. change (emax - prec) with 971. lia.
Qed.

End Rounding.

Section Division.

Lemma valid64_digits (s : bool) (m : positive) (e : Z) :
  valid64 (S754_finite s m e) = true ->
  Z.pos (digits2_pos m) + e <= 1024 /\ e <= 971
  /\ fexp prec emax (Z.pos (digits2_pos m) + e) = e.
Proof.
  unfold valid64, valid_binary, bounded, canonical_mantissa. intros H.
  apply andb_prop in H as [H1 H2].
  apply Z.eqb_eq in H1. apply Z.leb_le in H2.
  change (emax - prec) with 971 in H2.
  split; [|split; assumption].
  revert H1. unfold fexp, emin, prec, emax. lia.
Qed.

Lemma div_eucl_div (a b : Z) : fst (Z.div_eucl a b) = a / b.
Proof. reflexivity. Qed.

(** The quotient that [SFdiv] hands to the rounding is below [2 ^ 1023]
    when the dividend is less than [2 ^ 1022] times the divisor. *)
Lemma SFdiv_core_bounds (mx my : positive) (ex ey : Z) :
  Z.pos (digits2_pos mx) + ex <= Z.pos (digits2_pos my) + ey + 1022 ->
  forall q e' l,
    SFdiv_core_binary prec emax (Z.pos mx) ex (Z.pos my) ey = (q, e', l) ->
    0 <= q /\ e' <= 971 /\ Zdigits2 q + e' <= 1023.
Proof.
  intros H q e' l. unfold SFdiv_core_binary. cbn [Zdigits2].
  set (d1 := Z.pos (digits2_pos mx)) in *.
  set (d2 := Z.pos (digits2_pos my)) in *.
  set (e0 := Z.min (fexp prec emax (d1 + ex - (d2 + ey))) (ex - ey)).
  set (sft := ex - ey - e0).
  assert (0 <= sft) as Hs by (unfold sft, e0; lia).
  assert (e0 <= 971) as He0.
  { unfold e0. pose proof (fexp_le (d1 + ex - (d2 + ey))).
    assert (0 < d2) by (unfold d2; lia). lia. }
  set (m' := match sft with
             | 0 => Z.pos mx
             | Z.pos _ => Z.shiftl (Z.pos mx) sft
             | Z.neg _ => 0
             end).
  assert (m' = Z.pos mx * 2 ^ sft) as Hm'.
  { unfold m'. destruct sft as [|p|p] eqn:E; [cbn; lia| |lia].
    now rewrite Z.shiftl_mul_pow2 by lia. }
  pose proof (div_eucl_div m' (Z.pos my)) as Hq.
  destruct (Z.div_eucl m' (Z.pos my)) as [q0 r0]. cbn [fst] in Hq.
  intros E. injection E as <- <- _.
  assert (0 <= q0) as Hq0.
  { rewrite Hq. apply Z.div_pos; [|lia]. rewrite Hm'.
    apply Z.mul_nonneg_nonneg; [lia|]. apply Z.pow_nonneg. lia. }
  split; [assumption|]. split; [assumption|].
  assert (Zdigits2 q0 <= 1023 - e0); [|lia].
  apply Zdigits2_le; try lia.
  rewrite Hq. apply Z.div_lt_upper_bound; [lia|].
  pose proof (digits2_pos_bounds mx) as [_ Hmx]. fold d1 in Hmx.
  pose proof (digits2_pos_bounds my) as [Hmy _]. fold d2 in Hmy.
  assert (0 < d1) by (unfold d1; lia).
  assert (0 < d2) by (unfold d2; lia).
  rewrite Hm'.
  assert (Z.pos mx * 2 ^ sft < 2 ^ d1 * 2 ^ sft) as A
    by (apply Z.mul_lt_mono_pos_r; [apply Z.pow_pos_nonneg; lia | lia]).
  assert (2 ^ (d2 - 1) * 2 ^ (1023 - e0) <= Z.pos my * 2 ^ (1023 - e0)) as B
    by (apply Z.mul_le_mono_nonneg_r; [apply Z.pow_nonneg; lia | lia]).
  rewrite <- Z.pow_add_r in A, B by lia.
  assert (2 ^ (d1 + sft) <= 2 ^ (d2 - 1 + (1023 - e0))) as C
    by (apply Z.pow_le_mono_r; unfold sft in *; lia).
  lia.
Qed.

Lemma SFdiv_finite (sx : bool) (mx my : positive) (ex ey : Z) :
  Z.pos (digits2_pos mx) + ex <= Z.pos (digits2_pos my) + ey + 1022 ->
  zero_or_finite sx
    (SFdiv prec emax (S754_finite sx mx ex) (S754_finite false my ey)).
Proof.
  intros H. unfold SFdiv.
  destruct (SFdiv_core_binary prec emax (Z.pos mx) ex (Z.pos my) ey)
    as [[q e'] l] eqn:E.
  destruct (SFdiv_core_bounds mx my ex ey H q e' l E) as [Hq [He Hd]].
  rewrite xorb_false_r. now apply binary_round_aux_finite.
Qed.

End Division.

Section Conversion.

(** A full mantissa with an exponent in range is its own rounding. *)
Lemma binary_round_aux_exact (s : bool) (m : positive) (e : Z) :
  digits2_pos m = 53%positive -> -1074 <= e <= 971 ->
  binary_round_aux prec emax s (Z.pos m) e loc_Exact = S754_finite s m e.
Proof.
  intros Hd He.
  assert (shr_fexp prec emax (Z.pos m) e loc_Exact
          = ({| shr_m := Z.pos m; shr_r := false; shr_s := false |}, e)) as E.
  { unfold shr_fexp. cbn [Zdigits2]. rewrite Hd.
    replace (fexp prec emax (53 + e) - e) with 0
      by (unfold fexp, emin, prec, emax; lia).
    reflexivity. }
  unfold binary_round_aux. rewrite E.
  cbn [shr_m loc_of_shr_record round_nearest_even]. rewrite E.
  cbn [shr_m].
  replace (e <=? emax - prec) with true; [reflexivity|].
  symmetry. apply Z.leb_le. change (emax - prec) with 971. lia.
Qed.

(** [float(L)] for a positive [int] below [2 ^ 53]: a positive finite
    float whose magnitude has the size of [L]. *)
Lemma float_of_int_pos (L : positive) :
  Z.pos L < 2 ^ 53 ->
  exists m e,
    float_of_int (Z.pos L) = S754_finite false m e
    /\ Z.pos (digits2_pos m) + e = Z.pos (digits2_pos L).
Proof.
  intros HL.
  assert (Zdigits2 (Z.pos L) <= 53) as Hd
    by (apply Zdigits2_le; lia).
  cbn [Zdigits2] in Hd.
  unfold float_of_int, binary_normalize, binary_round, shl_align.
  replace (fexp prec emax (Z.pos (digits2_pos L) + 0))
    with (Z.pos (digits2_pos L) - 53)
    by (unfold fexp, emin, prec, emax; lia).
  destruct (Z.pos (digits2_pos L) - 53 - 0) as [|p|p] eqn:E; [|lia|].
  - assert (digits2_pos L = 53%positive) as HdL by lia.
    exists L, 0. rewrite binary_round_aux_exact by (assumption || lia).
    split; [reflexivity | lia].
  - exists (Pos.iter xO L p), (Z.pos (digits2_pos L) - 53).
    assert (digits2_pos (Pos.iter xO L p) = 53%positive) as Hd'
      by (rewrite digits2_pos_iter_xO; lia).
    rewrite binary_round_aux_exact by (assumption || lia).
    split; [reflexivity|]. rewrite Hd'. lia.
Qed.

(** Dividing a float of the top binade by 1.0 gives it back. *)
Lemma SFdiv_top_by_one (sx : bool) (mx : positive) :
  digits2_pos mx = 53%positive ->
  SFdiv prec emax (S754_finite sx mx 971)
    (S754_finite false 4503599627370496 (-52))
  = S754_finite sx mx 971.
Proof.
  intros Hd. unfold SFdiv, SFdiv_core_binary. cbn [Zdigits2]. rewrite Hd.
  change (Z.pos (digits2_pos 4503599627370496)) with 53.
  change (Z.min (fexp prec emax (53 + 971 - (53 + -52))) (971 - -52))
    with 970.
  change (971 - -52 - 970) with 53. cbv iota.
  rewrite Z.shiftl_mul_pow2 by lia.
  pose proof (Z_div_mod (Z.pos mx * 2 ^ 53) 4503599627370496 eq_refl) as H.
  destruct (Z.div_eucl (Z.pos mx * 2 ^ 53) 4503599627370496) as [q r].
  change (2 ^ 53) with 9007199254740992 in H.
  assert (q = Z.pos mx~0 /\ r = 0) as [-> ->] by lia.
  change (new_location 4503599627370496 0) with loc_Exact.
  assert (shr_fexp prec emax (Z.pos mx~0) 970 loc_Exact
          = ({| shr_m := Z.pos mx; shr_r := false; shr_s := false |}, 971))
    as E.
  { unfold shr_fexp. cbn [Zdigits2 digits2_pos]. rewrite Hd. reflexivity. }
  unfold binary_round_aux. rewrite E.
  cbn [shr_m loc_of_shr_record round_nearest_even].
  assert (shr_fexp prec emax (Z.pos mx) 971 loc_Exact
          = ({| shr_m := Z.pos mx; shr_r := false; shr_s := false |}, 971))
    as E'.
  { unfold shr_fexp. cbn [Zdigits2]. rewrite Hd. reflexivity. }
  rewrite E'. cbn [shr_m]. rewrite xorb_false_r. reflexivity.
Qed.

(** The quotient of a finite float by a positive [int] below [2 ^ 53]
    is a zero or a finite float, of the sign of the dividend. *)
Lemma float_truediv_finite (D : spec_float) (L : Z) :
  valid64 D = true -> is_finite D = true -> 1 <= L < 2 ^ 53 ->
  float_truediv D L = Ok (SFdiv prec emax D (float_of_int L))
  /\ zero_or_finite (float_sign D) (SFdiv prec emax D (float_of_int L)).
Proof.
  intros Hv Hf HL. destruct L as [|L|L]; try lia.
  destruct (float_of_int_pos L) as [m [e [Ey Hy]]]; [lia|].
  unfold float_truediv. rewrite Ey. split; [reflexivity|].
  destruct D as [s|s| |s mx ex]; try discriminate Hf.
  - left. cbn. now rewrite xorb_false_r.
  - cbn [float_sign].
    destruct (valid64_digits s mx ex Hv) as [Hd [Hex Hc]].
    assert (0 < Z.pos (digits2_pos L)) by lia.
    destruct (Z.le_gt_cases
                (Z.pos (digits2_pos mx) + ex)
                (Z.pos (digits2_pos m) + e + 1022)) as [Hle|Hgt].
    + now apply SFdiv_finite.
    + (* the top binade divided by 1 *)
      assert (Z.pos (digits2_pos L) = 1) as HdL by lia.
      assert (L = 1%positive) as ->
        by (destruct L as [L|L|]; cbn [digits2_pos] in HdL; lia).
      assert (Z.pos (digits2_pos mx) + ex = 1024) as Htop by lia.
      assert (ex = 971) as ->
        by (revert Hc; rewrite Htop; unfold fexp, emin, prec, emax; lia).
      assert (digits2_pos mx = 53%positive) as Hmx by lia.
      change (float_of_int 1)
        with (S754_finite false 4503599627370496 (-52)) in Ey.
      injection Ey as <- <-.
      rewrite SFdiv_top_by_one by assumption. right. eauto.
Qed.

End Conversion.

(* ================================================================= *)
(** ** The clip count *)

Section ClipCount.

Lemma math_ceil_spec (x : spec_float) :
  is_finite x = true -> math_ceil x = Ok (Qceiling (float_val x)).
Proof.
  destruct x as [s|s| |s m e]; try discriminate; intros _.
  - reflexivity.
  - unfold math_ceil, float_val. f_equal.
    destruct (0 <=? e) eqn:E.
    + now rewrite Qceiling_Z.
    + apply Z.leb_gt in E.
      unfold Qceiling, Qfloor, Qopp. cbn [Qnum Qden].
      rewrite Z2Pos.id by (apply Z.pow_pos_nonneg; lia). reflexivity.
Qed.

Lemma zero_or_finite_is_finite (s : bool) (x : spec_float) :
  zero_or_finite s x -> is_finite x = true.
Proof. intros [->|[m [e ->]]]; reflexivity. Qed.

(** The ceiling of a zero or of a negative float is not positive. *)
Lemma math_ceil_nonpos (x : spec_float) :
  zero_or_finite true x -> exists n, math_ceil x = Ok n /\ n <= 0.
Proof.
  intros [->|[m [e ->]]]; cbn [math_ceil].
  - exists 0. split; [reflexivity | lia].
  - eexists. split; [reflexivity|].
    destruct (0 <=? e) eqn:E.
    + apply Z.leb_le in E.
      assert (0 < 2 ^ e) by (apply Z.pow_pos_nonneg; lia). nia.
    + apply Z.leb_gt in E.
      assert (0 <= - Z.neg m / 2 ^ (- e)); [|lia].
      apply Z.div_pos; [lia|]. apply Z.pow_pos_nonneg; lia.
Qed.

End ClipCount.

(** C1 (counterexample).  The quotient is a float: it is rounded before
    the ceiling is taken.  For a probed duration of 13510798882111492
    seconds and the default clip length 3, the exact quotient is
    4503599627370497 and a third, the float quotient is 4503599627370497,
    and so is the clip count, one less than [ceil(D/L)]. *)
Lemma num_clips_not_exact_ceiling :
  let D := S754_finite false 6755399441055746 1 in
  decimal_float (u "13510798882111492") = Some D
  /\ valid64 D = true
  /\ (float_val D == inject_Z 13510798882111492)%Q
  /\ num_clips D 3 = Ok 4503599627370497
  /\ Qceiling (float_val D / inject_Z 3) = 4503599627370498
  /\ num_clips D 3 <> Ok (Qceiling (float_val D / inject_Z 3)).
Proof.
  cbv zeta. repeat split; try (vm_compute; reflexivity).
  vm_compute. discriminate.
Qed.

(** The clip count in general.  For a finite probed duration [D] and a
    clip length [L] with [1 <= L < 2 ^ 53], the clip count is the ceiling
    of the binary64 quotient of [D] by [L]: the least integer that is not
    below the rounded quotient.  For [D = 10] and [L = 3] it is 4. *)
Theorem num_clips_ceiling (D : spec_float) (L : Z) :
  valid64 D = true -> is_finite D = true -> 1 <= L < 2 ^ 53 ->
  let q := SFdiv prec emax D (float_of_int L) in
  float_truediv D L = Ok q
  /\ is_finite q = true
  /\ num_clips D L = Ok (Qceiling (float_val q))
  /\ (inject_Z (Qceiling (float_val q) - 1) < float_val q
      /\ float_val q <= inject_Z (Qceiling (float_val q)))%Q
  /\ num_clips (S754_finite false 5629499534213120 (-49)) 3 = Ok 4.
Proof.
  intros Hv Hf HL. cbv zeta.
  destruct (float_truediv_finite D L Hv Hf HL) as [E Hq].
  apply zero_or_finite_is_finite in Hq.
  split; [exact E|]. split; [exact Hq|].
  split; [unfold num_clips; rewrite E; now apply math_ceil_spec|].
  split; [split; [apply Qceiling_lt | apply Qle_ceiling]|].
  vm_compute. reflexivity.
Qed.

Lemma num_clips_ceiling_witness :
  let D := S754_finite false 5629499534213120 (-49) in
  valid64 D = true /\ is_finite D = true /\ 1 <= 3 < 2 ^ 53
  /\ (float_val D == inject_Z 10)%Q
  /\ num_clips D 3
     = Ok (Qceiling (float_val (SFdiv prec emax D (float_of_int 3)))).
Proof.
  cbv zeta.
  assert (valid64 (S754_finite false 5629499534213120 (-49)) = true) as H1
    by reflexivity.
  assert (is_finite (S754_finite false 5629499534213120 (-49)) = true) as H2
    by reflexivity.
  assert (1 <= 3 < 2 ^ 53) as H3 by (split; [discriminate | reflexivity]).
  split; [exact H1|]. split; [exact H2|]. split; [exact H3|].
  split; [reflexivity|].
  exact (proj1 (proj2 (proj2 (num_clips_ceiling _ 3 H1 H2 H3)))).
Defined.

(* ================================================================= *)
(** ** Durations that are not positive *)

Lemma float_le0_cases (D : spec_float) :
  is_finite D = true -> float_le0 D = true ->
  (exists s0, D = S754_zero s0) \/ float_sign D = true.
Proof.
  destruct D as [s0|s0| |s0 m e]; try discriminate; intros _ H.
  - left. eauto.
  - right. destruct s0; [reflexivity | discriminate H].
Qed.

Lemma num_clips_nonpos (D : spec_float) (L : Z) :
  valid64 D = true -> is_finite D = true -> float_le0 D = true ->
  1 <= L < 2 ^ 53 ->
  exists n, num_clips D L = Ok n /\ n <= 0
            /\ ((exists s0, D = S754_zero s0) -> n = 0).
Proof.
  intros Hv Hf Hle HL.
  destruct (float_truediv_finite D L Hv Hf HL) as [E Hq].
  unfold num_clips. rewrite E.
  destruct (float_le0_cases D Hf Hle) as [[s0 ->]|Hs].
  - cbn [float_sign] in Hq. destruct Hq as [Hq|[m [e Hq]]].
    + rewrite Hq. exists 0. repeat split; lia.
    + exfalso. destruct L as [|L|L]; try lia.
      destruct (float_of_int_pos L) as [my [ey [Ey _]]]; [lia|].
      rewrite Ey in Hq. discriminate Hq.
  - rewrite Hs in Hq. destruct (math_ceil_nonpos _ Hq) as [n [En Hn]].
    exists n. split; [exact En|]. split; [exact Hn|].
    intros [s0 ->]. destruct L as [|L|L]; try lia.
    destruct (float_of_int_pos L) as [my [ey [Ey _]]]; [lia|].
    rewrite Ey in En. cbn in En. now injection En as <-.
Qed.

(** C10 (counterexample).  A probed duration of -5 with the default clip
    length: the clip count is -1, not zero. *)
Lemma negative_duration_clip_count :
  let w := quiet_world (u "-5") in
  let D := S754_finite true 5629499534213120 (-50) in
  py_float w (strip (ffprobe_stdout w (u "v.mp4"))) = Some D
  /\ is_finite D = true
  /\ float_le0 D = true
  /\ num_clips D 3 = Ok (-1)
  /\ num_clips D 3 <> Ok 0.
Proof.
  cbv zeta. repeat split; try (vm_compute; reflexivity).
  vm_compute. discriminate.
Qed.

(** C10 (as amended).  When the probed duration is a finite float that is
    not positive, and [1 <= clip_length < 2 ^ 53], the segmenter computes
    a clip count that is not positive (0 for a duration of zero; it can be
    negative, as -1 for a duration of -5 and a clip length of 3), logs it
    and returns without a single transcoder invocation, after the first
    statement has created the output directory where it did not exist. *)
Theorem video_to_gifs_nonpositive (w : world) (video_path output_dir : str)
  (clip_length fps : Z) (s : state) (duration : spec_float) :
  py_float w (strip (ffprobe_stdout w video_path)) = Some duration ->
  valid64 duration = true -> is_finite duration = true ->
  float_le0 duration = true ->
  1 <= clip_length < 2 ^ 53 ->
  exists n,
    num_clips duration clip_length = Ok n
    /\ n <= 0
    /\ ((exists s0, duration = S754_zero s0) -> n = 0)
    /\ video_to_gifs w video_path output_dir clip_length fps s
       = (extend s (ensure_dir_events w output_dir
                    ++ [Probe (ffprobe_command video_path);
                        Console (VideoLength duration);
                        Console (Creating n clip_length)]), Ok tt)
    /\ transcodes (ensure_dir_events w output_dir
                   ++ [Probe (ffprobe_command video_path);
                       Console (VideoLength duration);
                       Console (Creating n clip_length)]) = []
    /\ (path_exists w output_dir = false ->
        hd_error (ensure_dir_events w output_dir) = Some (Makedirs output_dir)).
Proof.
  intros Hd Hv Hf Hle HL.
  destruct (num_clips_nonpos duration clip_length Hv Hf Hle HL)
    as [n [En [Hn Hz]]].
  exists n. split; [exact En|]. split; [exact Hn|]. split; [exact Hz|].
  split; [|split].
  - rewrite video_to_gifs_run, Hd, En. cbv zeta.
    rewrite (py_range_nonpos Hn). cbn [flat_map].
    rewrite <- !app_assoc. reflexivity.
  - rewrite transcodes_app, transcodes_ensure_dir. reflexivity.
  - intros He. unfold ensure_dir_events. rewrite He. reflexivity.
Qed.

Lemma video_to_gifs_nonpositive_witness :
  let w := quiet_world (u "0.0") in
  py_float w (strip (ffprobe_stdout w (u "v.mp4"))) = Some (S754_zero false)
  /\ valid64 (S754_zero false) = true
  /\ is_finite (S754_zero false) = true
  /\ float_le0 (S754_zero false) = true
  /\ 1 <= 3 < 2 ^ 53
  /\ exists n,
       num_clips (S754_zero false) 3 = Ok n /\ n <= 0
       /\ ((exists s0, S754_zero false = S754_zero s0) -> n = 0)
       /\ video_to_gifs w (u "v.mp4") (u "out") 3 15 init
          = (extend init (ensure_dir_events w (u "out")
                          ++ [Probe (ffprobe_command (u "v.mp4"));
                              Console (VideoLength (S754_zero false));
                              Console (Creating n 3)]), Ok tt).
Proof.
  cbv zeta.
  assert (py_float (quiet_world (u "0.0"))
            (strip (ffprobe_stdout (quiet_world (u "0.0")) (u "v.mp4")))
          = Some (S754_zero false)) as H1 by reflexivity.
  assert (1 <= 3 < 2 ^ 53) as H5 by (split; [discriminate | reflexivity]).
  split; [exact H1|]. split; [reflexivity|]. split; [reflexivity|].
  split; [reflexivity|]. split; [exact H5|].
  destruct (video_to_gifs_nonpositive (quiet_world (u "0.0")) (u "v.mp4")
              (u "out") 3 15 init (S754_zero false)
              H1 eq_refl eq_refl eq_refl H5)
    as [n [A [B [C [E _]]]]].
  exists n. repeat split; assumption.
Defined.

(* ================================================================= *)
(** ** binary64: division rounds to nearest *)

Section Locations.

Lemma location_of_exact (R Y : Z) :
  location_of R Y = loc_Exact <-> R = 0.
Proof.
  unfold location_of. destruct (Z.eqb_spec R 0); split; intros H;
    try assumption; try reflexivity; try discriminate; contradiction.
Qed.

Lemma location_of_inexact (R Y : Z) (c : comparison) :
  location_of R Y = loc_Inexact c <-> R <> 0 /\ Z.compare (2 * R) Y = c.
Proof.
  unfold location_of. destruct (Z.eqb_spec R 0); split.
  - discriminate.
  - intros [H _]. contradiction.
  - intros H. injection H as H. now split.
  - intros [_ ->]. reflexivity.
Qed.

Lemma loc_of_shr_record_of_loc (m : Z) (l : location) :
  loc_of_shr_record (shr_record_of_loc m l) = l
  /\ shr_m (shr_record_of_loc m l) = m.
Proof. destruct l as [|[| |]]; split; reflexivity. Qed.

(** One shift halves the fraction. *)
Lemma shr_1_represents (mrs : shr_record) (X Y : Z) :
  0 <= X -> 0 < Y ->
  shr_represents mrs X Y -> shr_represents (shr_1 mrs) X (Y * 2).
Proof.
  intros HX HY [Hm Hl].
  pose proof (Z.mod_pos_bound X Y HY) as HR.
  assert (0 <= X / Y) as Hq by (apply Z.div_pos; lia).
  assert (X mod (Y * 2) = X mod Y + Y * ((X / Y) mod 2)) as Hrem
    by (apply Z.rem_mul_r; lia).
  assert (X / (Y * 2) = X / Y / 2) as Hdiv
    by (rewrite Z.div_div by lia; reflexivity).
  unfold shr_represents. rewrite Hrem, Hdiv, <- Hm.
  set (R := X mod Y) in *.
  rewrite shr_1_m by lia. split; [reflexivity|].
  destruct mrs as [m r s]. cbn [shr_m] in *.
  assert (loc_of_shr_record (shr_1 {| shr_m := m; shr_r := r; shr_s := s |})
          = loc_of_shr_record
              {| shr_m := m / 2; shr_r := Z.odd m; shr_s := r || s |}) as ->.
  { destruct m as [|[p|p|]|p]; try lia; reflexivity. }
  assert (m mod 2 = if Z.odd m then 1 else 0) as ->
    by (rewrite Zmod_odd; reflexivity).
  destruct r, s; cbn [loc_of_shr_record orb] in Hl |- *; symmetry in Hl.
  - apply location_of_inexact in Hl as [Hn Hc].
    apply Z.compare_gt_iff in Hc.
    destruct (Z.odd m); symmetry; apply location_of_inexact; split;
      try lia; [apply Z.compare_gt_iff | apply Z.compare_lt_iff]; lia.
  - apply location_of_inexact in Hl as [Hn Hc].
    apply Z.compare_eq_iff in Hc.
    destruct (Z.odd m); symmetry; apply location_of_inexact; split;
      try lia; [apply Z.compare_gt_iff | apply Z.compare_lt_iff]; lia.
  - apply location_of_inexact in Hl as [Hn Hc].
    apply Z.compare_lt_iff in Hc.
    destruct (Z.odd m); symmetry; apply location_of_inexact; split;
      try lia; [apply Z.compare_gt_iff | apply Z.compare_lt_iff]; lia.
  - apply location_of_exact in Hl.
    destruct (Z.odd m); symmetry.
    + apply location_of_inexact. split; [lia|].
      apply Z.compare_eq_iff. lia.
    + apply location_of_exact. lia.
Qed.

Lemma iter_pos_shr_1_represents (n : positive) (mrs : shr_record) (X Y : Z) :
  0 <= X -> 0 < Y ->
  shr_represents mrs X Y ->
  shr_represents (iter_pos shr_1 n mrs) X (Y * 2 ^ Z.pos n).
Proof.
  intros HX. revert mrs Y.
  induction n as [n IH|n IH|]; intros mrs Y HY H; cbn [iter_pos].
  - apply shr_1_represents in H; try assumption.
    apply IH in H; [|lia].
    apply IH in H; [|apply Z.mul_pos_pos; [lia|apply Z.pow_pos_nonneg; lia]].
    replace (Y * 2 ^ Z.pos n~1) with (Y * 2 * 2 ^ Z.pos n * 2 ^ Z.pos n);
      [exact H|].
    change (Z.pos n~1) with (2 * Z.pos n + 1).
    replace (2 * Z.pos n + 1) with (1 + Z.pos n + Z.pos n) by lia.
    rewrite !Z.pow_add_r by lia. change (2 ^ 1) with 2. ring.
  - apply IH in H; [|lia].
    apply IH in H; [|apply Z.mul_pos_pos; [lia|apply Z.pow_pos_nonneg; lia]].
    replace (Y * 2 ^ Z.pos n~0) with (Y * 2 ^ Z.pos n * 2 ^ Z.pos n);
      [exact H|].
    change (Z.pos n~0) with (2 * Z.pos n).
    replace (2 * Z.pos n) with (Z.pos n + Z.pos n) by lia.
    rewrite !Z.pow_add_r by lia. ring.
  - change (2 ^ 1) with 2. now apply shr_1_represents.
Qed.

(** The location that [SFdiv] computes from the remainder. *)
Lemma new_location_spec (my r : Z) :
  0 <= r < my -> new_location my r = location_of r my.
Proof.
  intros Hr. unfold new_location, location_of.
  destruct (Z.even my) eqn:Ev.
  - reflexivity.
  - unfold new_location_odd. destruct (r =? 0); [reflexivity|]. f_equal.
    assert (Z.odd my = true) as Hodd
      by (rewrite <- Z.negb_even, Ev; reflexivity).
    apply Z.odd_spec in Hodd as [t Ht].
    destruct (Z.compare_spec (2 * r + 1) my);
      symmetry; [apply Z.compare_lt_iff | apply Z.compare_lt_iff
                | apply Z.compare_gt_iff]; lia.
Qed.

(** [shr_fexp], with the location: the record stands for the fraction
    over the larger denominator. *)
Lemma shr_fexp_represents (m e X Y : Z) (l : location) :
  0 <= X -> 0 < Y -> m = X / Y -> l = location_of (X mod Y) Y ->
  exists mrs,
    shr_fexp prec emax m e l
    = (mrs, Z.max e (fexp prec emax (Zdigits2 m + e)))
    /\ shr_represents mrs X
         (Y * 2 ^ (Z.max e (fexp prec emax (Zdigits2 m + e)) - e)).
Proof.
  intros HX HY Hm Hl. unfold shr_fexp, shr.
  assert (shr_represents (shr_record_of_loc m l) X Y) as H0.
  { destruct (loc_of_shr_record_of_loc m l) as [A B].
    split; [now rewrite B | now rewrite A]. }
  destruct (fexp prec emax (Zdigits2 m + e) - e) as [|n|n] eqn:E.
  - exists (shr_record_of_loc m l). split; [f_equal; lia|].
    replace (Z.max _ _ - e) with 0 by lia. now rewrite Z.mul_1_r.
  - exists (iter_pos shr_1 n (shr_record_of_loc m l)).
    split; [f_equal; lia|].
    replace (Z.max _ _ - e) with (Z.pos n) by lia.
    now apply iter_pos_shr_1_represents.
  - exists (shr_record_of_loc m l). split; [f_equal; lia|].
    replace (Z.max _ _ - e) with 0 by lia. now rewrite Z.mul_1_r.
Qed.

(** Rounding to nearest, from the location. *)
Lemma round_nearest_even_spec (m R Y : Z) :
  0 <= R < Y ->
  let m2 := round_nearest_even m (location_of R Y) in
  m <= m2 <= m + 1
  /\ (R = 0 -> m2 = m)
  /\ (2 * R < Y -> m2 = m)
  /\ (Y < 2 * R -> m2 = m + 1).
Proof.
  intros HR. cbv zeta. unfold location_of.
  destruct (Z.eqb_spec R 0) as [->|Hn]; cbn [round_nearest_even].
  - repeat split; lia.
  - destruct (Z.compare_spec (2 * R) Y); cbn [round_nearest_even];
      try (destruct (Z.even m)); repeat split; lia.
Qed.

End Locations.

Section NearestDivision.

Lemma Zdigits2_eq (m k : Z) :
  0 < k -> 2 ^ (k - 1) <= m < 2 ^ k -> Zdigits2 m = k.
Proof.
  intros Hk [Hlo Hhi].
  assert (0 < m) as Hm by (pose proof (Z.pow_pos_nonneg 2 (k - 1)); lia).
  pose proof (Zdigits2_le m k) as Hle.
  pose proof (Zdigits2_lt_pow m) as Hlt.
  pose proof (Zdigits2_nonneg m) as Hnn.
  assert (2 ^ (k - 1) < 2 ^ Zdigits2 m) as H by lia.
  apply Z.pow_lt_mono_r_iff in H; lia.
Qed.

(** The rounding of a fraction whose integer part, at the exponent the
    format wants, is a full mantissa: the result is the nearest multiple
    of [2 ^ e1], written with the exponent [e1] or [e1 + 1]. *)
Lemma binary_round_aux_value (s : bool) (q e' X Y0 : Z) (l : location) :
  0 <= X -> 0 < Y0 -> q = X / Y0 -> l = location_of (X mod Y0) Y0 ->
  let e1 := Z.max e' (fexp prec emax (Zdigits2 q + e')) in
  let Y := Y0 * 2 ^ (e1 - e') in
  let m2 := round_nearest_even (X / Y) (location_of (X mod Y) Y) in
  2 ^ 52 <= X / Y < 2 ^ 53 -> e1 <= 970 ->
  exists m3 e2,
    binary_round_aux prec emax s q e' l = S754_finite s m3 e2
    /\ e1 <= e2 /\ Z.pos m3 * 2 ^ (e2 - e1) = m2.
Proof.
  intros HX HY0 Hq Hl e1 Y m2 Hm1 He1.
  assert (e' <= e1) as Hee by (unfold e1; lia).
  assert (-1074 <= e1) as Hemin
    by (unfold e1, fexp, emin, prec, emax; lia).
  assert (0 < Y) as HY
    by (apply Z.mul_pos_pos; [lia | apply Z.pow_pos_nonneg; lia]).
  unfold binary_round_aux.
  destruct (shr_fexp_represents q e' X Y0 l HX HY0 Hq Hl)
    as [mrs1 [E1 [M1 L1]]].
  fold e1 in E1, M1, L1. fold Y in M1, L1. rewrite E1, M1, L1. fold m2.
  pose proof (round_nearest_even_bounds (X / Y) (location_of (X mod Y) Y))
    as Hr. fold m2 in Hr.
  assert (0 <= m2) as Hm2 by lia.
  destruct (shr_fexp_spec m2 e1 loc_Exact Hm2) as [mrs2 [E2 M2]].
  rewrite E2.
  destruct (Z.eq_dec m2 (2 ^ 53)) as [Hc|Hc].
  - (* the rounding carries into a 54th digit *)
    assert (Zdigits2 m2 = 54) as Hd
      by (apply Zdigits2_eq; [lia | rewrite Hc; split; [reflexivity | reflexivity]]).
    rewrite Hd in *.
    replace (fexp prec emax (54 + e1)) with (e1 + 1) in *
      by (unfold fexp, emin, prec, emax; lia).
    replace (Z.max e1 (e1 + 1)) with (e1 + 1) in * by lia.
    replace (e1 + 1 - e1) with 1 in M2 by lia.
    rewrite Hc in M2. change (2 ^ 53 / 2 ^ 1) with (Z.pos 4503599627370496) in M2.
    rewrite M2. exists 4503599627370496%positive, (e1 + 1).
    replace (e1 + 1 <=? emax - prec) with true
      by (symmetry; apply Z.leb_le; change (emax - prec) with 971; lia).
    split; [reflexivity|]. split; [lia|].
    replace (e1 + 1 - e1) with 1 by lia. rewrite Hc. reflexivity.
  - assert (Zdigits2 m2 = 53) as Hd
      by (apply Zdigits2_eq; [lia | change (53 - 1) with 52; lia]).
    rewrite Hd in *.
    replace (fexp prec emax (53 + e1)) with e1 in *
      by (unfold fexp, emin, prec, emax; lia).
    replace (Z.max e1 e1) with e1 in * by lia.
    replace (e1 - e1) with 0 in M2 by lia.
    change (2 ^ 0) with 1 in M2. rewrite Z.div_1_r in M2.
    rewrite M2. destruct m2 as [|p|p]; try lia.
    exists p, e1.
    replace (e1 <=? emax - prec) with true
      by (symmetry; apply Z.leb_le; change (emax - prec) with 971; lia).
    split; [reflexivity|]. split; [lia|].
    replace (e1 - e1) with 0 by lia. change (2 ^ 0) with 1. lia.
Qed.

End NearestDivision.

Section QuotientValue.

Lemma div_eucl_mod (a b : Z) : snd (Z.div_eucl a b) = a mod b.
Proof. reflexivity. Qed.

Lemma pow2_div (a b : Z) : 0 <= b <= a -> 2 ^ a / 2 ^ b = 2 ^ (a - b).
Proof.
  intros H. replace a with ((a - b) + b) at 1 by lia.
  rewrite Z.pow_add_r by lia. apply Z.div_mul.
  pose proof (Z.pow_pos_nonneg 2 b). lia.
Qed.

(** The quotient of two finite floats, when it is a normal number that
    does not overflow: a full mantissa [X / Y] rounded to nearest, at the
    exponent [e1]. *)
Lemma SFdiv_value (sx : bool) (mx my : positive) (ex ey : Z) :
  let d1 := Z.pos (digits2_pos mx) in
  let d2 := Z.pos (digits2_pos my) in
  -1021 <= d1 + ex - (d2 + ey) <= 1022 ->
  exists s n1 m3 e2,
    0 <= s /\ 0 <= n1 /\
    let e1 := ex - ey - s + n1 in
    let X := Z.pos mx * 2 ^ s in
    let Y := Z.pos my * 2 ^ n1 in
    2 ^ 52 <= X / Y < 2 ^ 53
    /\ SFdiv prec emax (S754_finite sx mx ex) (S754_finite false my ey)
       = S754_finite sx m3 e2
    /\ e1 <= e2
    /\ Z.pos m3 * 2 ^ (e2 - e1)
       = round_nearest_even (X / Y) (location_of (X mod Y) Y)
    /\ e1 <= d1 + ex - (d2 + ey) - 52.
Proof.
  intros d1 d2 HE. unfold SFdiv, SFdiv_core_binary. cbn [Zdigits2].
  fold d1 d2.
  set (E := d1 + ex - (d2 + ey)) in *.
  assert (fexp prec emax E = E - 53) as HfE
    by (unfold fexp, emin, prec, emax; lia).
  rewrite HfE.
  set (e0 := Z.min (E - 53) (ex - ey)).
  set (sft := ex - ey - e0).
  assert (0 <= sft) as Hs by (unfold sft, e0; lia).
  assert (0 < d1) as Hd1 by (unfold d1; lia).
  assert (0 < d2) as Hd2 by (unfold d2; lia).
  assert (53 <= d1 + sft - d2) as Hsft by (unfold sft, e0, E in *; lia).
  set (m' := match sft with
             | 0 => Z.pos mx
             | Z.pos _ => Z.shiftl (Z.pos mx) sft
             | Z.neg _ => 0
             end).
  assert (m' = Z.pos mx * 2 ^ sft) as Hm'.
  { unfold m'. destruct sft as [|p|p] eqn:Es; [cbn; lia| |lia].
    now rewrite Z.shiftl_mul_pow2 by lia. }
  set (X := Z.pos mx * 2 ^ sft) in *.
  pose proof (div_eucl_div m' (Z.pos my)) as Hq.
  pose proof (div_eucl_mod m' (Z.pos my)) as Hr.
  destruct (Z.div_eucl m' (Z.pos my)) as [q r]. cbn [fst snd] in Hq, Hr.
  rewrite Hm' in Hq, Hr.
  assert (0 < 2 ^ sft) as Hp by (apply Z.pow_pos_nonneg; lia).
  assert (0 <= X) as HX by (unfold X; lia).
  pose proof (Z.mod_pos_bound X (Z.pos my) eq_refl) as Hrb.
  rewrite <- Hr in Hrb. rewrite (new_location_spec _ _ Hrb).
  (* the size of the quotient *)
  pose proof (digits2_pos_bounds mx) as [Hmx1 Hmx2]. fold d1 in Hmx1, Hmx2.
  pose proof (digits2_pos_bounds my) as [Hmy1 Hmy2]. fold d2 in Hmy1, Hmy2.
  assert (2 ^ (d1 + sft - d2 - 1) <= q < 2 ^ (d1 + sft - d2 + 1)) as Hqb.
  { rewrite Hq. split.
    - apply Z.div_le_lower_bound; [lia|].
      apply Z.le_trans with (2 ^ d2 * 2 ^ (d1 + sft - d2 - 1)).
      + apply Z.mul_le_mono_nonneg_r; [apply Z.pow_nonneg; lia | lia].
      + rewrite <- Z.pow_add_r by lia.
        replace (d2 + (d1 + sft - d2 - 1)) with (d1 - 1 + sft) by lia.
        rewrite Z.pow_add_r by lia. unfold X.
        apply Z.mul_le_mono_nonneg_r; lia.
    - apply Z.div_lt_upper_bound; [lia|].
      apply Z.lt_le_trans with (2 ^ d1 * 2 ^ sft).
      + unfold X. apply Z.mul_lt_mono_pos_r; lia.
      + rewrite <- Z.pow_add_r by lia.
        apply Z.le_trans with (2 ^ (d2 - 1) * 2 ^ (d1 + sft - d2 + 1)).
        * rewrite <- Z.pow_add_r by lia. apply Z.pow_le_mono_r; lia.
        * apply Z.mul_le_mono_nonneg_r; [apply Z.pow_nonneg; lia | lia]. }
  assert (0 < q) as Hq0
    by (pose proof (Z.pow_pos_nonneg 2 (d1 + sft - d2 - 1)); lia).
  set (dq := Zdigits2 q).
  assert (d1 + sft - d2 <= dq <= d1 + sft - d2 + 1) as Hdq.
  { pose proof (Zdigits2_lt_pow q (Z.lt_le_incl _ _ Hq0)) as A.
    pose proof (Zdigits2_ge_pow q Hq0) as B. fold dq in A, B.
    pose proof (Zdigits2_nonneg q) as C. fold dq in C.
    destruct Hqb as [Q1 Q2]. split.
    - assert (2 ^ (d1 + sft - d2 - 1) < 2 ^ dq) as H by lia.
      apply Z.pow_lt_mono_r_iff in H; lia.
    - assert (2 ^ (dq - 1) < 2 ^ (d1 + sft - d2 + 1)) as H by lia.
      apply Z.pow_lt_mono_r_iff in H; lia. }
  assert (fexp prec emax (dq + e0) = dq + e0 - 53) as Hfq
    by (unfold fexp, emin, prec, emax, sft, E in *; lia).
  assert (Z.max e0 (fexp prec emax (dq + e0)) = e0 + (dq - 53)) as He1
    by (rewrite Hfq; lia).
  (* the integer part at the exponent of the result *)
  assert (X / (Z.pos my * 2 ^ (dq - 53)) = q / 2 ^ (dq - 53)) as Hdiv.
  { rewrite Hq, Z.div_div; [reflexivity | lia|].
    apply Z.pow_pos_nonneg; lia. }
  assert (2 ^ 52 <= q / 2 ^ (dq - 53) < 2 ^ 53) as Hm1.
  { pose proof (Zdigits2_lt_pow q (Z.lt_le_incl _ _ Hq0)) as A.
    pose proof (Zdigits2_ge_pow q Hq0) as B. fold dq in A, B.
    assert (0 < 2 ^ (dq - 53)) by (apply Z.pow_pos_nonneg; lia).
    split.
    - apply Z.div_le_lower_bound; [lia|].
      rewrite <- Z.pow_add_r by lia.
      replace (dq - 53 + 52) with (dq - 1) by lia. exact B.
    - apply div_pow2_lt; try lia.
      replace (dq - 53 + 53) with dq by lia. exact A. }
  rewrite xorb_false_r.
  destruct (binary_round_aux_value sx q e0 X (Z.pos my)
              (location_of r (Z.pos my)) HX eq_refl Hq
              (f_equal (fun t => location_of t (Z.pos my)) Hr))
    as [m3 [e2 [Eq [Hle Hval]]]].
  - fold dq. rewrite He1. replace (e0 + (dq - 53) - e0) with (dq - 53) by lia.
    rewrite Hdiv. exact Hm1.
  - fold dq. rewrite He1. unfold sft, E in *. lia.
  - fold dq in Eq, Hle, Hval. rewrite He1 in Hle, Hval.
    replace (e0 + (dq - 53) - e0) with (dq - 53) in Hval by lia.
    exists sft, (dq - 53), m3, e2.
    split; [exact Hs|]. split; [lia|]. cbv zeta. fold X.
    replace (ex - ey - sft + (dq - 53)) with (e0 + (dq - 53))
      by (unfold sft; lia).
    split; [rewrite Hdiv; exact Hm1|].
    split; [exact Eq|]. split; [exact Hle|]. split; [exact Hval|].
    unfold sft, E in *. lia.
Qed.

End QuotientValue.

Section Ceilings.

Lemma ceil_div_spec (a d c : Z) :
  0 < d -> (c = ceil_div a d <-> (c - 1) * d < a <= c * d).
Proof.
  intros Hd. unfold ceil_div.
  pose proof (Z.div_mod (- a) d ltac:(lia)) as E.
  pose proof (Z.mod_pos_bound (- a) d Hd) as B.
  set (f := - a / d) in *. set (r := (- a) mod d) in *.
  split.
  - intros ->. nia.
  - intros [H1 H2]. nia.
Qed.

(** The ceiling of the nearest multiple of [1 / 2 ^ b] is the ceiling of
    the exact quotient, when the dividend has at most 53 bits and the
    quotient is a full mantissa.  Here [X / Y] is the quotient scaled
    by [2 ^ b], and [W] the common denominator. *)
Lemma nearest_ceiling (mx A P B X Y m2 : Z) :
  0 < mx < 2 ^ 53 -> 0 < A -> 0 < P -> 0 < B -> 0 < Y ->
  X = mx * P -> Y * B = A * P ->
  2 ^ 52 <= X / Y ->
  m2 = round_nearest_even (X / Y) (location_of (X mod Y) Y) ->
  ceil_div m2 B = ceil_div mx A.
Proof.
  intros Hmx HA HP HB HY HXdef HW Hm1 Hm2.
  set (n := ceil_div mx A).
  assert ((n - 1) * A < mx <= n * A) as [Hn1 Hn2]
    by (apply ceil_div_spec; [assumption | reflexivity]).
  pose proof (Z.div_mod X Y ltac:(lia)) as HXY.
  pose proof (Z.mod_pos_bound X Y HY) as HR.
  set (m1 := X / Y) in *. set (R := X mod Y) in *.
  destruct (round_nearest_even_spec m1 R Y HR) as [Hb [Hex [_ Hup]]].
  rewrite <- Hm2 in Hb, Hex, Hup.
  symmetry. apply ceil_div_spec; [assumption|].
  change (2 ^ 52) with 4503599627370496 in Hm1.
  change (2 ^ 53) with 9007199254740992 in Hmx.
  (* the bounds of X in terms of the common denominator *)
  assert ((n - 1) * (Y * B) < X) as HX1 by (rewrite HW, HXdef; nia).
  assert (X <= n * (Y * B)) as HX2 by (rewrite HW, HXdef; nia).
  split.
  - (* from below: the integer just under the quotient is not reached *)
    assert ((n - 1) * B <= m1) as Hle by nia.
    destruct (Z.eq_dec ((n - 1) * B) m1) as [Heq|Hne]; [|lia].
    assert (P <= R) as HPR.
    { assert (R = (mx - (n - 1) * A) * P) as -> by nia.
      assert (1 <= mx - (n - 1) * A) by lia. nia. }
    assert (Y < 2 * P) as HYP by nia.
    rewrite Hup by lia. lia.
  - assert (m1 <= n * B) as Hle by nia.
    destruct (Z.eq_dec m1 (n * B)) as [Heq|Hne]; [|lia].
    assert (R = 0) as HR0 by nia.
    rewrite Hex by assumption. lia.
Qed.

(** The same for the integer part, which is what the ceiling of a
    negative quotient needs. *)
Lemma nearest_floor (mx A P B X Y m2 : Z) :
  0 < mx < 2 ^ 53 -> 0 < A -> 0 < P -> 0 < B -> 0 < Y ->
  X = mx * P -> Y * B = A * P ->
  2 ^ 52 <= X / Y ->
  m2 = round_nearest_even (X / Y) (location_of (X mod Y) Y) ->
  m2 / B = mx / A.
Proof.
  intros Hmx HA HP HB HY HXdef HW Hm1 Hm2.
  pose proof (Z.div_mod mx A ltac:(lia)) as Hn.
  pose proof (Z.mod_pos_bound mx A HA) as Hr.
  set (n := mx / A) in *. set (r := mx mod A) in *.
  pose proof (Z.div_mod X Y ltac:(lia)) as HXY.
  pose proof (Z.mod_pos_bound X Y HY) as HR.
  set (m1 := X / Y) in *. set (R := X mod Y) in *.
  destruct (round_nearest_even_spec m1 R Y HR) as [Hb [_ [Hdn _]]].
  rewrite <- Hm2 in Hb, Hdn.
  change (2 ^ 52) with 4503599627370496 in Hm1.
  change (2 ^ 53) with 9007199254740992 in Hmx.
  assert (n * (Y * B) <= X) as HX1 by (rewrite HW, HXdef; nia).
  assert (X < (n + 1) * (Y * B)) as HX2 by (rewrite HW, HXdef; nia).
  assert (n * B <= m2 < (n + 1) * B) as Hm.
  { split.
    - assert (n * B <= m1) by nia. lia.
    - assert (m1 < (n + 1) * B) as Hlt by nia.
      destruct (Z.eq_dec m1 ((n + 1) * B - 1)) as [Heq|Hne]; [|lia].
      assert (P <= Y - R) as HPR.
      { assert (Y - R = (A - r) * P) as -> by nia.
        assert (1 <= A - r) by lia. nia. }
      assert (Y < 2 * P) as HYP by nia.
      rewrite Hdn by lia. lia. }
  symmetry. apply (Z.div_unique m2 B n (m2 - n * B)); lia.
Qed.

End Ceilings.

Section ExactCount.

Lemma Qceiling_div_int (v : Z) (p L : positive) :
  Qceiling (Qmake v p / inject_Z (Z.pos L)) = ceil_div v (Z.pos L * Z.pos p).
Proof.
  unfold Qceiling, Qfloor, Qdiv, Qmult, Qinv, Qopp, inject_Z, ceil_div.
  cbn [Qnum Qden]. rewrite Z.mul_1_r, Pos2Z.inj_mul.
  now rewrite (Z.mul_comm (Z.pos p)).
Qed.

Lemma float_val_div_ceiling (s : bool) (m : positive) (e : Z) (L : positive) :
  e <= 0 ->
  Qceiling (float_val (S754_finite s m e) / inject_Z (Z.pos L))
  = ceil_div (signed s (Z.pos m)) (Z.pos L * 2 ^ (- e)).
Proof.
  intros He. unfold float_val.
  replace (if s then Z.neg m else Z.pos m) with (signed s (Z.pos m))
    by (destruct s; reflexivity).
  destruct (0 <=? e) eqn:E.
  - apply Z.leb_le in E. assert (e = 0) as -> by lia.
    change (- 0) with 0. change (2 ^ 0) with 1.
    rewrite Z.mul_1_r.
    change (inject_Z (signed s (Z.pos m)))
      with (Qmake (signed s (Z.pos m)) 1).
    now rewrite Qceiling_div_int.
  - rewrite Qceiling_div_int.
    rewrite Z2Pos.id by (apply Z.pow_pos_nonneg; lia). reflexivity.
Qed.

(** [float(L)] for a positive [int] below [2 ^ 53] is exact. *)
Lemma float_of_int_exact (L : positive) :
  Z.pos L < 2 ^ 53 ->
  exists m e,
    float_of_int (Z.pos L) = S754_finite false m e
    /\ Z.pos (digits2_pos m) + e = Z.pos (digits2_pos L)
    /\ e <= 0 /\ Z.pos m = Z.pos L * 2 ^ (- e).
Proof.
  intros HL.
  assert (Zdigits2 (Z.pos L) <= 53) as Hd
    by (apply Zdigits2_le; lia).
  cbn [Zdigits2] in Hd.
  unfold float_of_int, binary_normalize, binary_round, shl_align.
  replace (fexp prec emax (Z.pos (digits2_pos L) + 0))
    with (Z.pos (digits2_pos L) - 53)
    by (unfold fexp, emin, prec, emax; lia).
  destruct (Z.pos (digits2_pos L) - 53 - 0) as [|p|p] eqn:E; [|lia|].
  - assert (digits2_pos L = 53%positive) as HdL by lia.
    exists L, 0. rewrite binary_round_aux_exact by (assumption || lia).
    repeat split; lia.
  - exists (Pos.iter xO L p), (Z.pos (digits2_pos L) - 53).
    assert (digits2_pos (Pos.iter xO L p) = 53%positive) as Hd'
      by (rewrite digits2_pos_iter_xO; lia).
    rewrite binary_round_aux_exact by (assumption || lia).
    split; [reflexivity|]. rewrite Hd'. split; [lia|]. split; [lia|].
    rewrite pos_iter_xO. do 2 f_equal. lia.
Qed.

(** The ceiling that [math.ceil] takes of a finite float, from its
    value as a multiple of [1 / 2 ^ b]. *)
Lemma math_ceil_scaled (s : bool) (m3 : positive) (e2 e1 m2 : Z) :
  e1 <= 0 -> e1 <= e2 -> Z.pos m3 * 2 ^ (e2 - e1) = m2 ->
  math_ceil (S754_finite s m3 e2) = Ok (ceil_div (signed s m2) (2 ^ (- e1))).
Proof.
  intros H1 H2 <-. cbn [math_ceil]. f_equal. unfold ceil_div.
  replace (if s then Z.neg m3 else Z.pos m3) with (signed s (Z.pos m3))
    by (destruct s; reflexivity).
  replace (signed s (Z.pos m3 * 2 ^ (e2 - e1)))
    with (signed s (Z.pos m3) * 2 ^ (e2 - e1))
    by (destruct s; unfold signed; ring).
  generalize (signed s (Z.pos m3)). intros v.
  destruct (0 <=? e2) eqn:E.
  - apply Z.leb_le in E.
    replace (e2 - e1) with (e2 + (- e1)) by lia.
    rewrite Z.pow_add_r by lia.
    replace (- (v * (2 ^ e2 * 2 ^ (- e1))))
      with ((- (v * 2 ^ e2)) * 2 ^ (- e1)) by ring.
    rewrite Z.div_mul by (pose proof (Z.pow_pos_nonneg 2 (- e1)); lia).
    lia.
  - apply Z.leb_gt in E.
    replace (- e1) with ((- e2) + (e2 - e1)) by lia.
    rewrite (Z.pow_add_r 2 (- e2)) by lia.
    replace (- (v * 2 ^ (e2 - e1)))
      with ((- v) * 2 ^ (e2 - e1)) by ring.
    rewrite Z.div_mul_cancel_r;
      [reflexivity | pose proof (Z.pow_pos_nonneg 2 (- e2)); lia
      | pose proof (Z.pow_pos_nonneg 2 (e2 - e1)); lia].
Qed.

(** Both signs of the ceiling argument at once. *)
Lemma nearest_signed_ceiling (s : bool) (mx A P B X Y m2 : Z) :
  0 < mx < 2 ^ 53 -> 0 < A -> 0 < P -> 0 < B -> 0 < Y ->
  X = mx * P -> Y * B = A * P ->
  2 ^ 52 <= X / Y ->
  m2 = round_nearest_even (X / Y) (location_of (X mod Y) Y) ->
  ceil_div (signed s m2) B = ceil_div (signed s mx) A.
Proof.
  intros. destruct s; unfold signed.
  - unfold ceil_div. rewrite !Z.opp_involutive. f_equal.
    apply (nearest_floor mx A P B X Y m2); assumption.
  - apply (nearest_ceiling mx A P B X Y m2); assumption.
Qed.

(** The binary exponent of a finite float whose magnitude lies between
    [2 ^ -969] and [2 ^ 53]. *)
Lemma finite_range_digits (s : bool) (m : positive) (e : Z) :
  (Qmake 1 (Z.to_pos (2 ^ 969)) <= Qabs (float_val (S754_finite s m e)))%Q ->
  (Qabs (float_val (S754_finite s m e)) < inject_Z (2 ^ 53))%Q ->
  -968 <= Z.pos (digits2_pos m) + e <= 53.
Proof.
  unfold float_val.
  replace (if s then Z.neg m else Z.pos m) with (signed s (Z.pos m))
    by (destruct s; reflexivity).
  assert (forall k, Z.abs (signed s (Z.pos m) * k) = Z.pos m * Z.abs k) as Habs.
  { intros k. rewrite Z.abs_mul. f_equal. destruct s; reflexivity. }
  pose proof (digits2_pos_bounds m) as [Hlo Hhi].
  set (d := Z.pos (digits2_pos m)) in *.
  assert (0 < d) as Hd by (unfold d; lia).
  destruct (0 <=? e) eqn:E.
  - apply Z.leb_le in E. intros _.
    unfold Qlt, Qabs, inject_Z. cbn [Qnum Qden].
    rewrite Habs, !Z.mul_1_r, Z.abs_eq by (apply Z.pow_nonneg; lia).
    intros H. split; [lia|].
    assert (2 ^ (d - 1 + e) < 2 ^ 53) as Hp.
    { rewrite Z.pow_add_r by lia.
      pose proof (Z.pow_pos_nonneg 2 e). nia. }
    apply Z.pow_lt_mono_r_iff in Hp; lia.
  - apply Z.leb_gt in E.
    unfold Qle, Qlt, Qabs, inject_Z. cbn [Qnum Qden].
    rewrite Z2Pos.id by (apply Z.pow_pos_nonneg; lia).
    rewrite Z2Pos.id by (apply Z.pow_pos_nonneg; lia).
    rewrite <- (Z.mul_1_r (signed s (Z.pos m))), Habs.
    change (Z.abs 1) with 1. rewrite !Z.mul_1_r, Z.mul_1_l.
    intros H1 H2. split.
    + assert (2 ^ (- e) < 2 ^ (d + 969)) as Hp.
      { rewrite Z.pow_add_r by lia.
        pose proof (Z.pow_pos_nonneg 2 969). nia. }
      apply Z.pow_lt_mono_r_iff in Hp; lia.
    + assert (2 ^ (d - 1) < 2 ^ (53 + - e)) as Hp.
      { rewrite Z.pow_add_r by lia. lia. }
      apply Z.pow_lt_mono_r_iff in Hp; lia.
Qed.

Lemma finite_float_nonzero (s : bool) (m : positive) (e : Z) :
  ~ (float_val (S754_finite s m e) == 0)%Q.
Proof.
  unfold float_val, Qeq.
  destruct (0 <=? e) eqn:E; cbn [Qnum Qden inject_Z].
  - apply Z.leb_le in E. pose proof (Z.pow_pos_nonneg 2 e).
    destruct s; nia.
  - destruct s; lia.
Qed.

(** The clip count of a finite duration in the range where the
    quotient is a normal float. *)
Lemma num_clips_finite_exact (s : bool) (m : positive) (e : Z) (L : positive) :
  valid64 (S754_finite s m e) = true ->
  -968 <= Z.pos (digits2_pos m) + e <= 53 ->
  Z.pos L < 2 ^ 53 ->
  num_clips (S754_finite s m e) (Z.pos L)
  = Ok (Qceiling (float_val (S754_finite s m e) / inject_Z (Z.pos L))).
Proof.
  intros Hv Hrng HL.
  destruct (float_of_int_exact L HL) as (my & ey & Ey & Hdy & Hey & Hmy).
  pose proof (valid64_digits _ _ _ Hv) as (_ & _ & Hfexp).
  pose proof (digits2_pos_bounds m) as [_ Hm].
  pose proof (digits2_pos_bounds L) as [HLlo _].
  assert (e <= 0 /\ Z.pos (digits2_pos m) <= 53) as [He Hd]
    by (revert Hfexp; unfold fexp, emin, prec, emax; lia).
  assert (Z.pos (digits2_pos L) <= 53) as HdL
    by (apply (Zdigits2_le (Z.pos L) 53); lia).
  pose proof (SFdiv_value s m my e ey) as HV. cbv zeta in HV.
  destruct HV as (sh & n1 & m3 & e2 & Hs & Hn1 & H52 & Hdiv & He12 & Hval & He1);
    [lia|].
  unfold num_clips, float_truediv. rewrite Ey, Hdiv.
  rewrite (math_ceil_scaled s m3 e2 (e - ey - sh + n1) _ ltac:(lia) He12 Hval).
  rewrite float_val_div_ceiling by exact He. f_equal.
  apply (nearest_signed_ceiling s (Z.pos m) (Z.pos L * 2 ^ (- e)) (2 ^ sh)
           (2 ^ (- (e - ey - sh + n1)))
           (Z.pos m * 2 ^ sh) (Z.pos my * 2 ^ n1)).
  - split; [lia|]. apply Z.lt_le_trans with (1 := Hm).
    apply Z.pow_le_mono_r; lia.
  - apply Z.mul_pos_pos; [lia | apply Z.pow_pos_nonneg; lia].
  - apply Z.pow_pos_nonneg; lia.
  - apply Z.pow_pos_nonneg; lia.
  - apply Z.mul_pos_pos; [lia | apply Z.pow_pos_nonneg; lia].
  - reflexivity.
  - rewrite Hmy.
    assert (2 ^ (- ey) * 2 ^ n1 * 2 ^ (- (e - ey - sh + n1))
            = 2 ^ (- e) * 2 ^ sh) as Hp.
    { rewrite <- !Z.pow_add_r by lia. f_equal. lia. }
    rewrite <- !Z.mul_assoc. rewrite (Z.mul_assoc (2 ^ (- ey))), Hp.
    reflexivity.
  - apply H52.
  - reflexivity.
Qed.

End ExactCount.

(* ================================================================= *)
(** ** The clip count is the exact ceiling *)

(** C1 (as amended).  For a finite probed duration [D] that is zero or of
    magnitude at least [2 ^ -969] and below [2 ^ 53], and an integer clip
    length [L] with [1 <= L < 2 ^ 53], the clip count
    [math.ceil(duration / clip_length)] is the ceiling of the exact
    quotient [D / L]: the rounding of the float division never moves the
    quotient onto or across an integer.  For [D = 10] and [L = 3] the
    count is 4. *)
Theorem num_clips_exact (D : spec_float) (L : Z) :
  valid64 D = true -> is_finite D = true -> 1 <= L < 2 ^ 53 ->
  (Qabs (float_val D) < inject_Z (2 ^ 53))%Q ->
  (float_val D == 0 \/ 1 # Z.to_pos (2 ^ 969) <= Qabs (float_val D))%Q ->
  num_clips D L = Ok (Qceiling (float_val D / inject_Z L))
  /\ (float_val (float_of_int 10) == inject_Z 10)%Q
  /\ num_clips (float_of_int 10) 3 = Ok 4.
Proof.
  intros Hv Hf HL Hhi Hlo.
  split; [|split; vm_compute; reflexivity].
  destruct L as [|L|L]; try lia.
  destruct D as [s|s| |s m e]; try discriminate Hf.
  - destruct (float_of_int_exact L) as (my & ey & Ey & _); [lia|].
    unfold num_clips, float_truediv. rewrite Ey.
    cbn [SFdiv math_ceil float_val].
    change 0%Q with (Qmake 0 1). rewrite Qceiling_div_int.
    unfold ceil_div. cbn [Z.opp]. now rewrite Z.div_0_l by lia.
  - destruct Hlo as [Hz|Hlo]; [now apply finite_float_nonzero in Hz|].
    apply num_clips_finite_exact; [exact Hv | | lia].
    now apply finite_range_digits with (s := s).
Qed.

Lemma num_clips_exact_witness :
  let D := S754_finite false 5629499534213120 (-49) in
  valid64 D = true /\ is_finite D = true /\ 1 <= 3 < 2 ^ 53
  /\ (float_val D == inject_Z 10)%Q
  /\ num_clips D 3 = Ok (Qceiling (float_val D / inject_Z 3))
  /\ Qceiling (float_val D / inject_Z 3) = 4.
Proof.
  cbv zeta.
  assert (valid64 (S754_finite false 5629499534213120 (-49)) = true) as H1
    by reflexivity.
  assert (is_finite (S754_finite false 5629499534213120 (-49)) = true) as H2
    by reflexivity.
  assert (1 <= 3 < 2 ^ 53) as H3 by (split; [discriminate | reflexivity]).
  assert (Qabs (float_val (S754_finite false 5629499534213120 (-49)))
          < inject_Z (2 ^ 53))%Q as H4 by (vm_compute; reflexivity).
  assert (float_val (S754_finite false 5629499534213120 (-49)) == 0
          \/ 1 # Z.to_pos (2 ^ 969)
             <= Qabs (float_val (S754_finite false 5629499534213120 (-49))))%Q
    as H5 by (right; vm_compute; discriminate).
  split; [exact H1|]. split; [exact H2|]. split; [exact H3|].
  split; [reflexivity|].
  split; [|reflexivity].
  exact (proj1 (num_clips_exact _ 3 H1 H2 H3 H4 H5)).
Defined.

(* ================================================================= *)
(** * Further properties of the code *)

(* ================================================================= *)
(** ** File names *)

Section Stripping.

Variable p : char -> bool.

Lemma lstrip_by_id (s : str) :
  (forall c r, s = c :: r -> p c = false) -> lstrip_by p s = s.
Proof.
  destruct s as [|c r]; intros H; [reflexivity|].
  cbn [lstrip_by]. now rewrite (H c r eq_refl).
Qed.

Lemma rstrip_by_id (s : str) :
  (forall r c, s = r ++ [c] -> p c = false) -> rstrip_by p s = s.
Proof.
  intros H. unfold rstrip_by. rewrite lstrip_by_id; [apply rev_involutive|].
  intros c r E. apply (H (rev r) c).
  rewrite <- (rev_involutive s), E. reflexivity.
Qed.

Lemma strip_by_id (s : str) :
  (forall c r, s = c :: r -> p c = false) ->
  (forall r c, s = r ++ [c] -> p c = false) ->
  strip_by p s = s.
Proof.
  intros H1 H2. unfold strip_by. rewrite lstrip_by_id by exact H1.
  now apply rstrip_by_id.
Qed.

(** Stripping twice is stripping once. *)
Lemma strip_by_idempotent (s : str) :
  strip_by p (strip_by p s) = strip_by p s.
Proof.
  apply strip_by_id.
  - intros c r E. exact (@strip_by_head p s c r E).
  - intros r c E. exact (@strip_by_last p s r c E).
Qed.

(** A suffix that neither starts nor ends with a stripped character is
    kept whole. *)
Lemma strip_by_app_kept (s : str) (c : char) (m : str) (d : char) :
  p c = false -> p d = false ->
  strip_by p (s ++ c :: m ++ [d]) = lstrip_by p s ++ c :: m ++ [d].
Proof.
  intros Hc Hd. unfold strip_by.
  assert (lstrip_by p (s ++ c :: m ++ [d]) = lstrip_by p s ++ c :: m ++ [d])
    as ->.
  { destruct (lstrip_by p s) as [|a r] eqn:E.
    - destruct (@lstrip_by_suffix p s) as [w0 [Hs Hw]].
      rewrite E, app_nil_r in Hs. subst w0.
      rewrite (@lstrip_by_all p s _ Hw). cbn [lstrip_by app]. now rewrite Hc.
    - now apply (@lstrip_by_app_kept p). }
  apply rstrip_by_id. intros r x E.
  assert (x = d) as ->; [|exact Hd].
  change (lstrip_by p s ++ c :: m ++ [d])
    with (lstrip_by p s ++ (c :: m) ++ [d]) in E.
  rewrite !app_assoc in E. now apply app_inj_tail in E as [_ ->].
Qed.

End Stripping.

Lemma replace_char_nil_id (c : char) (s : str) :
  ~ In c s -> replace_char c [] s = s.
Proof.
  induction s as [|a s IH]; intros H; [reflexivity|].
  cbn [replace_char flat_map]. unfold char_eqb.
  destruct (N.eqb_spec a c) as [->|Hn].
  - exfalso. apply H. now left.
  - cbn [app]. f_equal. apply IH. intros Hin. apply H. now right.
Qed.

Lemma remove_all_id (cs name : str) :
  (forall c, In c cs -> ~ In c name) ->
  fold_left (fun name ch => replace_char ch [] name) cs name = name.
Proof.
  induction cs as [|c cs IH]; intros H; [reflexivity|].
  cbn [fold_left]. rewrite replace_char_nil_id by (apply H; now left).
  apply IH. intros x Hx. apply H. now right.
Qed.

Lemma remove_all_app (cs a b : str) :
  fold_left (fun name ch => replace_char ch [] name) cs (a ++ b)
  = fold_left (fun name ch => replace_char ch [] name) cs a
    ++ fold_left (fun name ch => replace_char ch [] name) cs b.
Proof.
  revert a b. induction cs as [|c cs IH]; intros a b; [reflexivity|].
  cbn [fold_left]. now rewrite replace_char_app, IH.
Qed.

Lemma remove_all_length (cs name : str) :
  (List.length (fold_left (fun name ch => replace_char ch [] name) cs name)
   <= List.length name)%nat.
Proof.
  revert name. induction cs as [|c cs IH]; intros name; [apply Nat.le_refl|].
  cbn [fold_left]. eapply Nat.le_trans; [apply IH|].
  apply replace_char_nil_length.
Qed.

Lemma replace_space_length (s : str) :
  List.length (replace_char 32%N (u "_") s) = List.length s.
Proof.
  induction s as [|a s IH]; [reflexivity|].
  cbn [replace_char flat_map]. rewrite length_app.
  fold (replace_char 32%N (u "_") s). rewrite IH.
  destruct (char_eqb a 32%N); reflexivity.
Qed.

Lemma replace_space_no_space (s : str) :
  ~ In 32%N (replace_char 32%N (u "_") s).
Proof.
  induction s as [|a s IH]; [intros []|].
  cbn [replace_char flat_map]. fold (replace_char 32%N (u "_") s).
  intros H. apply in_app_or in H as [H|H]; [|now apply IH].
  unfold char_eqb in H. destruct (N.eqb_spec a 32%N) as [->|Hn].
  - destruct H as [H|[]]. discriminate H.
  - destruct H as [H|[]]. congruence.
Qed.

Lemma replace_space_map (s : str) :
  replace_char 32%N (u "_") s
  = map (fun c => if char_eqb c 32%N then 95%N else c) s.
Proof.
  induction s as [|a s IH]; [reflexivity|].
  cbn [replace_char flat_map map]. fold (replace_char 32%N (u "_") s).
  rewrite IH. destruct (char_eqb a 32%N); reflexivity.
Qed.

Lemma replace_space_in (s : str) (c : char) :
  In c (replace_char 32%N (u "_") s) -> In c s \/ c = 95%N.
Proof.
  rewrite replace_space_map, in_map_iff. intros [a [E Ha]].
  destruct (char_eqb a 32%N); [right; congruence | left; congruence].
Qed.

(** The result is made of characters of the name. *)
Lemma sanitize_filename_incl (name : str) (c : char) :
  In c (sanitize_filename name) -> In c name.
Proof.
  intros Hin. unfold sanitize_filename, strip_chars, strip in Hin.
  apply strip_by_incl, strip_by_incl in Hin.
  assert (In c (fold_left (fun name ch => replace_char ch [] name)
                  invalid_chars name)) as H.
  { destruct (100 <? _)%nat in Hin; [now apply firstn_incl in Hin | assumption]. }
  now apply remove_all_in in H.
Qed.

(** X1.  For every name, the result of [sanitize_filename] holds none of
    the nine characters that it removes, has at most 100 characters,
    neither starts nor ends with a dot, and is made of characters of the
    name only. *)
Theorem sanitize_filename_safe (name : str) :
  (forall c, In c invalid_chars -> ~ In c (sanitize_filename name))
  /\ (List.length (sanitize_filename name) <= 100)%nat
  /\ (forall r, sanitize_filename name <> 46%N :: r)
  /\ (forall r, sanitize_filename name <> r ++ [46%N])
  /\ (forall c, In c (sanitize_filename name) -> In c name).
Proof.
  split; [intros c; apply sanitize_filename_no_invalid|].
  split; [apply sanitize_filename_length|].
  split; [apply sanitize_filename_no_dot_ends|].
  split; [apply sanitize_filename_no_dot_ends|].
  intros c. apply sanitize_filename_incl.
Qed.

(** X2.  A name that holds none of the nine characters, has at most 100
    characters, and whose first and last characters are neither white
    space nor a dot, is returned unchanged. *)
Theorem sanitize_filename_clean (name : str) :
  (forall c, In c invalid_chars -> ~ In c name) ->
  (List.length name <= 100)%nat ->
  (forall c r, name = c :: r -> stripped_char c = false) ->
  (forall r c, name = r ++ [c] -> stripped_char c = false) ->
  sanitize_filename name = name.
Proof.
  intros Hinv Hlen Hhd Hlast. unfold sanitize_filename.
  rewrite remove_all_id by exact Hinv.
  replace (100 <? List.length name)%nat with false
    by (symmetry; apply Nat.ltb_ge; exact Hlen).
  assert (strip name = name) as ->.
  { apply strip_by_id.
    - intros c r E. apply Hhd in E. unfold stripped_char in E.
      now apply orb_false_elim in E.
    - intros r c E. apply Hlast in E. unfold stripped_char in E.
      now apply orb_false_elim in E. }
  apply strip_by_id.
  - intros c r E. apply Hhd in E. unfold stripped_char in E.
    apply orb_false_elim in E as [_ E].
    change (char_eqb c 46%N || false = false). now rewrite E.
  - intros r c E. apply Hlast in E. unfold stripped_char in E.
    apply orb_false_elim in E as [_ E].
    change (char_eqb c 46%N || false = false). now rewrite E.
Qed.

Lemma sanitize_filename_clean_witness :
  sanitize_filename (u "My clip (2024) - part 1.mp4")
  = u "My clip (2024) - part 1.mp4".
Proof.
  apply sanitize_filename_clean.
  - intros c Hc Hin. vm_compute in Hc.
    repeat (destruct Hc as [<-|Hc];
            [vm_compute in Hin; intuition discriminate|]).
    exact Hc.
  - apply Nat.leb_le. reflexivity.
  - intros c r E. injection E as <- _. reflexivity.
  - intros r c E.
    change (u "My clip (2024) - part 1.mp4")
      with (u "My clip (2024) - part 1.mp" ++ [52%N]) in E.
    apply app_inj_tail in E as [_ <-]. reflexivity.
Defined.

(* ================================================================= *)
(** ** The folder of the clips *)

(** X3.  The folder that receives the clips, which the main program and
    [start_process] both join to the fixed base directory, holds no
    space, none of the nine characters that [sanitize_filename] removes,
    and at most 100 characters, whatever the title. *)
Theorem folder_name_safe (w : world) (title : str) (auto : bool) :
  final_output_dir w title = os_path_join w gif_base (folder_name title)
  /\ gif_directory w (GiphyUploader_init w title auto)
     = os_path_join w gif_base (folder_name title)
  /\ ~ In 32%N (folder_name title)
  /\ (forall c, In c invalid_chars -> ~ In c (folder_name title))
  /\ (List.length (folder_name title) <= 100)%nat.
Proof.
  split; [reflexivity|]. split; [reflexivity|].
  split; [|split].
  - intros H. unfold folder_name in H. apply sanitize_filename_incl in H.
    apply in_app_or in H as [H|H].
    + now apply replace_space_no_space in H.
    + vm_compute in H. intuition discriminate.
  - intros c Hc. now apply sanitize_filename_no_invalid.
  - apply sanitize_filename_length.
Qed.

(** X4.  For a title of at most 95 characters the folder name ends with
    [_gifs]: nothing is cut off, and stripping touches the front only.
    What stands before the suffix is the title with its spaces replaced
    and the nine characters removed, without its leading white space
    and, after that, its leading dots. *)
Theorem folder_name_suffix (title : str) :
  (List.length title <= 95)%nat ->
  let cleaned :=
    fold_left (fun name ch => replace_char ch [] name) invalid_chars
      (replace_char 32%N (u "_") title) in
  folder_name title
  = lstrip_by (fun c => existsb (char_eqb c) (u "."))
      (lstrip_by isspace cleaned) ++ u "_gifs".
Proof.
  intros Hlen cleaned. unfold folder_name, sanitize_filename.
  rewrite remove_all_app. fold cleaned.
  change (fold_left (fun name ch => replace_char ch [] name) invalid_chars
            (u "_gifs")) with (u "_gifs").
  assert (List.length cleaned <= 95)%nat as Hc.
  { unfold cleaned. eapply Nat.le_trans; [apply remove_all_length|].
    now rewrite replace_space_length. }
  replace (100 <? List.length (cleaned ++ u "_gifs"))%nat with false
    by (symmetry; apply Nat.ltb_ge; rewrite length_app;
        change (List.length (u "_gifs")) with 5%nat; lia).
  unfold strip, strip_chars.
  change (u "_gifs") with (95%N :: [103%N; 105%N; 102%N] ++ [115%N]).
  rewrite strip_by_app_kept by reflexivity.
  now rewrite strip_by_app_kept by reflexivity.
Qed.

Lemma folder_name_suffix_witness :
  folder_name (9%N :: u "..My clip: part 1?") = u "My_clip_part_1_gifs".
Proof.
  rewrite folder_name_suffix.
  - reflexivity.
  - apply Nat.leb_le. reflexivity.
Defined.

(** X5.  For a title of 100 characters or more that holds none of the
    nine characters, the suffix [_gifs] is cut off whole: the folder name
    is made of the first 100 characters of the title alone, so that two
    such titles with the same first 100 characters get the same folder. *)
Theorem folder_name_long_title (t1 t2 : str) :
  (forall c, In c invalid_chars -> ~ In c t1) ->
  (forall c, In c invalid_chars -> ~ In c t2) ->
  (100 <= List.length t1)%nat -> (100 <= List.length t2)%nat ->
  firstn 100 t1 = firstn 100 t2 ->
  folder_name t1
  = strip_chars (u ".") (strip (replace_char 32%N (u "_") (firstn 100 t1)))
  /\ folder_name t1 = folder_name t2.
Proof.
  assert (forall t, (forall c, In c invalid_chars -> ~ In c t) ->
                    (100 <= List.length t)%nat ->
                    folder_name t
                    = strip_chars (u ".")
                        (strip (replace_char 32%N (u "_") (firstn 100 t))))
    as H.
  { intros t Hinv Hlen. unfold folder_name, sanitize_filename.
    rewrite remove_all_id.
    - replace (100 <? List.length (replace_char 32%N (u "_") t ++ u "_gifs"))%nat
        with true
        by (symmetry; apply Nat.ltb_lt;
            rewrite length_app, replace_space_length;
            change (List.length (u "_gifs")) with 5%nat; lia).
      rewrite firstn_app, replace_space_length.
      replace (100 - List.length t)%nat with 0%nat by lia.
      rewrite firstn_O, app_nil_r.
      now rewrite !replace_space_map, firstn_map.
    - intros c Hc Hin. apply in_app_or in Hin as [Hin|Hin].
      + apply replace_space_in in Hin as [Hin| ->].
        * exact (Hinv c Hc Hin).
        * vm_compute in Hc. intuition discriminate.
      + vm_compute in Hin.
        repeat (destruct Hin as [<-|Hin];
                [vm_compute in Hc; intuition discriminate|]).
        exact Hin. }
  intros H1 H2 L1 L2 E. split; [now apply H|].
  rewrite (H t1 H1 L1), (H t2 H2 L2). now rewrite E.
Qed.

Lemma folder_name_long_title_witness :
  folder_name (repeat 97%N 100 ++ u " one") = repeat 97%N 100
  /\ folder_name (repeat 97%N 100 ++ u " one")
     = folder_name (repeat 97%N 100 ++ u " two")
  /\ folder_name (repeat 46%N 100) = [].
Proof.
  assert (forall c t, In c invalid_chars ->
            forallb (fun x => negb (existsb (char_eqb x) invalid_chars)) t = true ->
            ~ In c t) as Hinv.
  { intros c t Hc Ht Hin. rewrite forallb_forall in Ht.
    specialize (Ht c Hin). apply negb_true_iff in Ht.
    assert (existsb (char_eqb c) invalid_chars = true) as E; [|congruence].
    apply existsb_exists. exists c. split; [exact Hc | apply N.eqb_refl]. }
  destruct (folder_name_long_title
              (repeat 97%N 100 ++ u " one") (repeat 97%N 100 ++ u " two"))
    as [E1 E2].
  - intros c Hc. apply Hinv; [exact Hc | reflexivity].
  - intros c Hc. apply Hinv; [exact Hc | reflexivity].
  - apply Nat.leb_le. reflexivity.
  - apply Nat.leb_le. reflexivity.
  - reflexivity.
  - split; [rewrite E1; reflexivity|]. split; [exact E2|]. reflexivity.
Defined.

(* ================================================================= *)
(** ** The tags that are pasted *)

Lemma split_char_no_sep (sep : char) (s : str) (w : str) :
  In w (split_char sep s) -> ~ In sep w.
Proof.
  revert w. induction s as [|c s IH]; intros w; cbn [split_char].
  - intros [<-|[]] [].
  - unfold char_eqb. destruct (N.eqb_spec c sep) as [->|Hn].
    + intros [<-|H]; [intros [] | now apply IH].
    + destruct (split_char sep s) as [|x xs].
      * intros [<-|[]] [E|[]]. congruence.
      * intros [<-|H].
        -- intros [E|E]; [congruence|]. apply (IH x); [now left | exact E].
        -- apply IH. now right.
Qed.

Lemma split_char_incl (sep : char) (s : str) (w : str) (c : char) :
  In w (split_char sep s) -> In c w -> In c s.
Proof.
  revert w. induction s as [|a s IH]; intros w; cbn [split_char].
  - intros [<-|[]] [].
  - destruct (char_eqb a sep).
    + intros [<-|H]; [intros [] | right; now apply (IH w)].
    + destruct (split_char sep s) as [|x xs].
      * intros [<-|[]] [E|[]]. now left.
      * intros [<-|H].
        -- intros [E|E]; [now left | right]. apply (IH x); [now left | exact E].
        -- intros Hc. right. apply (IH w); [now right | exact Hc].
Qed.

(** X6.  Whatever the text model answers, the list of tags that is pasted
    is not empty, and each of its tags is not empty, has no white space at
    its ends, and holds no comma and no newline. *)
Theorem response_tags_wellformed (r : str) :
  response_tags r <> []
  /\ Forall (fun tag => tag <> [] /\ strip tag = tag
                        /\ ~ In 44%N tag /\ ~ In 10%N tag)
       (response_tags r).
Proof.
  unfold response_tags. cbv zeta.
  destruct (map strip _) as [|t ts] eqn:E.
  - split; [discriminate|].
    repeat (apply Forall_cons;
            [split; [discriminate|]; split; [reflexivity|];
             split; vm_compute; intuition discriminate|]).
    apply Forall_nil.
  - split; [discriminate|]. rewrite <- E. apply Forall_forall.
    intros tag Htag. apply in_map_iff in Htag as [x [<- Hx]].
    apply filter_In in Hx as [Hx Hne].
    split; [|split; [|split]].
    + destruct (strip x); [discriminate Hne | discriminate].
    + apply strip_by_idempotent.
    + intros H. apply strip_by_incl in H.
      exact (split_char_no_sep _ _ _ Hx H).
    + intros H. apply strip_by_incl in H.
      apply (split_char_incl _ _ _ _ Hx) in H.
      apply replace_char_nil_in in H. now destruct H.
Qed.

Lemma emitted_tags_paste (tags : list str) :
  emitted_tags (flat_map paste_events tags) = tags.
Proof.
  induction tags as [|t ts IH]; [reflexivity|].
  cbn [flat_map]. rewrite emitted_tags_app, IH. reflexivity.
Qed.

(** X7.  When the text model is available and no action raises,
    [generate_and_paste_tags] asks the model once, with the prompt built
    from the topic, and copies to the clipboard exactly the tags parsed
    from the answer, in their order. *)
Theorem generated_tags_pasted (w : world) (self : GiphyUploader) :
  gemini_available self = true ->
  (forall j, fault w j = None) ->
  exists s',
    generate_and_paste_tags w self (video_title self) init = (s', Ok tt)
    /\ emitted_tags (trace s')
       = response_tags (response_text w (tag_prompt (video_title self)))
    /\ filter (fun ev => match ev with Generate _ => true | _ => false end)
         (trace s')
       = [Generate (tag_prompt (video_title self))].
Proof.
  intros Ha Hf. eexists. split.
  - apply tags_ok. intros j _. apply Hf.
  - cbn [trace app]. unfold tags_events. rewrite Ha.
    unfold tags_try_events. cbv zeta.
    set (tags := response_tags _). split.
    + rewrite !emitted_tags_app, emitted_tags_paste. cbn. apply app_nil_r.
    + rewrite !filter_app.
      assert (filter (fun ev => match ev with Generate _ => true | _ => false end)
                (flat_map paste_events tags) = []) as ->.
      { induction tags as [|t ts IH]; [reflexivity|].
        cbn [flat_map]. rewrite filter_app, IH. reflexivity. }
      reflexivity.
Qed.

Lemma generated_tags_pasted_witness :
  let w := quiet_world (u "10") in
  let self := GiphyUploader_init w (u "Demo") true in
  exists s',
    generate_and_paste_tags w self (video_title self) init = (s', Ok tt)
    /\ emitted_tags (trace s') = [u "#demo"; u "#gif"].
Proof.
  cbv zeta.
  destruct (generated_tags_pasted (quiet_world (u "10"))
              (GiphyUploader_init (quiet_world (u "10")) (u "Demo") true))
    as [s' [E [T _]]].
  - reflexivity.
  - intros j. reflexivity.
  - exists s'. split; [exact E|]. rewrite T. reflexivity.
Defined.

(* ================================================================= *)
(** ** The clip count at the edges *)

Lemma float_of_int_finite (L : Z) :
  1 <= L < 2 ^ 53 ->
  exists m e, float_of_int L = S754_finite false m e.
Proof.
  intros HL. destruct L as [|L|L]; try lia.
  destruct (float_of_int_exact L) as (m & e & E & _); [lia|]. eauto.
Qed.

(** [math.ceil] of a quotient that is not finite. *)
Lemma num_clips_not_finite (duration : spec_float) (L : Z) :
  is_finite duration = false -> 1 <= L < 2 ^ 53 ->
  exists e,
    num_clips duration L = Raised e
    /\ exn_cls e = match duration with
                   | S754_nan => ValueError
                   | _ => OverflowError
                   end.
Proof.
  intros Hf HL. destruct (float_of_int_finite L HL) as (m & e & E).
  unfold num_clips, float_truediv. rewrite E.
  destruct duration as [s|s| |s m' e']; try discriminate Hf;
    cbn [SFdiv math_ceil]; eexists; split; reflexivity.
Qed.

(** X8.  A probe output that [float] reads as [nan] or as an infinity
    is not caught by the [except ValueError] of [video_to_gifs], which
    covers the call of [float] alone: [math.ceil] raises [ValueError]
    for [nan] and [OverflowError] for an infinity, and the exception
    leaves the function after the directory has been prepared and the
    video length printed, with no transcoder run. *)
Theorem video_to_gifs_not_finite (w : world) (video_path output_dir : str)
  (clip_length fps : Z) (s : state) (duration : spec_float) :
  py_float w (strip (ffprobe_stdout w video_path)) = Some duration ->
  is_finite duration = false ->
  1 <= clip_length < 2 ^ 53 ->
  exists e,
    video_to_gifs w video_path output_dir clip_length fps s
    = (extend s (ensure_dir_events w output_dir
                 ++ [Probe (ffprobe_command video_path);
                     Console (VideoLength duration)]),
       Raised e)
    /\ exn_cls e = match duration with
                   | S754_nan => ValueError
                   | _ => OverflowError
                   end
    /\ is_Exception e = true.
Proof.
  intros Hp Hf HL.
  destruct (num_clips_not_finite duration clip_length Hf HL) as (e & En & Hc).
  exists e. rewrite video_to_gifs_run. cbv zeta. rewrite Hp, En.
  split; [now rewrite <- app_assoc|]. split; [exact Hc|].
  unfold is_Exception. rewrite Hc. now destruct duration.
Qed.

Lemma video_to_gifs_not_finite_witness :
  let w := with_special_floats (sunny_world (u "nan" ++ [10%N])) in
  exists e,
    video_to_gifs w (u "v.mp4") (u "out") 3 15 init
    = (extend init [Makedirs (u "out"); Console (CreatedDir (u "out"));
                    Probe (ffprobe_command (u "v.mp4"));
                    Console (VideoLength S754_nan)],
       Raised e)
    /\ exn_cls e = ValueError.
Proof.
  cbv zeta.
  destruct (video_to_gifs_not_finite
              (with_special_floats (sunny_world (u "nan" ++ [10%N])))
              (u "v.mp4") (u "out") 3 15 init S754_nan)
    as (e & E & Hc & _).
  - reflexivity.
  - reflexivity.
  - split; [discriminate | reflexivity].
  - exists e. split; [exact E | exact Hc].
Defined.

(** X9.  With a clip length of zero the division raises
    [ZeroDivisionError] whatever the duration is: the exception leaves
    [video_to_gifs] after the probe, and no transcoder is run. *)
Theorem video_to_gifs_zero_clip_length (w : world)
  (video_path output_dir : str) (fps : Z) (s : state) (duration : spec_float) :
  py_float w (strip (ffprobe_stdout w video_path)) = Some duration ->
  video_to_gifs w video_path output_dir 0 fps s
  = (extend s (ensure_dir_events w output_dir
               ++ [Probe (ffprobe_command video_path);
                   Console (VideoLength duration)]),
     Raised (Exn ZeroDivisionError (u "float division by zero"))).
Proof.
  intros Hp. rewrite video_to_gifs_run. cbv zeta. rewrite Hp.
  change (num_clips duration 0)
    with (@Raised Z (Exn ZeroDivisionError (u "float division by zero"))).
  now rewrite <- app_assoc.
Qed.

Lemma video_to_gifs_zero_clip_length_witness :
  let w := quiet_world (u "10") in
  video_to_gifs w (u "v.mp4") (u "out") 0 15 init
  = (extend init [Makedirs (u "out"); Console (CreatedDir (u "out"));
                  Probe (ffprobe_command (u "v.mp4"));
                  Console (VideoLength
                             (S754_finite false 5629499534213120 (-49)))],
     Raised (Exn ZeroDivisionError (u "float division by zero"))).
Proof.
  cbv zeta.
  rewrite (video_to_gifs_zero_clip_length (quiet_world (u "10")) (u "v.mp4")
             (u "out") 15 init (S754_finite false 5629499534213120 (-49)));
    reflexivity.
Defined.

(* ================================================================= *)
(** ** The clips cover the video *)

(** The clip count of a duration in the range where the division is
    harmless. *)
Lemma num_clips_in_range (D : spec_float) (L : Z) :
  valid64 D = true -> is_finite D = true -> 1 <= L < 2 ^ 53 ->
  (Qabs (float_val D) < inject_Z (2 ^ 53))%Q ->
  (float_val D == 0 \/ 1 # Z.to_pos (2 ^ 969) <= Qabs (float_val D))%Q ->
  num_clips D L = Ok (Qceiling (float_val D / inject_Z L)).
Proof.
  intros Hv Hf HL Hhi Hlo.
  destruct L as [|L|L]; try lia.
  destruct D as [s|s| |s m e]; try discriminate Hf.
  - destruct (float_of_int_exact L) as (my & ey & Ey & _); [lia|].
    unfold num_clips, float_truediv. rewrite Ey.
    cbn [SFdiv math_ceil float_val].
    change 0%Q with (Qmake 0 1). rewrite Qceiling_div_int.
    unfold ceil_div. cbn [Z.opp]. now rewrite Z.div_0_l by lia.
  - destruct Hlo as [Hz|Hlo]; [now apply finite_float_nonzero in Hz|].
    apply num_clips_finite_exact; [exact Hv | | lia].
    now apply finite_range_digits with (s := s).
Qed.

Lemma ceiling_of_quotient (x : Q) (L : Z) :
  0 < L ->
  let n := Qceiling (x / inject_Z L) in
  (inject_Z ((n - 1) * L) < x /\ x <= inject_Z (n * L))%Q.
Proof.
  intros HL n.
  assert (0 < inject_Z L)%Q as HLq
    by (unfold Qlt, inject_Z; cbn [Qnum Qden]; lia).
  assert (~ inject_Z L == 0)%Q as Hne
    by (intros E; rewrite E in HLq; now apply Qlt_irrefl in HLq).
  assert (x / inject_Z L * inject_Z L == x)%Q as Hx
    by (rewrite Qmult_comm; now apply Qmult_div_r).
  rewrite !inject_Z_mult. split.
  - apply Qlt_le_trans with (x / inject_Z L * inject_Z L)%Q;
      [|rewrite Hx; apply Qle_refl].
    apply Qmult_lt_compat_r; [exact HLq|]. apply Qceiling_lt.
  - apply Qle_trans with (x / inject_Z L * inject_Z L)%Q;
      [rewrite Hx; apply Qle_refl|].
    apply Qmult_le_compat_r; [|now apply Qlt_le_weak]. apply Qle_ceiling.
Qed.

(** X10.  For a duration [D] that is zero or of magnitude between
    [2 ^ -969] and [2 ^ 53], and a clip length [L] with
    [1 <= L < 2 ^ 53], the planned clips cover the video and none starts
    at or after its end: with [n] the clip count, [(n - 1) * L < D <= n * L].
    A video of positive length gets at least one clip. *)
Theorem clips_cover_video (D : spec_float) (L : Z) :
  valid64 D = true -> is_finite D = true -> 1 <= L < 2 ^ 53 ->
  (Qabs (float_val D) < inject_Z (2 ^ 53))%Q ->
  (float_val D == 0 \/ 1 # Z.to_pos (2 ^ 969) <= Qabs (float_val D))%Q ->
  exists n,
    num_clips D L = Ok n
    /\ (inject_Z ((n - 1) * L) < float_val D)%Q
    /\ (float_val D <= inject_Z (n * L))%Q
    /\ ((0 < float_val D)%Q -> 1 <= n).
Proof.
  intros Hv Hf HL Hhi Hlo.
  exists (Qceiling (float_val D / inject_Z L)).
  split; [now apply num_clips_in_range|].
  destruct (ceiling_of_quotient (float_val D) L ltac:(lia)) as [H1 H2].
  split; [exact H1|]. split; [exact H2|].
  intros Hpos.
  set (n := Qceiling (float_val D / inject_Z L)) in *.
  assert (0 < inject_Z (n * L))%Q as Hn
    by (eapply Qlt_le_trans; eassumption).
  unfold Qlt, inject_Z in Hn. cbn [Qnum Qden] in Hn. nia.
Qed.

Lemma clips_cover_video_witness :
  let D := S754_finite false 5629499534213120 (-49) in
  (float_val D == inject_Z 10)%Q
  /\ exists n,
       num_clips D 3 = Ok n
       /\ (inject_Z ((n - 1) * 3) < float_val D)%Q
       /\ (float_val D <= inject_Z (n * 3))%Q
       /\ n = 4.
Proof.
  cbv zeta. split; [reflexivity|].
  destruct (clips_cover_video (S754_finite false 5629499534213120 (-49)) 3)
    as (n & En & H1 & H2 & _).
  - reflexivity.
  - reflexivity.
  - split; [discriminate | reflexivity].
  - vm_compute. reflexivity.
  - right. vm_compute. discriminate.
  - exists n. split; [exact En|]. split; [exact H1|]. split; [exact H2|].
    vm_compute in En. now injection En as <-.
Defined.

(* ================================================================= *)
(** ** Runs of [start_process] *)

Section QuietRuns.

Variable w : world.

Lemma script_raised_fault (l : list event) (s s' : state) (e : exn) :
  script w l s = (s', Raised e) -> exists j, fault w j = Some e.
Proof.
  revert s. induction l as [|ev l IH]; intros s.
  - discriminate.
  - unfold script. cbn [for_each]. unfold bind at 1, perform at 1.
    destruct (fault w (tick s)) as [e0|] eqn:F.
    + intros H. injection H as _ <-. eauto.
    + apply IH.
Qed.

Lemma try_except_base {A} (c : M A) (h : exn -> M A) (s : state) :
  (forall s' e, c s = (s', Raised e) -> is_Exception e = false) ->
  try_except c h s = c s.
Proof.
  intros H. unfold try_except. destruct (c s) as [s' [a|e]] eqn:E.
  - reflexivity.
  - now rewrite (H s' e eq_refl).
Qed.

(** No action raises an [Exception]: what is raised, if anything, is
    let through by every [except Exception]. *)
Hypothesis base_only : forall j e, fault w j = Some e -> is_Exception e = false.

Lemma tags_base (self : GiphyUploader) (s : state) :
  generate_and_paste_tags w self (video_title self) s
  = script w (tags_events w self) s.
Proof.
  rewrite generate_and_paste_tags_script. unfold tags_events.
  destruct (gemini_available self); [|reflexivity].
  apply try_except_base. intros s' e H.
  apply script_raised_fault in H as [j H]. exact (base_only j e H).
Qed.

Lemma start_process_base (self : GiphyUploader) (s : state) :
  start_process w self s
  = script w (StatusSet (u "Starting GIPHY upload process...")
              :: nominal w self) s.
Proof.
  rewrite start_process_script.
  unfold script at 3. cbn [for_each]. fold (script w (nominal w self)).
  apply bind_congr; [reflexivity|]. intros _ s1.
  assert (bind (script w (steps_before_tags w self)) (fun _ =>
          bind (generate_and_paste_tags w self (video_title self)) (fun _ =>
          script w steps_after_tags)) s1
          = script w (nominal w self) s1) as E.
  { unfold nominal. rewrite (@script_app w).
    apply bind_congr; [reflexivity|]. intros _ s2.
    rewrite (@script_app w).
    apply bind_congr; [apply tags_base | reflexivity]. }
  rewrite try_except_base; [exact E|].
  intros s' e H. rewrite E in H.
  apply script_raised_fault in H as [j H]. exact (base_only j e H).
Qed.

End QuietRuns.

Lemma clicks_app (a b : list event) : clicks (a ++ b) = clicks a ++ clicks b.
Proof. unfold clicks. apply flat_map_app. Qed.

Lemma typed_app (a b : list event) : typed (a ++ b) = typed a ++ typed b.
Proof. unfold typed. apply flat_map_app. Qed.

Lemma slept_app (a b : list event) : slept (a ++ b) = slept a + slept b.
Proof.
  unfold slept. induction a as [|ev a IH]; [reflexivity|].
  cbn [app fold_right]. rewrite IH. destruct ev; lia.
Qed.

Lemma paste_events_summary (tags : list str) :
  clicks (flat_map paste_events tags) = []
  /\ typed (flat_map paste_events tags) = []
  /\ slept (flat_map paste_events tags) = 500 * Z.of_nat (List.length tags).
Proof.
  induction tags as [|t ts (IH1 & IH2 & IH3)]; [repeat split|].
  cbn [flat_map]. rewrite clicks_app, typed_app, slept_app, IH1, IH2, IH3.
  repeat split. cbn [List.length].
  change (slept (paste_events t)) with 500. lia.
Qed.

Lemma tags_events_summary (w : world) (self : GiphyUploader) :
  clicks (tags_events w self) = []
  /\ typed (tags_events w self) = []
  /\ slept (tags_events w self)
     = if gemini_available self
       then 1000 + 500 * Z.of_nat
              (List.length
                 (response_tags
                    (response_text w (tag_prompt (video_title self)))))
       else 3000.
Proof.
  unfold tags_events. destruct (gemini_available self).
  - unfold tags_try_events. cbv zeta.
    destruct (paste_events_summary
                (response_tags (response_text w (tag_prompt (video_title self)))))
      as (H1 & H2 & H3).
    rewrite !clicks_app, !typed_app, !slept_app, H1, H2, H3.
    repeat split. cbn [slept fold_right]. lia.
  - repeat split.
Qed.

Lemma nominal_summary (w : world) (self : GiphyUploader) :
  clicks (nominal w self)
  = [(1229, 191); (705, 714); (445, 167); (765, 165); (376, 234);
     (770, 628); (1211, 603); (1257, 1035)]
  /\ typed (nominal w self) = [gif_directory w self; video_title self]
  /\ slept (nominal w self)
     = 68000
       + (if gemini_available self
          then 1000 + 500 * Z.of_nat
                 (List.length
                    (response_tags
                       (response_text w (tag_prompt (video_title self)))))
          else 3000).
Proof.
  destruct (tags_events_summary w self) as (H1 & H2 & H3).
  unfold nominal.
  rewrite !clicks_app, !typed_app, !slept_app, H1, H2, H3.
  split; [reflexivity|]. split; [reflexivity|].
  change (slept steps_after_tags) with 1000.
  assert (slept (steps_before_tags w self) = 67000) as -> by reflexivity.
  lia.
Qed.

(** A run of [start_process] in which no action raises, from any state. *)
Lemma start_process_quiet (w : world) (self : GiphyUploader) (s : state) :
  (forall j, fault w j = None) ->
  start_process w self s
  = ({| trace := trace s
                 ++ StatusSet (u "Starting GIPHY upload process...")
                    :: nominal w self;
        tick := tick s + S (List.length (nominal w self)) |}, Ok tt).
Proof.
  intros Hf.
  rewrite start_process_base by (intros j e H; rewrite Hf in H; discriminate H).
  apply script_ok. intros j _. apply Hf.
Qed.

(** X11.  A run of [start_process] in which no action raises returns
    normally.  It clicks the eight fixed positions in their order, types
    the directory of the clips and then the title, sleeps 68 seconds
    besides the tags (one second and half a second for each tag that
    the model gave, or three seconds for the six default tags), and
    leaves the success message on the status display. *)
Theorem start_process_fault_free (w : world) (self : GiphyUploader) :
  (forall j, fault w j = None) ->
  exists s',
    start_process w self init = (s', Ok tt)
    /\ clicks (trace s')
       = [(1229, 191); (705, 714); (445, 167); (765, 165); (376, 234);
          (770, 628); (1211, 603); (1257, 1035)]
    /\ typed (trace s') = [gif_directory w self; video_title self]
    /\ slept (trace s')
       = 68000
         + (if gemini_available self
            then 1000 + 500 * Z.of_nat
                   (List.length
                      (response_tags
                         (response_text w (tag_prompt (video_title self)))))
            else 3000)
    /\ last (trace s') (Sleep 0)
       = StatusSet (u "Upload process completed successfully!").
Proof.
  intros Hf. eexists. split; [now apply start_process_quiet|].
  cbn [trace init app].
  destruct (nominal_summary w self) as (H1 & H2 & H3).
  change (StatusSet (u "Starting GIPHY upload process...") :: nominal w self)
    with ([StatusSet (u "Starting GIPHY upload process...")]
          ++ nominal w self).
  rewrite !clicks_app, !typed_app, !slept_app, H1, H2, H3.
  split; [reflexivity|]. split; [reflexivity|]. split; [reflexivity|].
  unfold nominal, steps_after_tags. rewrite !app_assoc. apply last_last.
Qed.

(** X12.  The first status update of [start_process] stands before its
    [try]: an exception that it raises is not caught there, and leaves
    [start_process] before any action was done. *)
Theorem start_process_first_status_escapes (w : world) (self : GiphyUploader)
  (e : exn) :
  fault w 0%nat = Some e ->
  start_process w self init = ({| trace := []; tick := 1 |}, Raised e).
Proof.
  intros H. rewrite start_process_script.
  unfold bind at 1, perform at 1. cbn [tick init]. now rewrite H.
Qed.

Lemma start_process_first_status_escapes_witness :
  let w := one_fault_world true 0 quota_error in
  start_process w (GiphyUploader_init w (u "Demo") true) init
  = ({| trace := []; tick := 1 |}, Raised quota_error)
  /\ is_Exception quota_error = true.
Proof.
  cbv zeta. split; [|reflexivity].
  apply start_process_first_status_escapes. reflexivity.
Defined.

(** X13.  An exception that is not an [Exception], such as [SystemExit],
    is caught by neither [except Exception] clause: raised by the action at
    position [k], in the tags or elsewhere, it leaves [start_process] at
    once, after the [k] actions done before it, with no report on the
    status display and no further action. *)
Theorem start_process_base_exception (w : world) (self : GiphyUploader)
  (k : nat) (e : exn) :
  single_fault w k e ->
  is_Exception e = false ->
  (k <= List.length (nominal w self))%nat ->
  start_process w self init
  = ({| trace := firstn k (StatusSet (u "Starting GIPHY upload process...")
                           :: nominal w self);
        tick := S k |}, Raised e).
Proof.
  intros Hs He Hk.
  assert (forall j e', fault w j = Some e' -> is_Exception e' = false) as Hb.
  { intros j e' H. rewrite Hs in H. destruct (j =? k)%nat; [|discriminate H].
    now injection H as <-. }
  rewrite (start_process_base w Hb).
  apply (@script_raise w
           (StatusSet (u "Starting GIPHY upload process...") :: nominal w self)
           init k e).
  - cbn [List.length]. lia.
  - intros j Hj. cbn [tick init] in Hj. rewrite Hs.
    destruct (Nat.eqb_spec j k); [lia | reflexivity].
  - cbn [tick init Nat.add]. rewrite Hs. now rewrite Nat.eqb_refl.
Qed.

Lemma start_process_base_exception_witness :
  let w := one_fault_world true 55 (Exn SystemExit []) in
  let self := GiphyUploader_init w (u "Demo") true in
  exists s',
    start_process w self init = (s', Raised (Exn SystemExit []))
    /\ List.length (trace s') = 55%nat
    /\ last (trace s') (Sleep 0) = StatusSet (u "Generating tags with AI...").
Proof.
  cbv zeta. eexists. split.
  - apply start_process_base_exception.
    + intros j. reflexivity.
    + reflexivity.
    + apply Nat.leb_le. reflexivity.
  - split; reflexivity.
Defined.

Lemma start_process_fault_free_witness :
  let w := quiet_world (u "10") in
  let self := GiphyUploader_init w (u "Demo") true in
  exists s',
    start_process w self init = (s', Ok tt)
    /\ typed (trace s')
       = [u "C:\Users\harip\ALL TEST\Demo_gifs"; u "Demo"]
    /\ slept (trace s') = 70000.
Proof.
  cbv zeta.
  destruct (start_process_fault_free (quiet_world (u "10"))
              (GiphyUploader_init (quiet_world (u "10")) (u "Demo") true))
    as (s' & E & _ & T & S & _).
  - intros j. reflexivity.
  - exists s'. split; [exact E|]. split; [rewrite T; reflexivity|].
    rewrite S. reflexivity.
Defined.

(* ================================================================= *)
(** ** Runs of the main program *)

Lemma strip_all_space (s : str) : forallb isspace s = true -> strip s = [].
Proof.
  intros H. unfold strip, strip_by.
  rewrite <- (app_nil_r s), (@lstrip_by_all isspace s [] H). reflexivity.
Qed.

(** X14.  When the line typed at the prompt is empty or holds white space
    only, the main program prints that no URL was given and exits: it
    attempts no download and creates no directory. *)
Theorem main_no_url (w : world) :
  forallb isspace (stdin_line w) = true ->
  main w init
  = (extend init (main_intro_events ++ [Console NoUrl]),
     Raised (Exn SystemExit [])).
Proof.
  intros H. unfold main. rewrite !bind_print, bind_emit. cbv zeta.
  rewrite (strip_all_space _ H). cbn [is_empty].
  rewrite bind_print. unfold exit, raise. rewrite !extend_extend.
  reflexivity.
Qed.

Lemma main_no_url_witness :
  main (with_stdin (sunny_world (u "10")) [32%N; 9%N; 10%N]) init
  = (extend init [Console Banner; Console Rule;
                  Input (u "Paste the video URL and press Enter: ");
                  Console NoUrl],
     Raised (Exn SystemExit [])).
Proof.
  apply (main_no_url (with_stdin (sunny_world (u "10")) [32%N; 9%N; 10%N])).
  reflexivity.
Defined.

(** The stages before the automation type and click nothing, and the
    automation runs no transcoder. *)
Lemma download_events_summary (w : world) (url : str) :
  transcodes (download_events w url) = []
  /\ typed (download_events w url) = []
  /\ clicks (download_events w url) = [].
Proof.
  unfold download_events.
  destruct (negb (path_exists w download_dir)), (ydl w url);
    repeat split.
Qed.

Lemma ensure_dir_events_summary (w : world) (output_dir : str) :
  typed (ensure_dir_events w output_dir) = []
  /\ clicks (ensure_dir_events w output_dir) = [].
Proof.
  unfold ensure_dir_events.
  destruct (negb (path_exists w output_dir)); split; reflexivity.
Qed.

Lemma clip_events_summary (w : world) (video_path output_dir : str)
  (clip_length fps : Z) (l : list Z) :
  typed (flat_map (clip_events w video_path output_dir clip_length fps) l) = []
  /\ clicks (flat_map (clip_events w video_path output_dir clip_length fps) l)
     = [].
Proof.
  induction l as [|i l [IH1 IH2]]; [split; reflexivity|].
  cbn [flat_map]. rewrite typed_app, clicks_app, IH1, IH2. split; reflexivity.
Qed.

Lemma transcodes_nominal (w : world) (self : GiphyUploader) :
  transcodes (nominal w self) = [].
Proof.
  assert (forall tags, transcodes (flat_map paste_events tags) = []) as Hp.
  { induction tags as [|t ts IH]; [reflexivity|].
    cbn [flat_map]. now rewrite transcodes_app, IH. }
  unfold nominal. rewrite !transcodes_app.
  assert (transcodes (tags_events w self) = []) as ->.
  { unfold tags_events, tags_try_events, tags_unavailable_events. cbv zeta.
    destruct (gemini_available self); rewrite !transcodes_app, Hp; reflexivity. }
  reflexivity.
Qed.

(** The main loop of the object built with [auto_start=True], when no
    action raises. *)
Lemma uploader_quiet (w : world) (self : GiphyUploader) (s : state) :
  auto_start self = true ->
  (forall j, fault w j = None) ->
  GiphyUploader_run w self s
  = ({| trace := trace s
                 ++ StatusSet (u "Starting GIPHY upload process...")
                    :: nominal w self;
        tick := tick s + S (List.length (nominal w self)) |}, Ok tt).
Proof.
  intros Ha Hf. unfold GiphyUploader_run, try_except.
  now rewrite Ha, start_process_quiet.
Qed.

Section MainRuns.

Variable w : world.
Variable downloaded_file : str.
Variable title : option str.

Let url : str := strip (stdin_line w).
Let video_title : str := title_of title.
Let output_dir : str := final_output_dir w video_title.

Hypothesis url_given : is_empty url = false.
Hypothesis downloaded : ydl w url = YdlOk downloaded_file title.
Hypothesis file_named : is_empty downloaded_file = false.
Hypothesis file_exists : path_exists w downloaded_file = true.

(** The main program after a download that succeeded: the conversion,
    and then the cool-down and the automation. *)
Lemma main_after_download :
  main w init
  = bind (video_to_gifs w downloaded_file output_dir 3 15)
      (fun _ s =>
         GiphyUploader_run w (GiphyUploader_init w video_title true)
           (extend s (main_cooldown_events w downloaded_file video_title)))
      (extend init (main_intro_events ++ download_events w url
                    ++ main_convert_events w downloaded_file video_title)).
Proof.
  unfold main. rewrite !bind_print, bind_emit. cbv zeta.
  fold url. rewrite url_given.
  rewrite (bind_ok _ _ _ (download_run w _ _)). unfold download_returns.
  rewrite downloaded. cbv beta iota.
  rewrite file_named, file_exists. cbn [orb negb].
  rewrite !bind_print. fold (title_of title). fold video_title.
  fold output_dir. rewrite !extend_extend.
  assert (forall s1,
            for_each (py_range3 10 0 (-1))
              (fun i => print (StartingIn i) ;; emit (Sleep 1000)) s1
            = (extend s1 (flat_map (fun i => [Console (StartingIn i); Sleep 1000])
                            (py_range3 10 0 (-1))), Ok tt)) as Hloop.
  { apply for_each_emit. intros i s1.
    now rewrite bind_print, emit_run, extend_extend. }
  transitivity
    (bind (video_to_gifs w downloaded_file output_dir 3 15)
       (fun _ s =>
          GiphyUploader_run w (GiphyUploader_init w video_title true)
            (extend s (main_cooldown_events w downloaded_file video_title)))
       (extend init
          ([Console Banner] ++ [Console Rule]
           ++ [Input (u "Paste the video URL and press Enter: ")]
           ++ download_events w url
           ++ [Console (DownloadedVideo downloaded_file)]
           ++ [Console (VideoTitle (Some video_title))]
           ++ [Console Rule] ++ [Console ConvertingHeader]
           ++ [Console Rule] ++ [Console (CreatingGifsIn output_dir)])));
    [|reflexivity].
  apply bind_congr; [reflexivity|]. intros _ s1.
  rewrite !bind_print. rewrite (bind_ok _ _ _ (Hloop _)).
  rewrite bind_print, !extend_extend. reflexivity.
Qed.

(** X15.  When the duration cannot be read, the conversion gives up but
    the main program does not notice: it prints that the conversion is
    completed, waits, and runs the whole automation, although no
    transcoder was run. *)
Theorem main_goes_on_without_clips :
  py_float w (strip (ffprobe_stdout w downloaded_file)) = None ->
  (forall j, fault w j = None) ->
  exists s',
    main w init = (s', Ok tt)
    /\ trace s'
       = main_intro_events ++ download_events w url
         ++ main_convert_events w downloaded_file video_title
         ++ ensure_dir_events w output_dir
         ++ [Probe (ffprobe_command downloaded_file);
             Console CouldNotReadDuration]
         ++ main_cooldown_events w downloaded_file video_title
         ++ StatusSet (u "Starting GIPHY upload process...")
            :: nominal w (GiphyUploader_init w video_title true)
    /\ transcodes (trace s') = []
    /\ typed (trace s') = [output_dir; video_title].
Proof.
  intros Hp Hf. rewrite main_after_download.
  pose proof (video_to_gifs_run w downloaded_file output_dir 3 15) as Hv.
  cbv zeta in Hv. rewrite Hp in Hv.
  rewrite (bind_ok _ _ _ (Hv _)).
  rewrite uploader_quiet by (reflexivity || exact Hf).
  eexists. split; [reflexivity|]. cbn [trace extend init app].
  destruct (download_events_summary w url) as (D1 & D2 & _).
  destruct (ensure_dir_events_summary w output_dir) as (E1 & _).
  destruct (nominal_summary w (GiphyUploader_init w video_title true))
    as (_ & N2 & _).
  split; [|split].
  - rewrite <- !app_assoc. reflexivity.
  - rewrite !transcodes_app, D1, transcodes_ensure_dir.
    change (StatusSet (u "Starting GIPHY upload process...")
            :: nominal w (GiphyUploader_init w video_title true))
      with ([StatusSet (u "Starting GIPHY upload process...")]
            ++ nominal w (GiphyUploader_init w video_title true)).
    rewrite !transcodes_app, transcodes_nominal. reflexivity.
  - rewrite !typed_app, D2, E1.
    change (StatusSet (u "Starting GIPHY upload process...")
            :: nominal w (GiphyUploader_init w video_title true))
      with ([StatusSet (u "Starting GIPHY upload process...")]
            ++ nominal w (GiphyUploader_init w video_title true)).
    rewrite !typed_app, N2. reflexivity.
Qed.

(** X16.  In a run in which the download and the conversion succeed and
    no action raises, every clip is written into the directory computed
    from the title, that directory is created when it is missing, and the
    automation types the same path into the file dialog, and then the
    title as it was downloaded. *)
Theorem main_clips_where_uploader_looks (duration : spec_float) (n : Z) :
  py_float w (strip (ffprobe_stdout w downloaded_file)) = Some duration ->
  num_clips duration 3 = Ok n ->
  (forall j, fault w j = None) ->
  exists s',
    main w init = (s', Ok tt)
    /\ transcodes (trace s')
       = map (fun i =>
                ffmpeg_command (i * 3) 3 downloaded_file 15
                  (os_path_join w output_dir
                     (u "output_" ++ str_of_int (i + 1) ++ u ".gif")))
           (py_range n)
    /\ typed (trace s') = [output_dir; video_title]
    /\ (path_exists w output_dir = false ->
        In (Makedirs output_dir) (trace s')).
Proof.
  intros Hp Hn Hf. rewrite main_after_download.
  pose proof (video_to_gifs_run w downloaded_file output_dir 3 15) as Hv.
  cbv zeta in Hv. rewrite Hp, Hn in Hv.
  rewrite (bind_ok _ _ _ (Hv _)).
  rewrite uploader_quiet by (reflexivity || exact Hf).
  eexists. split; [reflexivity|]. cbn [trace extend init].
  destruct (download_events_summary w url) as (D1 & D2 & _).
  destruct (ensure_dir_events_summary w output_dir) as (E1 & _).
  destruct (clip_events_summary w downloaded_file output_dir 3 15 (py_range n))
    as (C1 & _).
  destruct (nominal_summary w (GiphyUploader_init w video_title true))
    as (_ & N2 & _).
  change (StatusSet (u "Starting GIPHY upload process...")
          :: nominal w (GiphyUploader_init w video_title true))
    with ([StatusSet (u "Starting GIPHY upload process...")]
          ++ nominal w (GiphyUploader_init w video_title true)).
  split; [|split].
  - rewrite !transcodes_app, D1, transcodes_ensure_dir, transcodes_clips,
      transcodes_nominal.
    change (transcodes (main_cooldown_events w downloaded_file video_title))
      with (@nil (list str)).
    cbn [transcodes flat_map app main_intro_events main_convert_events].
    now rewrite !app_nil_r.
  - rewrite !typed_app, D2, E1, C1, N2. reflexivity.
  - intros Hd. rewrite !in_app_iff. unfold ensure_dir_events. rewrite Hd.
    cbn [negb In]. tauto.
Qed.

(** X17.  When [float] reads the probe output as [nan] or as an infinity,
    the exception of [math.ceil] is caught nowhere: it ends the main
    program after the probe, and the automation is never started. *)
Theorem main_not_finite_duration (duration : spec_float) :
  py_float w (strip (ffprobe_stdout w downloaded_file)) = Some duration ->
  is_finite duration = false ->
  exists e,
    main w init
    = (extend init
         (main_intro_events ++ download_events w url
          ++ main_convert_events w downloaded_file video_title
          ++ ensure_dir_events w output_dir
          ++ [Probe (ffprobe_command downloaded_file);
              Console (VideoLength duration)]),
       Raised e)
    /\ exn_cls e = match duration with
                   | S754_nan => ValueError
                   | _ => OverflowError
                   end.
Proof.
  intros Hp Hfin.
  destruct (num_clips_not_finite duration 3 Hfin) as (e & En & Hc);
    [split; [discriminate | reflexivity]|].
  exists e. split; [|exact Hc]. rewrite main_after_download.
  pose proof (video_to_gifs_run w downloaded_file output_dir 3 15) as Hv.
  cbv zeta in Hv. rewrite Hp, En in Hv.
  rewrite (bind_raised _ _ _ (Hv _)). rewrite extend_extend.
  now rewrite <- !app_assoc.
Qed.

End MainRuns.

Lemma main_goes_on_without_clips_witness :
  exists s',
    main (sunny_world (u "abc")) init = (s', Ok tt)
    /\ transcodes (trace s') = []
    /\ typed (trace s') = [u "C:\Users\harip\ALL TEST\Demo_gifs"; u "Demo"]
    /\ In (Console ConversionCompleted) (trace s').
Proof.
  destruct (main_goes_on_without_clips (sunny_world (u "abc"))
              (u "D:\downloads\Demo [1].mp4") (Some (u "Demo")))
    as (s' & E & T & Tr & Ty); try reflexivity.
  exists s'. split; [exact E|]. split; [exact Tr|].
  split; [rewrite Ty; reflexivity|].
  rewrite T. rewrite !in_app_iff. do 5 right. left.
  unfold main_cooldown_events. now left.
Defined.

Lemma main_clips_where_uploader_looks_witness :
  exists s',
    main (sunny_world (u "10.000000" ++ [10%N])) init = (s', Ok tt)
    /\ List.length (transcodes (trace s')) = 4%nat
    /\ typed (trace s') = [u "C:\Users\harip\ALL TEST\Demo_gifs"; u "Demo"]
    /\ In (Makedirs (u "C:\Users\harip\ALL TEST\Demo_gifs")) (trace s').
Proof.
  destruct (main_clips_where_uploader_looks
              (sunny_world (u "10.000000" ++ [10%N]))
              (u "D:\downloads\Demo [1].mp4") (Some (u "Demo"))
              eq_refl eq_refl eq_refl eq_refl
              (S754_finite false 5629499534213120 (-49)) 4)
    as (s' & E & Tr & Ty & Mk); try reflexivity.
  exists s'. split; [exact E|]. split; [rewrite Tr; reflexivity|].
  split; [rewrite Ty; reflexivity|]. apply Mk. reflexivity.
Defined.

Lemma main_not_finite_duration_witness :
  exists e t,
    main (with_special_floats (sunny_world (u "nan"))) init
    = (extend init t, Raised e)
    /\ exn_cls e = ValueError
    /\ clicks t = [].
Proof.
  destruct (main_not_finite_duration
              (with_special_floats (sunny_world (u "nan")))
              (u "D:\downloads\Demo [1].mp4") (Some (u "Demo"))
              eq_refl eq_refl eq_refl eq_refl S754_nan)
    as (e & E & Hc); try reflexivity.
  exists e. eexists. split; [exact E|]. split; [exact Hc|]. reflexivity.
Defined.

(* ================================================================= *)
(** ** The choice of the text model *)

Lemma starts_with_spec (p s : str) :
  starts_with p s = true <-> exists b, s = p ++ b.
Proof.
  revert s. induction p as [|a p IH]; intros s.
  - split; [intros _; now exists s | reflexivity].
  - destruct s as [|c s]; cbn [starts_with].
    + split; [discriminate | intros [b E]; discriminate E].
    + rewrite andb_true_iff, IH. unfold char_eqb. rewrite N.eqb_eq. split.
      * intros [-> [b ->]]. now exists b.
      * intros [b E]. injection E as -> ->. split; [reflexivity | now exists b].
Qed.

(** [contains] is the substring test. *)
Lemma contains_spec (p s : str) :
  contains p s = true <-> exists a b, s = a ++ p ++ b.
Proof.
  induction s as [|c s IH].
  - cbn [contains]. rewrite orb_false_r, starts_with_spec. split.
    + intros [b E]. now exists [], b.
    + intros [a [b E]]. destruct a as [|x a]; [now exists b | discriminate E].
  - cbn [contains]. rewrite orb_true_iff, starts_with_spec, IH. split.
    + intros [[b E]|[a [b E]]].
      * now exists [], b.
      * exists (c :: a), b. now rewrite E.
    + intros [a [b E]]. destruct a as [|x a].
      * left. now exists b.
      * right. injection E as -> E. now exists a, b.
Qed.

Lemma first_preferred_in (available : list str) (p : str) :
  first_preferred available = Some p -> In p preferred.
Proof. intros H. now apply find_some in H. Qed.

Lemma pick_model_in (available : list str) :
  In (snd (pick_model available)) preferred.
Proof.
  unfold pick_model.
  destruct (first_preferred available) as [p|] eqn:E.
  - destruct (is_empty p); [right; now left|].
    now apply first_preferred_in in E.
  - right. now left.
Qed.

(** X18.  Whatever the library does, [setup_gemini] lets no [Exception]
    out.  When it leaves the model available, the model was built, without
    an error, with one of the three preferred names, never with a name
    taken from the listing; otherwise it leaves the model unavailable. *)
Theorem setup_gemini_outcome (api : genai_api) :
  match snd (setup_gemini api) with
  | Ok (Some model_name, available) =>
      available = true /\ In model_name preferred
      /\ api_configure api = None
      /\ api_GenerativeModel api model_name = None
  | Ok (None, available) => available = false
  | Raised e => is_Exception e = false
  end.
Proof.
  unfold setup_gemini, setup_gemini_try, get_available_models.
  destruct (api_configure api) as [e|].
  - destruct (is_Exception e) eqn:E; [reflexivity | exact E].
  - assert (forall out available,
              match
                snd
                  (match
                     (let '(out', model_name) := pick_model available in
                      let out0 := out ++ out' ++ [UsingModel model_name] in
                      match api_GenerativeModel api model_name with
                      | Some e => (out0, Raised e)
                      | None => (out0, Ok model_name)
                      end)
                   with
                   | (out0, Ok model_name) => (out0, Ok (Some model_name, true))
                   | (out0, Raised e) =>
                       if is_Exception e
                       then (out0 ++ [SetupFailed e], Ok (None, false))
                       else (out0, Raised e)
                   end)
              with
              | Ok (Some model_name, available0) =>
                  available0 = true /\ In model_name preferred
                  /\ @None exn = None
                  /\ api_GenerativeModel api model_name = None
              | Ok (None, available0) => available0 = false
              | Raised e => is_Exception e = false
              end) as H.
    { intros out available. pose proof (pick_model_in available) as Hin.
      destruct (pick_model available) as [out' name]. cbn [snd] in Hin.
      cbv zeta. destruct (api_GenerativeModel api name) as [e|] eqn:G.
      - destruct (is_Exception e) eqn:E; [reflexivity | exact E].
      - cbn [snd]. auto. }
    destruct (api_list_models api) as [names|e]; [apply H|].
    destruct (is_Exception e) eqn:E; [apply H|].
    cbv beta iota. rewrite E. exact E.
Qed.

Lemma first_preferred_none (available : list str) :
  (forall q m a b, In q preferred -> In m available -> m <> a ++ q ++ b) ->
  first_preferred available = None.
Proof.
  intros H. unfold first_preferred.
  destruct (find _ preferred) as [p|] eqn:E; [|reflexivity].
  apply find_some in E as [Hp Hex].
  apply existsb_exists in Hex as [m [Hm Hc]].
  apply contains_spec in Hc as [a [b Hc]]. now destruct (H p m a b).
Qed.

(** X19.  A listing that fails with an [Exception], or that names no model
    in which a preferred name occurs, does not make the model unavailable:
    the fall-back name is announced and used. *)
Theorem setup_gemini_fallback (api : genai_api) :
  api_configure api = None ->
  match api_list_models api with
  | Ok names =>
      forall q m a b, In q preferred -> In m names -> m <> a ++ q ++ b
  | Raised e => is_Exception e = true
  end ->
  api_GenerativeModel api (u "gemini-1.5-flash-002") = None ->
  setup_gemini api
  = (match api_list_models api with
     | Ok names => [AvailableModels names]
     | Raised e => [CouldNotListModels e]
     end ++ [NoPreferredModel; UsingModel (u "gemini-1.5-flash-002")],
     Ok (Some (u "gemini-1.5-flash-002"), true)).
Proof.
  intros Hc Hl Hg.
  unfold setup_gemini, setup_gemini_try, get_available_models. rewrite Hc.
  destruct (api_list_models api) as [names|e].
  - unfold pick_model. rewrite (first_preferred_none names Hl).
    cbv beta iota zeta. now rewrite Hg.
  - rewrite Hl. unfold pick_model.
    change (first_preferred []) with (@None str).
    cbv beta iota zeta. now rewrite Hg.
Qed.

Lemma setup_gemini_fallback_witness :
  setup_gemini {| api_configure := None;
                  api_list_models := Raised quota_error;
                  api_GenerativeModel := fun _ => None |}
  = ([CouldNotListModels quota_error; NoPreferredModel;
      UsingModel (u "gemini-1.5-flash-002")],
     Ok (Some (u "gemini-1.5-flash-002"), true)).
Proof.
  apply (setup_gemini_fallback
           {| api_configure := None;
              api_list_models := Raised quota_error;
              api_GenerativeModel := fun _ => None |});
    reflexivity.
Defined.

Lemma find_first {A} (f : A -> bool) (before : list A) (x : A) (after : list A) :
  (forall y, In y before -> f y = false) -> f x = true ->
  find f (before ++ x :: after) = Some x.
Proof.
  intros Hb Hx. induction before as [|y before IH]; cbn [app find].
  - now rewrite Hx.
  - rewrite (Hb y) by now left. apply IH. intros z Hz. apply Hb. now right.
Qed.

(** X20.  The model is chosen by the order of the preferred names, not by
    the order of the listing: a preferred name is used when it occurs
    inside the name of some listed model (at any place, so that a prefix
    such as [models/] does not matter) and no preferred name before it
    occurs in any listed name. *)
Theorem pick_model_priority (available : list str) (before : list str)
  (p : str) (after : list str) :
  preferred = before ++ p :: after ->
  (exists m a b, In m available /\ m = a ++ p ++ b) ->
  (forall q m a b, In q before -> In m available -> m <> a ++ q ++ b) ->
  pick_model available = ([], p).
Proof.
  intros Hp (m & a & b & Hm & E) Hn.
  assert (In p preferred) as Hin by (rewrite Hp; apply in_elt).
  unfold pick_model, first_preferred. rewrite Hp, find_first.
  - assert (is_empty p = false) as ->; [|reflexivity].
    destruct Hin as [<-|[<-|[<-|[]]]]; reflexivity.
  - intros q Hq. apply not_true_is_false. intros Hex.
    apply existsb_exists in Hex as [m' [Hm' Hc]].
    apply contains_spec in Hc as [a' [b' Hc]]. now destruct (Hn q m' a' b').
  - apply existsb_exists. exists m. split; [exact Hm|].
    apply contains_spec. now exists a, b.
Qed.

Lemma pick_model_priority_witness :
  pick_model [u "models/gemini-1.5-pro-002"; u "models/gemini-1.5-flash-002-tuned"]
  = ([], u "gemini-1.5-flash-002").
Proof.
  apply (pick_model_priority _ [u "gemini-2.0-flash-exp"] _
           [u "gemini-1.5-pro-002"]).
  - reflexivity.
  - exists (u "models/gemini-1.5-flash-002-tuned"), (u "models/"), (u "-tuned").
    split; [right; now left | reflexivity].
  - intros q m a b [<-|[]] Hm E.
    assert (contains (u "gemini-2.0-flash-exp") m = true) as Hc
      by (apply contains_spec; now exists a, b).
    destruct Hm as [<-|[<-|[]]]; discriminate Hc.
Defined.

(* ================================================================= *)
(** ** Waiting for a line *)

Section Waiting.

Variable t : terminal.
Variable timeout : Z.

(** The test of the loop at its [k]-th turn. *)
Let in_time (k : nat) : bool :=
  float_lt_int (SFsub prec emax (clock t (S k)) (clock t 0)) timeout.

(** The loop ends once the time is up. *)
Lemma wait_for_line_ends (d k : nat) :
  in_time (k + d) = false ->
  exists r, wait_for_line t (clock t 0) timeout (S d) k = Some r.
Proof.
  revert k. induction d as [|d IH]; intros k H.
  - rewrite Nat.add_0_r in H. cbn [wait_for_line]. fold (in_time k).
    rewrite H. eauto.
  - cbn [wait_for_line]. fold (in_time k).
    destruct (in_time k); [|eauto].
    destruct (key_ready t k) as [[|]|e]; [eauto| |eauto].
    destruct (sleep_raises t k) as [e|]; [eauto|].
    apply (IH (S k)). now replace (S k + d)%nat with (k + S d)%nat by lia.
Qed.

(** What the loop leaves in [user_input] is the empty string or the line
    that [input()] returned. *)
Lemma wait_for_line_value (fuel k : nat) (line : str) :
  wait_for_line t (clock t 0) timeout fuel k = Some (Ok line) ->
  line = [] \/ input_line t = Ok line.
Proof.
  revert k. induction fuel as [|fuel IH]; intros k; [discriminate|].
  cbn [wait_for_line].
  destruct (float_lt_int _ timeout).
  - destruct (key_ready t k) as [[|]|e]; [|
      destruct (sleep_raises t k) as [e|]; [discriminate | apply IH]
      | discriminate].
    intros H. injection H as H. now right.
  - intros H. injection H as <-. now left.
Qed.

(** X21.  If the time is up at some test of the loop,
    [get_input_with_timeout] returns, and what it returns is either the
    default or the line that [input()] gave, stripped, and that line was
    not empty: it never returns a line as it was typed. *)
Theorem get_input_with_timeout_returns (prompt default : str) (n : nat) :
  in_time n = false ->
  exists out r,
    get_input_with_timeout t prompt timeout default (S n) = Some (out, r)
    /\ (r = default
        \/ exists line, input_line t = Ok line /\ line <> [] /\ r = strip line).
Proof.
  intros H. destruct (wait_for_line_ends n 0 H) as [r E].
  unfold get_input_with_timeout. cbv zeta. rewrite E.
  destruct r as [line|e]; cbn [is_empty].
  - destruct line as [|c rest]; cbn [is_empty].
    + eexists _, _. split; [reflexivity | now left].
    + eexists _, _. split; [reflexivity|]. right. exists (c :: rest).
      apply wait_for_line_value in E as [E|E]; [discriminate E|].
      split; [exact E|]. split; [discriminate | reflexivity].
  - eexists _, _. split; [reflexivity | now left].
Qed.

(** X22.  A line of white space alone is not taken for no input: when a
    line is waiting at the first test and [input()] returns white space,
    the function returns the empty string, and not the default. *)
Theorem get_input_with_timeout_blank_line (prompt default : str) (line : str)
  (fuel : nat) :
  in_time 0 = true ->
  key_ready t 0%nat = Ok true ->
  input_line t = Ok line ->
  line <> [] ->
  forallb isspace line = true ->
  get_input_with_timeout t prompt timeout default (S fuel)
  = Some ([Prompt prompt; YouHave timeout default; TypeOrWait], []).
Proof.
  intros H0 Hk Hl Hne Hsp. unfold get_input_with_timeout. cbv zeta.
  cbn [wait_for_line]. fold (in_time 0). rewrite H0, Hk, Hl.
  destruct line as [|c rest]; [contradiction|]. cbn [is_empty].
  now rewrite (strip_all_space _ Hsp).
Qed.

(** X23.  Whatever the test for a waiting line raises, [SystemExit]
    included, the bare [except] swallows it, and the default is returned. *)
Theorem get_input_with_timeout_swallows (prompt default : str) (e : exn)
  (fuel : nat) :
  in_time 0 = true ->
  key_ready t 0%nat = Raised e ->
  get_input_with_timeout t prompt timeout default (S fuel)
  = Some ([Prompt prompt; YouHave timeout default; TypeOrWait;
           UsingDefault default], default).
Proof.
  intros H0 Hk. unfold get_input_with_timeout. cbv zeta.
  cbn [wait_for_line]. fold (in_time 0). now rewrite H0, Hk.
Qed.

End Waiting.

Lemma get_input_with_timeout_returns_witness :
  exists out r,
    get_input_with_timeout (ticking_terminal 1 (Ok (u "  my clip  ")))
      (u "Name?") 3 (u "clip") 3
    = Some (out, r)
    /\ (r = u "clip"
        \/ exists line,
             input_line (ticking_terminal 1 (Ok (u "  my clip  "))) = Ok line
             /\ line <> [] /\ r = strip line).
Proof.
  apply (get_input_with_timeout_returns
           (ticking_terminal 1 (Ok (u "  my clip  "))) 3
           (u "Name?") (u "clip") 2).
  reflexivity.
Defined.

Lemma get_input_with_timeout_blank_line_witness :
  get_input_with_timeout (ticking_terminal 0 (Ok (u "   ")))
    (u "Name?") 3 (u "clip") 1
  = Some ([Prompt (u "Name?"); YouHave 3 (u "clip"); TypeOrWait], []).
Proof.
  apply (get_input_with_timeout_blank_line
           (ticking_terminal 0 (Ok (u "   "))) 3
           (u "Name?") (u "clip") (u "   ") 0);
    try reflexivity.
  discriminate.
Defined.

Lemma get_input_with_timeout_swallows_witness :
  get_input_with_timeout (broken_terminal (Exn SystemExit []))
    (u "Name?") 3 (u "clip") 1
  = Some ([Prompt (u "Name?"); YouHave 3 (u "clip"); TypeOrWait;
           UsingDefault (u "clip")], u "clip").
Proof.
  apply (get_input_with_timeout_swallows
           (broken_terminal (Exn SystemExit [])) 3
           (u "Name?") (u "clip") (Exn SystemExit []) 0);
    reflexivity.
Defined.

(* ================================================================= *)
(** ** The files of the clips *)

Lemma u_inj (a b : string) : u a = u b -> a = b.
Proof.
  revert b. induction a as [|c a IH]; intros [|d b] H; try discriminate H.
  - reflexivity.
  - cbn [u] in H. injection H as Hc H. f_equal; [|now apply IH].
    rewrite <- (ascii_N_embedding c), <- (ascii_N_embedding d). now rewrite Hc.
Qed.




(* ================================================================= *)
(** ** A failure of the fall-back *)

Section NestedFailure.

Local Open Scope nat_scope.

Variable w : world.
Variable self : GiphyUploader.

(** X25.  When an action of the [try] block of the tags raises and an
    action of the fall-back that follows raises as well, the second
    exception leaves [generate_and_paste_tags]; [start_process] catches
    it and reports it, and the steps that remain, the final upload click
    among them, are not done. *)
Theorem start_process_fallback_failure (k1 k2 : nat) (e1 e2 : exn) :
  gemini_available self = true ->
  double_fault w k1 e1 k2 e2 ->
  is_Exception e1 = true -> is_Exception e2 = true ->
  List.length (steps_before_tags w self) < k1
  <= List.length (steps_before_tags w self)
     + List.length (tags_try_events w (video_title self)) ->
  k1 < k2 <= k1 + List.length (tags_except_events e1) ->
  exists s',
    start_process w self init = (s', Ok tt)
    /\ trace s'
       = StatusSet (u "Starting GIPHY upload process...")
         :: firstn (k1 - 1) (nominal w self)
         ++ firstn (k2 - k1 - 1) (tags_except_events e1)
         ++ [StatusSet (report e2)].
Proof.
  intros Ha Hf He1 He2 Hk1 Hk2.
  set (P := List.length (steps_before_tags w self)) in *.
  set (T := tags_try_events w (video_title self)) in *.
  assert (forall j, j <> k1 -> j <> k2 -> fault w j = None) as Hnone.
  { intros j H1 H2. rewrite Hf.
    destruct (Nat.eqb_spec j k1); [contradiction|].
    destruct (Nat.eqb_spec j k2); [contradiction | reflexivity]. }
  assert (fault w k1 = Some e1) as F1 by (rewrite Hf; now rewrite Nat.eqb_refl).
  assert (fault w k2 = Some e2) as F2.
  { rewrite Hf. destruct (Nat.eqb_spec k2 k1); [lia|]. now rewrite Nat.eqb_refl. }
  rewrite start_process_script.
  unfold bind at 1, perform at 1. cbn [tick init].
  rewrite Hnone by lia. cbn [trace init app].
  (* the steps before the tags *)
  assert (script w (steps_before_tags w self)
            {| trace := [StatusSet (u "Starting GIPHY upload process...")];
               tick := 1 |}
          = ({| trace := [StatusSet (u "Starting GIPHY upload process...")]
                         ++ steps_before_tags w self;
                tick := 1 + P |}, Ok tt)) as R1.
  { apply script_ok. cbn [tick]. intros j Hj. apply Hnone; lia. }
  (* the try block of the tags, up to the first exception *)
  assert (script w T
            {| trace := [StatusSet (u "Starting GIPHY upload process...")]
                        ++ steps_before_tags w self;
               tick := 1 + P |}
          = ({| trace := ([StatusSet (u "Starting GIPHY upload process...")]
                          ++ steps_before_tags w self)
                         ++ firstn (k1 - 1 - P) T;
                tick := S (1 + P + (k1 - 1 - P)) |}, Raised e1)) as R2.
  { apply script_raise; cbn [tick].
    - lia.
    - intros j Hj. apply Hnone; lia.
    - replace (1 + P + (k1 - 1 - P)) with k1 by lia. exact F1. }
  (* the fall-back, up to the second exception *)
  assert (script w (tags_except_events e1)
            {| trace := ([StatusSet (u "Starting GIPHY upload process...")]
                         ++ steps_before_tags w self)
                        ++ firstn (k1 - 1 - P) T;
               tick := S (1 + P + (k1 - 1 - P)) |}
          = ({| trace := (([StatusSet (u "Starting GIPHY upload process...")]
                           ++ steps_before_tags w self)
                          ++ firstn (k1 - 1 - P) T)
                         ++ firstn (k2 - k1 - 1) (tags_except_events e1);
                tick := S (S (1 + P + (k1 - 1 - P)) + (k2 - k1 - 1)) |},
             Raised e2)) as R3.
  { apply script_raise; cbn [tick].
    - lia.
    - intros j Hj. apply Hnone; lia.
    - replace (S (1 + P + (k1 - 1 - P)) + (k2 - k1 - 1)) with k2 by lia.
      exact F2. }
  unfold try_except at 1.
  rewrite (bind_ok _ _ _ R1).
  assert (generate_and_paste_tags w self (video_title self)
            {| trace := [StatusSet (u "Starting GIPHY upload process...")]
                        ++ steps_before_tags w self;
               tick := 1 + P |}
          = ({| trace := (([StatusSet (u "Starting GIPHY upload process...")]
                           ++ steps_before_tags w self)
                          ++ firstn (k1 - 1 - P) T)
                         ++ firstn (k2 - k1 - 1) (tags_except_events e1);
                tick := S (S (1 + P + (k1 - 1 - P)) + (k2 - k1 - 1)) |},
             Raised e2)) as R4.
  { rewrite generate_and_paste_tags_script, Ha. unfold try_except.
    fold T. now rewrite R2, He1, R3. }
  rewrite (bind_raised _ _ _ R4), He2.
  unfold perform. cbn [tick trace].
  rewrite Hnone by lia.
  eexists. split; [reflexivity|]. cbn [trace].
  assert (firstn (k1 - 1) (nominal w self)
          = steps_before_tags w self ++ firstn (k1 - 1 - P) T) as ->.
  { unfold nominal, tags_events. rewrite Ha. fold T.
    rewrite firstn_app_r by (fold P; lia). fold P. f_equal.
    apply firstn_app_l. lia. }
  cbn [app]. now rewrite <- !app_assoc.
Qed.

End NestedFailure.

Lemma start_process_fallback_failure_witness :
  let w := two_fault_world 55 quota_error 60
             (Exn FailSafeException []) in
  let self := GiphyUploader_init w (u "Demo") true in
  exists s',
    start_process w self init = (s', Ok tt)
    /\ last (trace s') (Sleep 0)
       = StatusSet (u "Process was aborted by moving mouse to corner")
    /\ ~ In (Click 1257 1035) (trace s')
    /\ emitted_tags (trace s') = [u "#gif"].
Proof.
  cbv zeta.
  destruct (start_process_fallback_failure
              (two_fault_world 55 quota_error 60 (Exn FailSafeException []))
              (GiphyUploader_init
                 (two_fault_world 55 quota_error 60 (Exn FailSafeException []))
                 (u "Demo") true)
              55 60 quota_error (Exn FailSafeException []))
    as (s' & E & T).
  - reflexivity.
  - intros j. reflexivity.
  - reflexivity.
  - reflexivity.
  - split; apply Nat.leb_le; reflexivity.
  - split; apply Nat.leb_le; reflexivity.
  - exists s'. split; [exact E|]. rewrite T.
    split; [reflexivity|]. split; [|reflexivity].
    intros H. vm_compute in H.
    repeat (destruct H as [H|H]; [discriminate H|]). exact H.
Defined.

(* ================================================================= *)
(** ** A blank response *)

Lemma filter_none {A} (f : A -> bool) (l : list A) :
  (forall x, In x l -> f x = false) -> filter f l = [].
Proof.
  induction l as [|x l IH]; intros H; [reflexivity|].
  cbn [filter]. rewrite (H x) by now left.
  apply IH. intros y Hy. apply H. now right.
Qed.

(** X26.  A response of white space and commas alone, the empty response
    among them, gives no tag of its own: the six tags of the second
    default list are pasted. *)
Theorem response_tags_blank (r : str) :
  forallb (fun c => isspace c || char_eqb c 44%N) r = true ->
  response_tags r
  = [u "#gif"; u "#animation"; u "#fun"; u "#trending"; u "#viral"; u "#meme"].
Proof.
  intros H. unfold response_tags. cbv zeta.
  rewrite filter_none; [reflexivity|].
  intros x Hx. apply negb_false_iff.
  assert (strip x = []) as ->; [|reflexivity].
  apply strip_all_space. apply forallb_forall. intros c Hc.
  pose proof (split_char_no_sep _ _ _ Hx) as Hsep.
  apply (split_char_incl _ _ _ _ Hx) in Hc as Hin.
  apply replace_char_nil_in in Hin as [Hin _].
  apply strip_by_incl in Hin.
  rewrite forallb_forall in H. specialize (H c Hin).
  apply orb_true_iff in H as [H|H]; [exact H|].
  unfold char_eqb in H. apply N.eqb_eq in H. subst c. contradiction.
Qed.

Lemma response_tags_blank_witness :
  response_tags (u " , ," ++ [10%N; 9%N])
  = [u "#gif"; u "#animation"; u "#fun"; u "#trending"; u "#viral"; u "#meme"]
  /\ response_tags []
     = [u "#gif"; u "#animation"; u "#fun"; u "#trending"; u "#viral"; u "#meme"].
Proof.
  split; apply response_tags_blank; reflexivity.
Defined.

(* ================================================================= *)
(** ** What every run of [start_process] keeps *)

Lemma firstn_min_length {A} (n : nat) (l : list A) :
  firstn (Nat.min n (List.length l)) l = firstn n l.
Proof.
  destruct (Nat.le_ge_cases n (List.length l)) as [H|H].
  - now rewrite Nat.min_l.
  - rewrite Nat.min_r by exact H. now rewrite firstn_all, firstn_all2.
Qed.

Section AnyRun.

Variable w : world.
Variable self : GiphyUploader.

(** A view of the trace that looks at some of the actions only, none of
    them a status update or an action of the tags. *)
Variable A : Type.
Variable pr : event -> list A.

Hypothesis pr_status : forall m, pr (StatusSet m) = [].
Hypothesis pr_try :
  flat_map pr (tags_try_events w (video_title self)) = [].
Hypothesis pr_except : forall e, flat_map pr (tags_except_events e) = [].
Hypothesis pr_unavailable : flat_map pr tags_unavailable_events = [].

Lemma view_firstn (n : nat) (l : list event) :
  exists m, flat_map pr (firstn n l) = firstn m (flat_map pr l).
Proof.
  revert n. induction l as [|ev l IH]; intros n.
  - exists 0%nat. now rewrite firstn_nil.
  - destruct n as [|n]; [now exists 0%nat|].
    destruct (IH n) as [m E]. exists (List.length (pr ev) + m)%nat.
    cbn [firstn flat_map]. rewrite E. symmetry. apply firstn_app_2.
Qed.

Lemma view_firstn_nil (n : nat) (l : list event) :
  flat_map pr l = [] -> flat_map pr (firstn n l) = [].
Proof.
  intros H. destruct (view_firstn n l) as [m E].
  rewrite E, H. apply firstn_nil.
Qed.

(** A script leaves a part of its actions on the trace, from the first
    one on, and all of them when it ends well. *)
Lemma script_trace (l : list event) (s : state) :
  exists n, trace (fst (script w l s)) = trace s ++ firstn n l
            /\ (snd (script w l s) = Ok tt -> firstn n l = l).
Proof.
  revert s. induction l as [|ev l IH]; intros s.
  - exists 0%nat. cbn. now rewrite app_nil_r.
  - assert (script w (ev :: l) s
            = match fault w (tick s) with
              | Some e => ({| trace := trace s; tick := S (tick s) |}, Raised e)
              | None =>
                  script w l {| trace := trace s ++ [ev]; tick := S (tick s) |}
              end) as R.
    { unfold script. cbn [for_each]. unfold bind, perform.
      destruct (fault w (tick s)); reflexivity. }
    rewrite R. destruct (fault w (tick s)) as [e|].
    + exists 0%nat. cbn. rewrite app_nil_r. split; [reflexivity | discriminate].
    + destruct (IH {| trace := trace s ++ [ev]; tick := S (tick s) |})
        as [n [E H]].
      exists (S n). cbn [trace] in E. rewrite E, <- app_assoc.
      split; [reflexivity|]. intros Hok. cbn [firstn]. f_equal. now apply H.
Qed.

(** The tags add nothing to the view. *)
Lemma tags_view (s : state) :
  flat_map pr
    (trace (fst (generate_and_paste_tags w self (video_title self) s)))
  = flat_map pr (trace s).
Proof.
  rewrite generate_and_paste_tags_script.
  destruct (gemini_available self).
  - unfold try_except.
    destruct (script_trace (tags_try_events w (video_title self)) s)
      as [n [E _]].
    destruct (script w (tags_try_events w (video_title self)) s)
      as [s1 [[]|e]] eqn:R; cbn [fst] in E.
    + cbn [fst]. rewrite E, flat_map_app, view_firstn_nil by exact pr_try.
      apply app_nil_r.
    + assert (flat_map pr (trace s1) = flat_map pr (trace s)) as E1.
      { rewrite E, flat_map_app, view_firstn_nil by exact pr_try.
        apply app_nil_r. }
      destruct (is_Exception e); [|exact E1].
      destruct (script_trace (tags_except_events e) s1) as [n' [E' _]].
      rewrite E', flat_map_app, view_firstn_nil by apply pr_except.
      now rewrite app_nil_r.
  - destruct (script_trace tags_unavailable_events s) as [n [E _]].
    rewrite E, flat_map_app, view_firstn_nil by exact pr_unavailable.
    apply app_nil_r.
Qed.

(** The report of an exception adds nothing to the view. *)
Lemma report_view (e : exn) (s : state) :
  flat_map pr (trace (fst (perform w (StatusSet (report e)) s)))
  = flat_map pr (trace s).
Proof.
  unfold perform. destruct (fault w (tick s)); cbn [fst trace]; [reflexivity|].
  rewrite flat_map_app. cbn [flat_map]. rewrite pr_status. now rewrite !app_nil_r.
Qed.

(** In every run the view shows a part of the steps before and after the
    tags, from the first one on. *)
Lemma start_process_view :
  exists m,
    flat_map pr (trace (fst (start_process w self init)))
    = firstn m (flat_map pr (steps_before_tags w self ++ steps_after_tags)).
Proof.
  rewrite start_process_script.
  unfold bind at 1, perform at 1. cbn [tick init].
  destruct (fault w 0%nat) as [e0|]; [now exists 0%nat|].
  cbn [trace init app].
  set (s0 := {| trace := [StatusSet (u "Starting GIPHY upload process...")];
                tick := 1 |}).
  assert (flat_map pr (trace s0) = []) as V0
    by (cbn [s0 trace flat_map]; rewrite pr_status; reflexivity).
  (* whatever the body leaves, the handler adds nothing *)
  assert (forall s1 r,
            (exists m, flat_map pr (trace s1)
                       = firstn m (flat_map pr (steps_before_tags w self
                                                ++ steps_after_tags))) ->
            exists m,
              flat_map pr
                (trace (fst (match r with
                             | Ok a => (s1, Ok a)
                             | Raised e =>
                                 if is_Exception e
                                 then perform w (StatusSet (report e)) s1
                                 else (s1, @Raised unit e)
                             end)))
              = firstn m (flat_map pr (steps_before_tags w self
                                       ++ steps_after_tags))) as Hh.
  { intros s1 r [m E]. exists m. destruct r as [a|e]; [exact E|].
    destruct (is_Exception e); [|exact E]. now rewrite report_view. }
  unfold try_except.
  destruct (script_trace (steps_before_tags w self) s0) as [n1 [E1 F1]].
  unfold bind at 1.
  destruct (script w (steps_before_tags w self) s0) as [s1 [[]|e1]] eqn:R1;
    cbn [fst snd] in E1, F1.
  - rewrite (F1 eq_refl) in E1.
    pose proof (tags_view s1) as V2. unfold bind at 1.
    destruct (generate_and_paste_tags w self (video_title self) s1)
      as [s2 [[]|e2]] eqn:R2; cbn [fst] in V2.
    + destruct (script_trace steps_after_tags s2) as [n3 [E3 _]].
      destruct (script w steps_after_tags s2) as [s3 r3] eqn:R3.
      cbn [fst] in E3. apply (Hh s3 r3).
      destruct (view_firstn n3 steps_after_tags) as [m3 V3].
      exists (List.length (flat_map pr (steps_before_tags w self)) + m3)%nat.
      rewrite E3, flat_map_app, V2, E1, !flat_map_app, V0, V3.
      cbn [app]. symmetry. apply firstn_app_2.
    + apply (Hh s2 (Raised e2)).
      exists (List.length (flat_map pr (steps_before_tags w self))).
      rewrite V2, E1, !flat_map_app, V0. cbn [app].
      symmetry. rewrite <- (Nat.add_0_r (List.length _)), firstn_app_2.
      cbn [firstn]. now rewrite app_nil_r.
  - apply (Hh s1 (Raised e1)).
    destruct (view_firstn n1 (steps_before_tags w self)) as [m1 V1].
    exists (Nat.min m1 (List.length (flat_map pr (steps_before_tags w self)))).
    rewrite E1, flat_map_app, V0, V1. cbn [app].
    rewrite flat_map_app, firstn_app_l by apply Nat.le_min_r.
    symmetry. apply firstn_min_length.
Qed.

End AnyRun.

(** X27.  In every run of [start_process], whatever raises and wherever,
    the clicks done are the eight fixed positions up to some point, in
    their order, and the texts typed are the directory of the clips and
    then the title, up to some point: no step is left out or done out of
    order. *)
Theorem start_process_keeps_order (w : world) (self : GiphyUploader) :
  exists m1 m2,
    clicks (trace (fst (start_process w self init)))
    = firstn m1 [(1229, 191); (705, 714); (445, 167); (765, 165); (376, 234);
                 (770, 628); (1211, 603); (1257, 1035)]
    /\ typed (trace (fst (start_process w self init)))
       = firstn m2 [gif_directory w self; video_title self].
Proof.
  destruct (paste_events_summary
              (response_tags (response_text w (tag_prompt (video_title self)))))
    as (Pc & Pt & _).
  destruct (start_process_view w self (Z * Z)%type
              (fun ev => match ev with Click x y => [(x, y)] | _ => [] end))
    as [m1 E1].
  - reflexivity.
  - unfold tags_try_events. cbv zeta. rewrite !flat_map_app.
    fold (clicks (flat_map paste_events
                    (response_tags
                       (response_text w (tag_prompt (video_title self)))))).
    now rewrite Pc.
  - intros e. reflexivity.
  - reflexivity.
  - destruct (start_process_view w self str
                (fun ev => match ev with TypeText s => [s] | _ => [] end))
      as [m2 E2].
    + reflexivity.
    + unfold tags_try_events. cbv zeta. rewrite !flat_map_app.
      fold (typed (flat_map paste_events
                     (response_tags
                        (response_text w (tag_prompt (video_title self)))))).
      now rewrite Pt.
    + intros e. reflexivity.
    + reflexivity.
    + exists m1, m2. split; [exact E1 | exact E2].
Qed.

(* ================================================================= *)
(** ** The offsets and durations on the command lines *)

Lemma to_string_u (a : string) : to_string (u a) = a.
Proof.
  induction a as [|c a IH]; [reflexivity|].
  cbn [u to_string]. now rewrite ascii_N_embedding, IH.
Qed.

Lemma string_of_int_round_trip (z : Z) :
  NilZero.int_of_string (NilZero.string_of_int (Z.to_int z))
  = Some (Z.to_int z).
Proof.
  apply NilZero.isi; destruct z as [|p|p]; cbn [Z.to_int];
    try discriminate; intros H; injection H as H;
    now apply DecimalPos.Unsigned.to_uint_nonnil in H.
Qed.

(** Reading the notation of [str] gives the integer back. *)
Lemma int_of_str_of_int (z : Z) : int_of_str (str_of_int z) = Some z.
Proof.
  unfold int_of_str, str_of_int.
  rewrite to_string_u, string_of_int_round_trip. cbn [option_map].
  now rewrite DecimalZ.of_to.
Qed.

(** The notation of an integer is not the name of an option. *)
Lemma str_of_int_not_option (z : Z) (a : string) :
  NilZero.int_of_string a = None -> str_eqb (str_of_int z) (u a) = false.
Proof.
  intros Ha. unfold str_eqb.
  destruct (list_eq_dec N.eq_dec (str_of_int z) (u a)) as [E|]; [|reflexivity].
  unfold str_of_int in E. apply u_inj in E.
  pose proof (string_of_int_round_trip z) as H. rewrite E, Ha in H.
  discriminate H.
Qed.

Lemma nth_error_indices (m k : nat) (i : Z) :
  nth_error (map Z.of_nat (seq 0 m)) k = Some i ->
  (k < m)%nat /\ i = Z.of_nat k.
Proof.
  intros H.
  assert (k < m)%nat as Hk.
  { assert (nth_error (map Z.of_nat (seq 0 m)) k <> None) as Hs
      by (rewrite H; discriminate).
    apply nth_error_Some in Hs. now rewrite length_map, length_seq in Hs. }
  split; [exact Hk|].
  rewrite nth_error_map in H.
  destruct (nth_error (seq 0 m) k) as [j|] eqn:E; [|discriminate H].
  injection H as <-. f_equal.
  apply (nth_error_nth _ _ 0%nat) in E. now rewrite seq_nth in E.
Qed.

(** What the command built for the clip [i] asks for. *)
Lemma command_reads (i clip_length : Z) (video_path vf output_path : str) :
  let command :=
    [u "ffmpeg"; u "-y"; u "-ss"; str_of_int (i * clip_length);
     u "-t"; str_of_int clip_length; u "-i"; video_path; u "-vf"; vf;
     output_path] in
  start_offset command = Some (i * clip_length)
  /\ requested_duration command = Some clip_length.
Proof.
  cbv zeta. unfold start_offset, requested_duration. split.
  - change (option_value (u "-ss") _) with (Some (str_of_int (i * clip_length))).
    apply int_of_str_of_int.
  - cbn [option_value].
    change (str_eqb (u "ffmpeg") (u "-t")) with false.
    change (str_eqb (u "-y") (u "-t")) with false.
    change (str_eqb (u "-ss") (u "-t")) with false.
    rewrite str_of_int_not_option by reflexivity.
    change (str_eqb (u "-t") (u "-t")) with true. cbn [hd_error].
    apply int_of_str_of_int.
Qed.

(** C5.  With a clip count [n], the transcoder runs of a call are, in
    order, those for the indices 0 to [n - 1], and the command of the
    index [i] is [ffmpeg -y -ss i*clip_length -t clip_length -i video_path
    -vf ... output_(i+1).gif]: read back from the command line, its start
    offset is [i * clip_length] and its duration is [clip_length], the
    last clip as every other.  The intervals that the command lines of
    two different clips ask for share no instant.  The last clip can be
    logically shorter than [clip_length]: for a duration of 10 and a clip
    length of 3 there are 4 clips and 10 - 3 * 3 = 1 < 3. *)
Theorem video_to_gifs_clip_offsets (w : world) (video_path output_dir : str)
  (clip_length fps : Z) (s : state) (duration : spec_float) (n : Z) :
  py_float w (strip (ffprobe_stdout w video_path)) = Some duration ->
  num_clips duration clip_length = Ok n ->
  (exists t,
     video_to_gifs w video_path output_dir clip_length fps s
     = (extend s t, Ok tt)
     /\ transcodes t
        = map (fun i =>
                 [u "ffmpeg"; u "-y";
                  u "-ss"; str_of_int (i * clip_length);
                  u "-t"; str_of_int clip_length;
                  u "-i"; video_path;
                  u "-vf";
                  u "fps=" ++ str_of_int fps ++ u ",scale=480:-1:flags=lanczos";
                  os_path_join w output_dir
                    (u "output_" ++ str_of_int (i + 1) ++ u ".gif")])
            (map Z.of_nat (seq 0 (Z.to_nat n)))
     /\ List.length (transcodes t) = Z.to_nat n
     /\ (forall k command,
           nth_error (transcodes t) k = Some command ->
           start_offset command = Some (Z.of_nat k * clip_length)
           /\ requested_duration command = Some clip_length)
     /\ (forall k1 k2 c1 c2 a1 d1 a2 d2 (x : Q),
           k1 <> k2 ->
           nth_error (transcodes t) k1 = Some c1 ->
           nth_error (transcodes t) k2 = Some c2 ->
           start_offset c1 = Some a1 -> requested_duration c1 = Some d1 ->
           start_offset c2 = Some a2 -> requested_duration c2 = Some d2 ->
           ~ ((inject_Z a1 <= x /\ x < inject_Z (a1 + d1))
              /\ (inject_Z a2 <= x /\ x < inject_Z (a2 + d2)))%Q))
  /\ (exists d, decimal_float (u "10") = Some d
                /\ num_clips d 3 = Ok 4
                /\ (float_val d - inject_Z ((4 - 1) * 3) == 1)%Q).
Proof.
  intros Hd Hn. split.
  - rewrite video_to_gifs_run, Hd, Hn. cbv zeta.
    eexists. split; [reflexivity|].
    assert (transcodes
              ((ensure_dir_events w output_dir
                ++ [Probe (ffprobe_command video_path)])
               ++ [Console (VideoLength duration);
                   Console (Creating n clip_length)]
               ++ flat_map (clip_events w video_path output_dir clip_length fps)
                    (py_range n))
            = map (fun i =>
                     [u "ffmpeg"; u "-y";
                      u "-ss"; str_of_int (i * clip_length);
                      u "-t"; str_of_int clip_length;
                      u "-i"; video_path;
                      u "-vf";
                      u "fps=" ++ str_of_int fps
                        ++ u ",scale=480:-1:flags=lanczos";
                      os_path_join w output_dir
                        (u "output_" ++ str_of_int (i + 1) ++ u ".gif")])
                (map Z.of_nat (seq 0 (Z.to_nat n)))) as E.
    { rewrite !transcodes_app, transcodes_ensure_dir, transcodes_clips.
      cbn [transcodes flat_map app]. rewrite py_range_spec. reflexivity. }
    assert (forall k command,
              nth_error
                (map (fun i =>
                        [u "ffmpeg"; u "-y";
                         u "-ss"; str_of_int (i * clip_length);
                         u "-t"; str_of_int clip_length;
                         u "-i"; video_path;
                         u "-vf";
                         u "fps=" ++ str_of_int fps
                           ++ u ",scale=480:-1:flags=lanczos";
                         os_path_join w output_dir
                           (u "output_" ++ str_of_int (i + 1) ++ u ".gif")])
                   (map Z.of_nat (seq 0 (Z.to_nat n)))) k = Some command ->
              start_offset command = Some (Z.of_nat k * clip_length)
              /\ requested_duration command = Some clip_length) as Hread.
    { intros k command H. rewrite nth_error_map in H.
      destruct (nth_error (map Z.of_nat (seq 0 (Z.to_nat n))) k) as [i|] eqn:Ei;
        [|discriminate H].
      apply nth_error_indices in Ei as [_ ->]. injection H as <-.
      apply command_reads. }
    rewrite E. split; [reflexivity|].
    split; [now rewrite !length_map, length_seq|].
    split; [exact Hread|].
    intros k1 k2 c1 c2 a1 d1 a2 d2 x Hk H1 H2 A1 D1 A2 D2.
    apply Hread in H1 as [A1' D1'], H2 as [A2' D2'].
    rewrite A1' in A1. rewrite D1' in D1. rewrite A2' in A2. rewrite D2' in D2.
    injection A1 as <-. injection D1 as <-.
    injection A2 as <-. injection D2 as <-.
    apply clip_intervals_disjoint. intros H. apply Hk. now apply Nat2Z.inj.
  - eexists. split; [vm_compute; reflexivity|].
    split; vm_compute; reflexivity.
Qed.

Lemma video_to_gifs_clip_offsets_witness :
  let w := quiet_world (u "10.000000" ++ [10%N]) in
  let d := S754_finite false 5629499534213120 (-49) in
  py_float w (strip (ffprobe_stdout w (u "v.mp4"))) = Some d
  /\ num_clips d 3 = Ok 4
  /\ exists t,
       video_to_gifs w (u "v.mp4") (u "out") 3 15 init = (extend init t, Ok tt)
       /\ transcodes t
          = [[u "ffmpeg"; u "-y"; u "-ss"; u "0"; u "-t"; u "3"; u "-i";
              u "v.mp4"; u "-vf"; u "fps=15,scale=480:-1:flags=lanczos";
              u "out\output_1.gif"];
             [u "ffmpeg"; u "-y"; u "-ss"; u "3"; u "-t"; u "3"; u "-i";
              u "v.mp4"; u "-vf"; u "fps=15,scale=480:-1:flags=lanczos";
              u "out\output_2.gif"];
             [u "ffmpeg"; u "-y"; u "-ss"; u "6"; u "-t"; u "3"; u "-i";
              u "v.mp4"; u "-vf"; u "fps=15,scale=480:-1:flags=lanczos";
              u "out\output_3.gif"];
             [u "ffmpeg"; u "-y"; u "-ss"; u "9"; u "-t"; u "3"; u "-i";
              u "v.mp4"; u "-vf"; u "fps=15,scale=480:-1:flags=lanczos";
              u "out\output_4.gif"]]
       /\ map start_offset (transcodes t) = [Some 0; Some 3; Some 6; Some 9]
       /\ map requested_duration (transcodes t)
          = [Some 3; Some 3; Some 3; Some 3].
Proof.
  assert (py_float (quiet_world (u "10.000000" ++ [10%N]))
            (strip (ffprobe_stdout (quiet_world (u "10.000000" ++ [10%N]))
                      (u "v.mp4")))
          = Some (S754_finite false 5629499534213120 (-49))) as H1
    by (vm_compute; reflexivity).
  assert (num_clips (S754_finite false 5629499534213120 (-49)) 3 = Ok 4) as H2
    by (vm_compute; reflexivity).
  split; [exact H1|]. split; [exact H2|].
  destruct (proj1 (video_to_gifs_clip_offsets
                     (quiet_world (u "10.000000" ++ [10%N]))
                     (u "v.mp4") (u "out") 3 15 init _ 4 H1 H2))
    as (t & E & T & _).
  exists t. split; [exact E|]. rewrite T.
  split; [reflexivity|]. split; reflexivity.
Defined.

(* ================================================================= *)
(** ** The trapped corner while the tags are pasted *)

(** C8 (code at the failing input).  The pointer is in the trapped corner
    when the first generated tag is pasted: [pyautogui.hotkey], the action
    at position 59, raises [FailSafeException], and nothing else raises.
    The [except Exception] of [generate_and_paste_tags] catches it as an
    error of the tag generation: the six default tags are pasted, the
    final upload click is done and the status display ends with the
    success message; the abort is never reported and the sequence does
    not stop.  On the sibling path, with the text model unavailable, the
    same exception at the paste of the first default tag (position 56)
    reaches [start_process], which reports the abort and does none of the
    steps that remain. *)
Theorem start_process_failsafe_swallowed :
  let e := Exn FailSafeException [] in
  let w := one_fault_world true 59 e in
  let self := GiphyUploader_init w (u "Demo") true in
  let w' := one_fault_world false 56 e in
  let self' := GiphyUploader_init w' (u "Demo") true in
  single_fault w 59 e
  /\ nth_error (nominal w self) 58 = Some (Hotkey (u "ctrl") (u "v"))
  /\ (exists s',
        start_process w self init = (s', Ok tt)
        /\ emitted_tags (trace s')
           = [u "#demo"; u "#gif"; u "#animation"; u "#fun"; u "#meme";
              u "#trending"; u "#viral"]
        /\ In (Click 1257 1035) (trace s')
        /\ last (trace s') (Sleep 0)
           = StatusSet (u "Upload process completed successfully!")
        /\ ~ In (StatusSet (u "Process was aborted by moving mouse to corner"))
               (trace s'))
  /\ single_fault w' 56 e
  /\ nth_error (nominal w' self') 55 = Some (Hotkey (u "ctrl") (u "v"))
  /\ (exists s',
        start_process w' self' init = (s', Ok tt)
        /\ ~ In (Click 1257 1035) (trace s')
        /\ last (trace s') (Sleep 0)
           = StatusSet (u "Process was aborted by moving mouse to corner")).
Proof.
  cbv zeta.
  split; [intros j; reflexivity|]. split; [vm_compute; reflexivity|].
  split.
  - eexists. split; [vm_compute; reflexivity|].
    split; [vm_compute; reflexivity|].
    split; [vm_compute; do 92 right; left; reflexivity|].
    split; [vm_compute; reflexivity|].
    intros H. vm_compute in H.
    repeat (destruct H as [H|H]; [discriminate H|]). exact H.
  - split; [intros j; reflexivity|]. split; [vm_compute; reflexivity|].
    eexists. split; [vm_compute; reflexivity|].
    split; [|vm_compute; reflexivity].
    intros H. vm_compute in H.
    repeat (destruct H as [H|H]; [discriminate H|]). exact H.
Qed.
